(** * uptrade: the signal combiner, the moving-average and spectral kernels
      and the controllers, embedded from the Python sources

    Sources embedded here:
    - [src/signals/combiner.py]            ([SignalCombiner])
    - [src/indicators/nb/ma_library_nb.py] (SMA, EMA, WMA, RMA, DEMA, TEMA, KAMA,
      McGinley, Alexander, ILRS, XEMA, Donchian, linear regression, VWMA, the
      dispatcher, [MA_TYPE_NAMES])
    - [src/indicators/nb/spectral_nb.py]   ([goertzel_1d_nb], [bandpass_1d_nb],
      [spectral_analysis_1d_nb])
    - [src/indicators/nb/sniper_nb.py]     ([_stoch_1d])
    - [src/indicators/sniper.py], [src/indicators/vzo.py],
      [src/indicators/ma_library.py]       (the resolution of an MA type)
    - [src/indicators/signals.py]          ([generate_signals])
    - [src/controllers/sniper_controller.py], [src/controllers/base_vbt_controller.py],
      [src/controllers/vzo_controller.py], [src/controllers/cycle_controller.py]

    Conventions.
    - A Python exception is a value [Raise e] of the [result] type; code that
      can raise lives in the error monad below.
    - A 1-D NumPy array is a list; a 2-D array is the list of its rows.
    - [float64] is Rocq's primitive binary64 float.  The kernels are compiled
      with [@njit(cache=True)], that is with Numba's default error model, under
      which a scalar division by zero raises [ZeroDivisionError]: [fdiv].
    - Numba types the integer scalars of a kernel as 64-bit integers.  They
      are loop indices, array lengths and window sizes, and the expressions
      over them are index computations; they are interpreted in [Z], with
      the 64-bit wrap-around written out ([wrap64], [nb_range]) where a
      theorem ranges over windows at which it occurs.
    - Indexing is checked: a kernel that returns here has made every access
      inside its arrays, and [IndexError] marks an access outside them,
      which a compiled kernel does not check.  Where a kernel stores a
      constant at a fixed index whatever the length of the series, the store
      is [setitem_unchecked]: it raises nothing, and outside the array it
      changes no cell.
    - [np.empty] storage is modelled with a filler; every kernel embedded
      here writes each cell before it returns. *)

From Stdlib Require Import String ZArith List Bool Lia Floats Reals Lra Permutation.
Import ListNotations.
Local Open Scope string_scope.
Local Open Scope Z_scope.

(* ===================================================================== *)
(** * Part I: the embedding                                               *)
(* ===================================================================== *)

(** ** Python runtime: exceptions, the error monad, loops, indexing *)

(** A rendered piece of an exception message: literal text, or the
    interpolation of a [{name: length}] dict into an f-string. *)
Inductive fpart : Type :=
| Lit (s : string)
| Interp (d : list (string * nat)).

Inductive exn : Type :=
| ValueError (msg : list fpart)
| IndexError
| KeyError (key : string)
| StopIteration
| ZeroDivisionError.

Inductive result (A : Type) : Type :=
| Ok (a : A)
| Raise (e : exn).

Arguments Ok {A} a.
Arguments Raise {A} e.

Definition bind {A B : Type} (c : result A) (k : A -> result B) : result B :=
  match c with
  | Ok a => k a
  | Raise e => Raise e
  end.

Notation "x <- c ;; k" := (bind c (fun x => k))
  (at level 61, c at next level, right associativity).
Notation "' p <- c ;; k" := (bind c (fun p => k))
  (at level 61, p pattern, c at next level, right associativity).

(** [for i in range(lo, hi): s = body i s], stopping at the first exception. *)
Fixpoint for_loop {S : Type} (count : nat) (i : Z)
    (body : Z -> S -> result S) (s : S) : result S :=
  match count with
  | O => Ok s
  | Datatypes.S c => s' <- body i s ;; for_loop c (i + 1) body s'
  end.

Definition for_range {S : Type} (lo hi : Z) (body : Z -> S -> result S) (s : S)
  : result S :=
  for_loop (Z.to_nat (hi - lo)) lo body s.

Definition len {A : Type} (a : list A) : Z := Z.of_nat (length a).

(** [a[i]]: a negative index counts from the end, an index outside the
    array raises [IndexError]. *)
Definition norm_index {A : Type} (a : list A) (i : Z) : option nat :=
  let j := if i <? 0 then i + len a else i in
  if (0 <=? j) && (j <? len a) then Some (Z.to_nat j) else None.

Definition getitem {A : Type} (a : list A) (i : Z) : result A :=
  match norm_index a i with
  | Some j => match nth_error a j with
              | Some x => Ok x
              | None => Raise IndexError
              end
  | None => Raise IndexError
  end.

Fixpoint list_set {A : Type} (a : list A) (j : nat) (x : A) : list A :=
  match a, j with
  | [], _ => []
  | _ :: t, O => x :: t
  | h :: t, Datatypes.S j' => h :: list_set t j' x
  end.

(** [a[i] = x] *)
Definition setitem {A : Type} (a : list A) (i : Z) (x : A) : result (list A) :=
  match norm_index a i with
  | Some j => Ok (list_set a j x)
  | None => Raise IndexError
  end.

(** [a[start:stop]] for integer bounds: negative bounds count from the end,
    then both are clamped to [0, len a]. *)
Definition clamp_bound {A : Type} (a : list A) (b : Z) : nat :=
  let b' := if b <? 0 then b + len a else b in
  Z.to_nat (Z.min (Z.max b' 0) (len a)).

Definition py_slice {A : Type} (a : list A) (start stop : Z) : list A :=
  let s := clamp_bound a start in
  let e := clamp_bound a stop in
  firstn (e - s) (skipn s a).

(** A Python [dict] with [str] keys, in insertion order. *)
Definition dict (V : Type) : Type := list (string * V).

Fixpoint dict_get {V : Type} (d : dict V) (k : string) : option V :=
  match d with
  | [] => None
  | (k', v) :: rest => if String.eqb k' k then Some v else dict_get rest k
  end.

(** [k in d] *)
Definition dict_mem {V : Type} (d : dict V) (k : string) : bool :=
  match dict_get d k with
  | Some _ => true
  | None => false
  end.

(** [list(d.values())] *)
Definition values {V : Type} (d : dict V) : list V := map snd d.

(** ** NumPy on integer arrays *)

Definition ndarray : Type := list Z.

(** [matrix.shape[1]] of a stacked matrix *)
Definition shape1 {A : Type} (m : list (list A)) : nat :=
  match m with
  | [] => O
  | r :: _ => length r
  end.

(** [np.stack(arrays, axis=0)] *)
Definition np_stack (arrays : list ndarray) : result (list ndarray) :=
  match arrays with
  | [] => Raise (ValueError [Lit "need at least one array to stack"])
  | a :: rest =>
      if forallb (fun b => Nat.eqb (length b) (length a)) rest
      then Ok arrays
      else Raise (ValueError [Lit "all input arrays must have the same shape"])
  end.

(** [m[:, j]] *)
Definition column {A : Type} (d : A) (m : list (list A)) (j : nat) : list A :=
  map (fun r => nth j r d) m.

(** the columns of [m], that is the slices a reduction over [axis=0] folds *)
Definition axis0 {A : Type} (d : A) (m : list (list A)) : list (list A) :=
  map (column d m) (seq 0 (shape1 m)).

(** [matrix == v] *)
Definition mat_eq (m : list ndarray) (v : Z) : list (list bool) :=
  map (map (fun x => x =? v)) m.

(** [np.all(b, axis=0)] *)
Definition np_all_axis0 (b : list (list bool)) : list bool :=
  map (forallb (fun x => x)) (axis0 false b).

(** [np.sum(b, axis=0)] of a boolean matrix: a count per column *)
Definition np_count_axis0 (b : list (list bool)) : list Z :=
  map (fun c => fold_left (fun acc (x : bool) => acc + (if x then 1 else 0)) c 0)
      (axis0 false b).

(** [np.sum(m, axis=0)] of an integer matrix.  The sums are taken in [Z]:
    see [np_sum_int64_no_wrap] for the agreement with 64-bit accumulation
    on signal values. *)
Definition np_sum (c : list Z) : Z := fold_left Z.add c 0.

Definition np_sum_axis0 (m : list ndarray) : list Z :=
  map np_sum (axis0 0 m).

(** 64-bit two's complement accumulation, as NumPy performs it *)
Definition wrap64 (z : Z) : Z := (z + 2 ^ 63) mod 2 ^ 64 - 2 ^ 63.

Definition np_sum_int64 (c : list Z) : Z :=
  fold_left (fun acc x => wrap64 (acc + x)) c 0.

(** [np.sign] *)
Definition np_sign (v : list Z) : list Z := map Z.sgn v.

(** [np.zeros(n, dtype=np.int64)] *)
Definition np_zeros (n : nat) : ndarray := repeat 0 n.

(** [count > 0], [a & b], [~a] on boolean arrays *)
Definition np_gt0 (v : list Z) : list bool := map (fun x => 0 <? x) v.

Fixpoint np_and (a b : list bool) : list bool :=
  match a, b with
  | x :: a', y :: b' => (x && y) :: np_and a' b'
  | _, _ => []
  end.

Definition np_not (a : list bool) : list bool := map negb a.

(** [np.any(mask)] *)
Definition np_any (mask : list bool) : bool := existsb (fun x => x) mask.

(** [result[mask] = v] for a scalar [v] *)
Fixpoint mask_fill (res : ndarray) (mask : list bool) (v : Z) : ndarray :=
  match res, mask with
  | r :: res', b :: mask' => (if b then v else r) :: mask_fill res' mask' v
  | _, _ => res
  end.

(** [result[mask] = vals]: the selected cells take the values in order *)
Fixpoint mask_assign (res : ndarray) (mask : list bool) (vals : list Z) : ndarray :=
  match res, mask with
  | r :: res', true :: mask' =>
      match vals with
      | v :: vals' => v :: mask_assign res' mask' vals'
      | [] => r :: mask_assign res' mask' []
      end
  | r :: res', false :: mask' => r :: mask_assign res' mask' vals
  | _, _ => res
  end.

(** [row[mask]]: the entries of a row at the selected positions *)
Fixpoint mask_select {A : Type} (row : list A) (mask : list bool) : list A :=
  match row, mask with
  | x :: row', b :: mask' =>
      if b then x :: mask_select row' mask' else mask_select row' mask'
  | _, _ => []
  end.

(** [matrix[:, mask]] *)
Definition select_columns (m : list ndarray) (mask : list bool) : list ndarray :=
  map (fun r => mask_select r mask) m.

(** [np.where(c, x, y)] with a scalar [x] and an array [y], and with two scalars *)
Fixpoint np_where (c : list bool) (x : Z) (y : ndarray) : ndarray :=
  match c, y with
  | b :: c', v :: y' => (if b then x else v) :: np_where c' x y'
  | _, _ => []
  end.

Definition np_where_scalar (c : list bool) (x y : Z) : ndarray :=
  map (fun b : bool => if b then x else y) c.

(** ** float64 scalars and arrays *)

(** [float(z)]: the conversion of an integer to binary64, rounding to
    nearest; exact whenever [|z| < 2^53], defined through the 63-bit
    primitive for [|z| < 2^63] *)
Definition Z2f (z : Z) : float :=
  if z <? 0 then PrimFloat.opp (PrimFloat.of_uint63 (Uint63.of_Z (- z)))
  else PrimFloat.of_uint63 (Uint63.of_Z z).

(** [x / y] inside an [@njit] kernel *)
Definition fdiv (x y : float) : result float :=
  if PrimFloat.eqb y 0%float then Raise ZeroDivisionError
  else Ok (PrimFloat.div x y).

(** [range(lo, hi)] inside an [@njit] kernel.  Numba takes the trip count
    [hi - lo] in 64-bit arithmetic, where it wraps: [range(1, -2^63)] runs
    [2^63 - 1] times. *)
Definition nb_range {S : Type} (lo hi : Z) (body : Z -> S -> result S) (s : S)
  : result S :=
  for_loop (Z.to_nat (wrap64 (hi - lo))) lo body s.

(** [a[i] = x] inside an [@njit] kernel, for a constant stored at a fixed
    index whatever the length of [a].  Numba compiles the store without a
    bounds check: nothing is raised, and a store outside the array changes
    none of its cells. *)
Definition setitem_unchecked {A : Type} (a : list A) (i : Z) (x : A) : list A :=
  match norm_index a i with
  | Some j => list_set a j x
  | None => a
  end.

(** [acc += arr * w] on float arrays; NumPy broadcasts a length-1 operand
    and refuses any other length mismatch *)
Definition np_iadd_scaled (acc : list float) (arr : ndarray) (w : float)
  : result (list float) :=
  let term := map (fun x => PrimFloat.mul (Z2f x) w) arr in
  if Nat.eqb (length term) (length acc)
  then Ok (map (fun '(a, t) => PrimFloat.add a t) (List.combine acc term))
  else match term with
       | [t] => Ok (map (fun a => PrimFloat.add a t) acc)
       | _ => Raise (ValueError [Lit "operands could not be broadcast together"])
       end.

(** [~np.isnan(arr)] *)
Definition np_notnan (a : list float) : list bool :=
  map (fun x => negb (PrimFloat.is_nan x)) a.

(** An elementwise binary operation on two 1-D arrays: NumPy stretches an
    operand of length 1 and refuses any other length mismatch (its message,
    which goes on with the two shapes, is cut after the fixed text). *)
Definition np_broadcast2 {A B C : Type} (f : A -> B -> C) (a : list A) (b : list B)
  : result (list C) :=
  if Nat.eqb (length a) (length b)
  then Ok (map (fun '(x, y) => f x y) (List.combine a b))
  else match a, b with
       | [x], _ => Ok (map (f x) b)
       | _, [y] => Ok (map (fun x => f x y) a)
       | _, _ => Raise (ValueError [Lit "operands could not be broadcast together"])
       end.

(** [np.where(c, x, y)] with an array condition, a scalar [x] and an array [y] *)
Definition np_where_b (c : list bool) (x : Z) (y : ndarray) : result ndarray :=
  np_broadcast2 (fun (b : bool) v => if b then x else v) c y.

(** [a & b], [a | b] on boolean arrays and [a + b] on float arrays *)
Definition np_bitand (a b : list bool) : result (list bool) := np_broadcast2 andb a b.
Definition np_bitor (a b : list bool) : result (list bool) := np_broadcast2 orb a b.
Definition np_add (a b : list float) : result (list float) :=
  np_broadcast2 PrimFloat.add a b.

(** ** [src/signals/combiner.py] *)

Module SignalCombiner.

Inductive CombineMode : Type := AND | OR | WEIGHTED | CONFIRM.

Record IndicatorSignalConfig : Type := {
  name : string;
  weight : float;
  role : string;
  signal_source : string
}.

Record SignalCombinerConfig : Type := {
  mode : CombineMode;
  indicators : list IndicatorSignalConfig;
  weighted_threshold : float;
  confirm_window : Z
}.

(** AND mode: all indicators must agree. *)
Definition _combine_and (signals : dict ndarray) : result ndarray :=
  matrix <- np_stack (values signals) ;;
  let all_long := np_all_axis0 (mat_eq matrix 1) in
  let all_short := np_all_axis0 (mat_eq matrix (-1)) in
  Ok (np_where all_long 1 (np_where_scalar all_short (-1) 0)).

(** OR mode: any non-zero triggers, majority vote on conflicts. *)
Definition _combine_or (signals : dict ndarray) : result ndarray :=
  matrix <- np_stack (values signals) ;;
  let long_count := np_count_axis0 (mat_eq matrix 1) in
  let short_count := np_count_axis0 (mat_eq matrix (-1)) in
  let has_long := np_gt0 long_count in
  let has_short := np_gt0 short_count in
  let result := np_zeros (shape1 matrix) in
  let result := mask_fill result (np_and has_long (np_not has_short)) 1 in
  let result := mask_fill result (np_and has_short (np_not has_long)) (-1) in
  let conflict := np_and has_long has_short in
  if np_any conflict then
    let vote_sum := np_sum_axis0 (select_columns matrix conflict) in
    Ok (mask_assign result conflict (np_sign vote_sum))
  else Ok result.

(** WEIGHTED mode: weighted sum compared to threshold. *)
Definition weight_map_of (inds : list IndicatorSignalConfig) : dict float :=
  fold_left
    (fun wm c =>
       if dict_mem wm (name c)
       then map (fun '(k, v) => if String.eqb k (name c) then (k, weight c) else (k, v)) wm
       else (wm ++ [(name c, weight c)])%list)
    inds [].

Definition _combine_weighted (cfg : SignalCombinerConfig) (signals : dict ndarray)
  : result ndarray :=
  let weight_map := weight_map_of (indicators cfg) in
  match values signals with
  | [] => Raise StopIteration
  | first :: _ =>
      let n_bars := length first in
      '(weighted_sum, total_weight) <-
        fold_left
          (fun st '(nm, arr) =>
             '(ws, tw) <- st ;;
             let w := match dict_get weight_map nm with
                      | Some w => w
                      | None => 1%float
                      end in
             ws' <- np_iadd_scaled ws arr w ;;
             Ok (ws', PrimFloat.add tw w))
          signals (Ok (repeat 0%float n_bars, 0%float)) ;;
      let normalized :=
        if PrimFloat.ltb 0%float total_weight
        then map (fun x => PrimFloat.div x total_weight) weighted_sum
        else weighted_sum in
      let threshold := weighted_threshold cfg in
      Ok (map (fun x =>
                 if PrimFloat.leb threshold x then 1
                 else if PrimFloat.leb x (PrimFloat.opp threshold) then -1
                 else 0)
              normalized)
  end.

(** CONFIRM mode: primary signals, secondary confirms within window. *)
Definition _combine_confirm (cfg : SignalCombinerConfig) (signals : dict ndarray)
  : result ndarray :=
  let primary_names :=
    map name (filter (fun c => String.eqb (role c) "primary") (indicators cfg)) in
  let secondary_names :=
    map name (filter (fun c => String.eqb (role c) "secondary") (indicators cfg)) in
  match primary_names with
  | [] => _combine_and signals
  | primary_name :: _ =>
      match dict_get signals primary_name with
      | None => _combine_and signals
      | Some primary =>
          let n_bars := len primary in
          let window := confirm_window cfg in
          let sec_arrays :=
            flat_map (fun nm => match dict_get signals nm with
                                | Some arr => [arr]
                                | None => []
                                end)
                     secondary_names in
          match sec_arrays with
          | [] => Ok primary
          | _ :: _ =>
              sec_matrix <- np_stack sec_arrays ;;
              for_range 0 n_bars
                (fun i result =>
                   p_i <- getitem primary i ;;
                   if p_i =? 0 then Ok result
                   else
                     let direction := p_i in
                     let start := Z.max 0 (i - window) in
                     let stop := Z.min n_bars (i + window + 1) in
                     let window_slice :=
                       map (fun r => py_slice r start stop) sec_matrix in
                     if existsb (existsb (fun x => x =? direction)) window_slice
                     then setitem result i direction
                     else Ok result)
                (np_zeros (length primary))
          end
      end
  end.

(** [SignalCombiner.combine].  [CombineMode] is a closed enum, so the final
    [else: raise ValueError("Unknown mode")] has no case here. *)
Definition combine (cfg : SignalCombinerConfig) (signals : dict ndarray)
  : result ndarray :=
  match signals with
  | [] => Raise (ValueError [Lit "No signals provided"])
  | _ :: _ =>
      let lengths := map (fun '(nm, arr) => (nm, length arr)) signals in
      let unique_lengths := nodup Nat.eq_dec (map snd lengths) in
      if 1 <? len unique_lengths
      then Raise (ValueError [Lit "Signal arrays have different lengths: ";
                              Interp lengths])
      else match mode cfg with
           | AND => _combine_and signals
           | OR => _combine_or signals
           | WEIGHTED => _combine_weighted cfg signals
           | CONFIRM => _combine_confirm cfg signals
           end
  end.

(** [SignalCombiner(mode=...)]: the default configuration of a mode *)
Definition default_config (m : CombineMode) : SignalCombinerConfig :=
  {| mode := m; indicators := []; weighted_threshold := 0.5%float;
     confirm_window := 3 |}.

(** [CombineMode(str, Enum)]: the value of a member, and the lookup of a
    member by value that [CombineMode(mode)] performs. *)
Definition CombineMode_value (m : CombineMode) : string :=
  match m with
  | AND => "and"
  | OR => "or"
  | WEIGHTED => "weighted"
  | CONFIRM => "confirm"
  end.

Definition CombineMode_of_value (s : string) : result CombineMode :=
  if String.eqb s "and" then Ok AND
  else if String.eqb s "or" then Ok OR
  else if String.eqb s "weighted" then Ok WEIGHTED
  else if String.eqb s "confirm" then Ok CONFIRM
  else Raise (ValueError [Lit "'"; Lit s; Lit "' is not a valid CombineMode"]).

(** [SignalCombiner.__init__]: the configuration the combiner keeps.  A
    given [config] is taken as it is and [mode] is not looked at. *)
Definition __init__ (config : option SignalCombinerConfig) (mode : string)
  : result SignalCombinerConfig :=
  match config with
  | Some c => Ok c
  | None => m <- CombineMode_of_value mode ;; Ok (default_config m)
  end.

(** The attributes of an indicator result that [convert_indicator_output]
    reads. *)
Record IndicatorResult : Type := {
  major_buy : list float;
  major_sell : list float;
  minor_buy : list float;
  minor_sell : list float;
  composite : list float
}.

(** Convert VBT IndicatorFactory output to integer signal array. *)
Definition convert_indicator_output (indicator_result : IndicatorResult)
    (signal_source : string) : result ndarray :=
  if String.eqb signal_source "major" then
    let buy := np_notnan (major_buy indicator_result) in
    let sell := np_notnan (major_sell indicator_result) in
    np_where_b buy 1 (np_where_scalar sell (-1) 0)
  else if String.eqb signal_source "minor" then
    let buy := np_notnan (minor_buy indicator_result) in
    let sell := np_notnan (minor_sell indicator_result) in
    np_where_b buy 1 (np_where_scalar sell (-1) 0)
  else if String.eqb signal_source "composite" then
    let composite := composite indicator_result in
    np_where_b (map (fun x => PrimFloat.ltb 0%float x) composite) 1
      (np_where_scalar (map (fun x => PrimFloat.ltb x 0%float) composite) (-1) 0)
  else Raise (ValueError [Lit "Unknown signal_source: "; Lit signal_source]).

End SignalCombiner.


(** ** [src/indicators/nb/ma_library_nb.py] *)

Module MaLibraryNb.

Local Open Scope float_scope.

Definition MA_SMA : Z := 0.
Definition MA_EMA : Z := 1.
Definition MA_WMA : Z := 2.
Definition MA_RMA : Z := 3.
Definition MA_DEMA : Z := 4.
Definition MA_TEMA : Z := 5.
Definition MA_HULL : Z := 6.
Definition MA_ALMA : Z := 7.
Definition MA_JURIK : Z := 8.
Definition MA_KAMA : Z := 9.
Definition MA_FRAMA : Z := 10.
Definition MA_VAMA : Z := 11.
Definition MA_T3 : Z := 12.
Definition MA_T3_EARLY : Z := 13.
Definition MA_ZLEMA : Z := 14.
Definition MA_MCGINLEY : Z := 15.
Definition MA_MODULAR_FILTER : Z := 16.
Definition MA_COVWMA : Z := 17.
Definition MA_EDSMA : Z := 18.
Definition MA_EHLERS_SUPER_SMOOTHER : Z := 19.
Definition MA_EHLERS_EMA_SMOOTHER : Z := 20.
Definition MA_AHRENS : Z := 21.
Definition MA_ALEXANDER : Z := 22.
Definition MA_ADXVMA : Z := 23.
Definition MA_ILRS : Z := 24.
Definition MA_LEADER_EMA : Z := 25.
Definition MA_RMTA : Z := 26.
Definition MA_DECYCLER : Z := 27.
Definition MA_TRIANGULAR : Z := 28.
Definition MA_XEMA : Z := 29.
Definition MA_DONCHIAN : Z := 30.
Definition MA_DONCHIAN_V2 : Z := 31.
Definition MA_VWMA : Z := 32.
Definition MA_LINREG : Z := 33.

(** Mapping from string names to int codes, in source order. *)
Definition MA_TYPE_NAMES : dict Z :=
  [ ("Simple Moving Average", MA_SMA);
    ("Exponential Moving Average", MA_EMA);
    ("Weighted Moving Average", MA_WMA);
    ("Relative Moving Average", MA_RMA);
    ("Smoothed Moving Average", MA_RMA);
    ("Double Exponential Moving Average", MA_DEMA);
    ("Triple Exponential Moving Average", MA_TEMA);
    ("Hull Moving Average", MA_HULL);
    ("Arnaud Legoux Moving Average", MA_ALMA);
    ("Jurik Moving Average", MA_JURIK);
    ("Kaufman's Adaptive Moving Average", MA_KAMA);
    ("Fractal Adaptive Moving Average", MA_FRAMA);
    ("Volatility Adjusted Moving Average", MA_VAMA);
    ("Tilson T3 Moving Average", MA_T3);
    ("Tilson T3(early version) Moving Average", MA_T3_EARLY);
    ("Zero-Lag Exponential Moving Average", MA_ZLEMA);
    ("McGinley", MA_MCGINLEY);
    ("Modular Filter", MA_MODULAR_FILTER);
    ("Coefficient of Variation Weighted Moving Average", MA_COVWMA);
    ("Ehlers Dynamic Smoothed Moving Average", MA_EDSMA);
    ("Ehlers EMA Smoother", MA_EHLERS_EMA_SMOOTHER);
    ("Ahrens Moving Average", MA_AHRENS);
    ("Alexander Moving Average", MA_ALEXANDER);
    ("Average Directional Volatility Moving Average", MA_ADXVMA);
    ("Integral of Linear Regression Slope", MA_ILRS);
    ("Leader Exponential Moving Average", MA_LEADER_EMA);
    ("Recursive Moving Trendline", MA_RMTA);
    ("Simple Decycler", MA_DECYCLER);
    ("Triangular Moving Average", MA_TRIANGULAR);
    ("Exponential Moving Average Optimized", MA_XEMA);
    ("Donchian", MA_DONCHIAN);
    ("Donchian v2", MA_DONCHIAN_V2);
    ("Volume Weighted Moving Average", MA_VWMA);
    ("Least Squares Moving Average", MA_LINREG);
    ("Ehlers Super Smoother", MA_EHLERS_SUPER_SMOOTHER) ]%string.

(** [np.empty(n, dtype=np.float64)]: fresh storage whose contents are not
    specified; the kernels below write every cell before they return. *)
Definition np_empty (n : nat) : list float := repeat 0 n.

(** Simple Moving Average *)
Definition sma_1d_nb (src : list float) (window : Z) : result (list float) :=
  let n := len src in
  let out := np_empty (length src) in
  '(out, _) <-
    for_range 0 n
      (fun i '(out, cumsum) =>
         x <- getitem src i ;;
         let cumsum := cumsum + x in
         cumsum <- (if (window <=? i)%Z
                    then y <- getitem src (i - window)%Z ;; Ok (cumsum - y)
                    else Ok cumsum) ;;
         if (i <? window - 1)%Z
         then out <- setitem out i nan ;; Ok (out, cumsum)
         else q <- fdiv cumsum (Z2f window) ;;
              out <- setitem out i q ;; Ok (out, cumsum))
      (out, 0) ;;
  Ok out.

(** Exponential Moving Average *)
Definition ema_1d_nb (src : list float) (window : Z) : result (list float) :=
  let n := len src in
  let out := np_empty (length src) in
  alpha <- fdiv 2 (Z2f window + 1) ;;
  x0 <- getitem src 0%Z ;;
  out <- setitem out 0%Z x0 ;;
  for_range 1 n
    (fun i out =>
       x <- getitem src i ;;
       prev <- getitem out (i - 1)%Z ;;
       setitem out i (alpha * x + (1 - alpha) * prev))
    out.

(** Weighted Moving Average *)
Definition wma_1d_nb (src : list float) (window : Z) : result (list float) :=
  let n := len src in
  let out := np_empty (length src) in
  denom <- fdiv (Z2f (window * (window + 1))) 2 ;;
  for_range 0 n
    (fun i out =>
       if (i <? window - 1)%Z
       then setitem out i nan
       else
         s <- for_range 0 window
                (fun j s =>
                   x <- getitem src (i - window + 1 + j)%Z ;;
                   Ok (s + x * Z2f (j + 1)))
                0 ;;
         q <- fdiv s denom ;;
         setitem out i q)
    out.

(** Double EMA *)
Definition dema_1d_nb (src : list float) (window : Z) : result (list float) :=
  e1 <- ema_1d_nb src window ;;
  e2 <- ema_1d_nb e1 window ;;
  let n := len src in
  let out := np_empty (length src) in
  for_range 0 n
    (fun i out =>
       a <- getitem e1 i ;;
       b <- getitem e2 i ;;
       setitem out i (2 * a - b))
    out.

(** [ratio ** 4]: Numba unrolls a power with an integer-literal exponent
    into multiplications by repeated squaring. *)
Definition pow4 (x : float) : float :=
  let x2 := x * x in x2 * x2.

(** McGinley Dynamic *)
Definition mcginley_1d_nb (src : list float) (window : Z) : result (list float) :=
  let n := len src in
  let out := np_empty (length src) in
  x0 <- getitem src 0%Z ;;
  out <- setitem out 0%Z x0 ;;
  for_range 1 n
    (fun i out =>
       prev <- getitem out (i - 1)%Z ;;
       if prev =? 0
       then x <- getitem src i ;; setitem out i x
       else
         x <- getitem src i ;;
         ratio <- fdiv x prev ;;
         x' <- getitem src i ;;
         q <- fdiv (x' - prev) (Z2f window * pow4 ratio) ;;
         setitem out i (prev + q))
    out.

(** *** Further kernels

    In the kernels below a cell of [np.empty] storage is read only after it
    has been written, for the windows the theorems of Part III cover. *)

Definition _nz (val default : float) : float :=
  if PrimFloat.is_nan val then default else val.

(** [x ** 2]: Numba unrolls a power with an integer-literal exponent. *)
Definition pow2 (x : float) : float := x * x.

(** Wilder / RMA / SMMA *)
Definition rma_1d_nb (src : list float) (window : Z) : result (list float) :=
  let n := len src in
  let out := np_empty (length src) in
  (* seed with SMA *)
  '(out, s) <-
    for_range 0 (Z.min window n)
      (fun i '(out, s) =>
         x <- getitem src i ;;
         let s := s + x in
         out <- setitem out i nan ;;
         Ok (out, s))
      (out, 0) ;;
  if (window <=? n)%Z then
    q <- fdiv s (Z2f window) ;;
    out <- setitem out (window - 1)%Z q ;;
    for_range window n
      (fun i out =>
         prev <- getitem out (i - 1)%Z ;;
         x <- getitem src i ;;
         q <- fdiv (prev * Z2f (window - 1) + x) (Z2f window) ;;
         setitem out i q)
      out
  else Ok out.

(** Triple EMA *)
Definition tema_1d_nb (src : list float) (window : Z) : result (list float) :=
  e1 <- ema_1d_nb src window ;;
  e2 <- ema_1d_nb e1 window ;;
  e3 <- ema_1d_nb e2 window ;;
  let n := len src in
  let out := np_empty (length src) in
  for_range 0 n
    (fun i out =>
       a <- getitem e1 i ;;
       b <- getitem e2 i ;;
       c <- getitem e3 i ;;
       setitem out i (3 * a - 3 * b + c))
    out.

(** Kaufman Adaptive MA (KAMA); the defaults are [fast_end=0.666],
    [slow_end=0.0645] *)
Definition kama_1d_nb (src : list float) (window : Z) (fast_end slow_end : float)
  : result (list float) :=
  let n := len src in
  let out := np_empty (length src) in
  x0 <- getitem src 0%Z ;;
  out <- setitem out 0%Z x0 ;;
  for_range 1 n
    (fun i out =>
       a <- getitem src i ;;
       b <- getitem src (Z.max 0 (i - window)) ;;
       let direction := abs (a - b) in
       noise <-
         for_range 0 (Z.min i window)
           (fun j noise =>
              t <- (if (0 <=? i - j - 1)%Z
                    then x <- getitem src (i - j)%Z ;;
                         y <- getitem src (i - j - 1)%Z ;;
                         Ok (abs (x - y))
                    else Ok 0) ;;
              Ok (noise + t))
           0 ;;
       er <- (if negb (noise =? 0) then fdiv direction noise else Ok 1) ;;
       let sc := pow2 (er * (fast_end - slow_end) + slow_end) in
       prev <- getitem out (i - 1)%Z ;;
       x <- getitem src i ;;
       prev' <- getitem out (i - 1)%Z ;;
       setitem out i (prev + sc * (x - prev')))
    out.

(** Alexander Moving Average.  [sumw] and [weight] are integers; [sumw] is
    converted where it meets a float. *)
Definition alexander_1d_nb (src : list float) (window : Z) : result (list float) :=
  let n := len src in
  let out := np_empty (length src) in
  for_range 0 n
    (fun i out =>
       if (window <? 4)%Z
       then x <- getitem src i ;; setitem out i x
       else
         let sumw := (window - 2)%Z in
         x <- getitem src i ;;
         let s := Z2f sumw * x in
         '(sumw, s) <-
           for_range 1 (Z.min (i + 1) (window + 1))
             (fun k '(sumw, s) =>
                let weight := (window - k - 2)%Z in
                let sumw := (sumw + weight)%Z in
                let idx := (i - k)%Z in
                v <- (if (0 <=? idx)%Z then getitem src idx else getitem src 0%Z) ;;
                Ok (sumw, s + Z2f weight * v))
             (sumw, s) ;;
         q <- (if negb (Z2f sumw =? 0) then fdiv s (Z2f sumw) else getitem src i) ;;
         setitem out i q)
    out.

(** Integral of Linear Regression Slope (ILRS).  The products of [length]
    are 64-bit integer products. *)
Definition ilrs_1d_nb (src : list float) (window : Z) : result (list float) :=
  let n := len src in
  let out := np_empty (length src) in
  sma_vals <- sma_1d_nb src window ;;
  for_range 0 n
    (fun i out =>
       let length := Z.min (i + 1) window in
       if (length <? 2)%Z
       then x <- getitem src i ;; setitem out i x
       else
         '(sum1, sumy) <-
           for_range 0 length
             (fun j '(sum1, sumy) =>
                let idx := (i - j)%Z in
                x <- getitem src idx ;;
                let sum1 := sum1 + Z2f j * x in
                y <- getitem src idx ;;
                Ok (sum1, sumy + y))
             (0, 0) ;;
         let si := Z2f (wrap64 (length * (length - 1))) * 0.5 in
         s2 <- fdiv (Z2f (wrap64 ((length - 1) * length * (2 * length - 1)))) 6 ;;
         let num1 := Z2f length * sum1 - si * sumy in
         let num2 := si * si - Z2f length * s2 in
         slope <- (if negb (num2 =? 0) then fdiv num1 num2 else Ok 0) ;;
         sv <- getitem sma_vals i ;;
         x <- getitem src i ;;
         setitem out i (slope + _nz sv x))
    out.

(** Optimized EMA (XEMA) -- same formula as EMA but explicit mult *)
Definition xema_1d_nb (src : list float) (window : Z) : result (list float) :=
  let n := len src in
  let out := np_empty (length src) in
  mult <- fdiv 2 (Z2f window + 1) ;;
  x0 <- getitem src 0%Z ;;
  out <- setitem out 0%Z x0 ;;
  for_range 1 n
    (fun i out =>
       x <- getitem src i ;;
       prev <- getitem out (i - 1)%Z ;;
       setitem out i (mult * x + (1 - mult) * prev))
    out.

(** Donchian: mid-line of Donchian channel (avg of highest/lowest over
    window). *)
Definition donchian_1d_nb (src : list float) (window : Z) : result (list float) :=
  let n := len src in
  let out := np_empty (length src) in
  for_range 0 n
    (fun i out =>
       hi <- getitem src i ;;
       lo <- getitem src i ;;
       '(hi, lo) <-
         nb_range 1 (Z.min (i + 1) window)
           (fun j '(hi, lo) =>
              v <- getitem src (i - j)%Z ;;
              let hi := if hi <? v then v else hi in
              let lo := if v <? lo then v else lo in
              Ok (hi, lo))
           (hi, lo) ;;
       q <- fdiv (hi + lo) 2 ;;
       setitem out i q)
    out.

(** Linear Regression (LSMA / linreg with offset=0) *)
Definition linreg_1d_nb (src : list float) (window : Z) : result (list float) :=
  let n := len src in
  let out := np_empty (length src) in
  for_range 0 n
    (fun i out =>
       let length := Z.min (i + 1) window in
       if (length <? 2)%Z
       then x <- getitem src i ;; setitem out i x
       else
         '(sumx, sumy, sumxx, sumxy) <-
           for_range 0 length
             (fun j '(sumx, sumy, sumxx, sumxy) =>
                let x := Z2f j in
                y <- getitem src (i - length + 1 + j)%Z ;;
                Ok (sumx + x, sumy + y, sumxx + x * x, sumxy + x * y))
             (0, 0, 0, 0) ;;
         let denom := Z2f length * sumxx - sumx * sumx in
         if negb (denom =? 0)
         then
           slope <- fdiv (Z2f length * sumxy - sumx * sumy) denom ;;
           intercept <- fdiv (sumy - slope * sumx) (Z2f length) ;;
           setitem out i (intercept + slope * Z2f (length - 1))
         else
           q <- fdiv sumy (Z2f length) ;;
           setitem out i q)
    out.

(** VWMA -- requires volume, handled separately in the factory.
    [window - 1] is a 64-bit difference. *)
Definition vwma_1d_nb (src volume : list float) (window : Z) : result (list float) :=
  let n := len src in
  let out := np_empty (length src) in
  for_range 0 n
    (fun i out =>
       if (i <? wrap64 (window - 1))%Z
       then setitem out i nan
       else
         '(sv, tv) <-
           for_range 0 window
             (fun j '(sv, tv) =>
                x <- getitem src (i - j)%Z ;;
                v <- getitem volume (i - j)%Z ;;
                let sv := sv + x * v in
                v' <- getitem volume (i - j)%Z ;;
                Ok (sv, tv + v'))
             (0, 0) ;;
         q <- (if negb (tv =? 0) then fdiv sv tv else getitem src i) ;;
         setitem out i q)
    out.

(** *** Universal dispatcher (no volume)

    The kernels that this development does not embed (they call [np.exp],
    [np.log], [np.cos] and a float power, or convert a float to an integer,
    or are not the subject of a theorem) are parameters of the dispatcher. *)
Record OtherKernels : Type := {
  hull_1d_nb : list float -> Z -> result (list float);
  alma_1d_nb : list float -> Z -> result (list float);
  jurik_1d_nb : list float -> Z -> float -> float -> result (list float);
  frama_1d_nb : list float -> Z -> result (list float);
  vama_1d_nb : list float -> Z -> result (list float);
  t3_1d_nb : list float -> Z -> result (list float);
  t3_early_1d_nb : list float -> Z -> result (list float);
  zlema_1d_nb : list float -> Z -> result (list float);
  modular_filter_1d_nb : list float -> Z -> result (list float);
  covwma_1d_nb : list float -> Z -> result (list float);
  edsma_1d_nb : list float -> Z -> result (list float);
  ehlers_super_smoother_1d_nb : list float -> Z -> result (list float);
  ehlers_ema_smoother_1d_nb : list float -> Z -> result (list float);
  ahrens_1d_nb : list float -> Z -> result (list float);
  adxvma_1d_nb : list float -> Z -> result (list float);
  leader_ema_1d_nb : list float -> Z -> result (list float);
  rmta_1d_nb : list float -> Z -> result (list float);
  decycler_1d_nb : list float -> Z -> result (list float);
  triangular_1d_nb : list float -> Z -> result (list float);
  donchian_v2_1d_nb : list float -> Z -> result (list float)
}.

(** Compute any MA type on a 1-D array. *)
Definition universal_ma_1d_nb (k : OtherKernels) (src : list float) (window : Z)
    (ma_type : Z) (phase power : float) : result (list float) :=
  if (ma_type =? MA_SMA)%Z then sma_1d_nb src window
  else if (ma_type =? MA_EMA)%Z then ema_1d_nb src window
  else if (ma_type =? MA_WMA)%Z then wma_1d_nb src window
  else if (ma_type =? MA_RMA)%Z then rma_1d_nb src window
  else if (ma_type =? MA_DEMA)%Z then dema_1d_nb src window
  else if (ma_type =? MA_TEMA)%Z then tema_1d_nb src window
  else if (ma_type =? MA_HULL)%Z then hull_1d_nb k src window
  else if (ma_type =? MA_ALMA)%Z then alma_1d_nb k src window
  else if (ma_type =? MA_JURIK)%Z then jurik_1d_nb k src window phase power
  else if (ma_type =? MA_KAMA)%Z
       then kama_1d_nb src window 0x1.54fdf3b645a1dp-1 0x1.083126e978d5p-4
  else if (ma_type =? MA_FRAMA)%Z then frama_1d_nb k src window
  else if (ma_type =? MA_VAMA)%Z then vama_1d_nb k src window
  else if (ma_type =? MA_T3)%Z then t3_1d_nb k src window
  else if (ma_type =? MA_T3_EARLY)%Z then t3_early_1d_nb k src window
  else if (ma_type =? MA_ZLEMA)%Z then zlema_1d_nb k src window
  else if (ma_type =? MA_MCGINLEY)%Z then mcginley_1d_nb src window
  else if (ma_type =? MA_MODULAR_FILTER)%Z then modular_filter_1d_nb k src window
  else if (ma_type =? MA_COVWMA)%Z then covwma_1d_nb k src window
  else if (ma_type =? MA_EDSMA)%Z then edsma_1d_nb k src window
  else if (ma_type =? MA_EHLERS_SUPER_SMOOTHER)%Z
       then ehlers_super_smoother_1d_nb k src window
  else if (ma_type =? MA_EHLERS_EMA_SMOOTHER)%Z
       then ehlers_ema_smoother_1d_nb k src window
  else if (ma_type =? MA_AHRENS)%Z then ahrens_1d_nb k src window
  else if (ma_type =? MA_ALEXANDER)%Z then alexander_1d_nb src window
  else if (ma_type =? MA_ADXVMA)%Z then adxvma_1d_nb k src window
  else if (ma_type =? MA_ILRS)%Z then ilrs_1d_nb src window
  else if (ma_type =? MA_LEADER_EMA)%Z then leader_ema_1d_nb k src window
  else if (ma_type =? MA_RMTA)%Z then rmta_1d_nb k src window
  else if (ma_type =? MA_DECYCLER)%Z then decycler_1d_nb k src window
  else if (ma_type =? MA_TRIANGULAR)%Z then triangular_1d_nb k src window
  else if (ma_type =? MA_XEMA)%Z then xema_1d_nb src window
  else if (ma_type =? MA_DONCHIAN)%Z then donchian_1d_nb src window
  else if (ma_type =? MA_DONCHIAN_V2)%Z then donchian_v2_1d_nb k src window
  else if (ma_type =? MA_LINREG)%Z then linreg_1d_nb src window
  else sma_1d_nb src window.

End MaLibraryNb.

(** ** [src/indicators/nb/spectral_nb.py] *)

Module SpectralNb.

(** The Goertzel kernel calls [np.sin], [np.cos], [np.sqrt] and uses [np.pi],
    which Rocq's primitive floats do not provide.  The kernel is therefore
    written over an arithmetic interface: it runs on binary64 once the
    library functions are supplied ([float64_ops]) and on the real numbers
    ([R_ops]). *)
Record FloatOps : Type := {
  F : Type;
  of_Z : Z -> F;            (* float literals and int-to-float conversion *)
  add : F -> F -> F;
  sub : F -> F -> F;
  mul : F -> F -> F;
  quot : F -> F -> F;       (* the quotient, for a non-zero divisor *)
  is_zero : F -> bool;      (* [x == 0.0] *)
  sqrt : F -> F;
  sin : F -> F;
  cos : F -> F;
  PI : F
}.

Definition float64_ops (np_sin np_cos : float -> float) (np_pi : float) : FloatOps :=
  {| F := float; of_Z := Z2f;
     add := PrimFloat.add; sub := PrimFloat.sub; mul := PrimFloat.mul;
     quot := PrimFloat.div; is_zero := fun x => PrimFloat.eqb x 0%float;
     sqrt := PrimFloat.sqrt; sin := np_sin; cos := np_cos; PI := np_pi |}.

Definition R_is_zero (x : R) : bool :=
  if Req_dec_T x 0%R then true else false.

Definition R_ops : FloatOps :=
  {| F := R; of_Z := IZR;
     add := Rplus; sub := Rminus; mul := Rmult;
     quot := Rdiv; is_zero := R_is_zero;
     sqrt := R_sqrt.sqrt; sin := Rtrigo_def.sin; cos := Rtrigo_def.cos;
     PI := Rtrigo1.PI |}.

Section Kernel.

Context (ops : FloatOps).

Declare Scope F_scope.
Local Notation "x + y" := (add ops x y) : F_scope.
Local Notation "x - y" := (sub ops x y) : F_scope.
Local Notation "x * y" := (mul ops x y) : F_scope.
Local Notation "# z" := (of_Z ops z) (at level 5, format "# z") : F_scope.
Local Open Scope F_scope.

(** [x / y] inside an [@njit] kernel *)
Definition div (x y : F ops) : result (F ops) :=
  if is_zero ops y then Raise ZeroDivisionError else Ok (quot ops x y).

(** Generalized Goertzel DFT at a specific cycle frequency. *)
Definition goertzel_1d_nb (src : list (F ops)) (window_size : Z)
    (cycle_len scale_factor : F ops) : result (list (F ops)) :=
  let n := len src in
  let out := repeat #0 (length src) in
  for_range 0 n
    (fun i out =>
       let length := Z.min (i + 1) window_size in
       if (length <? 2)%Z then setitem out i #0
       else
         k <- div #length cycle_len ;;
         omega <- div (#2 * PI ops * k) #length ;;
         let sine := sin ops omega in
         let cosine := cos ops omega in
         let coeff := #2 * cosine in
         '(q1, q2) <-
           for_range 0 length
             (fun j '(q1, q2) =>
                val <- getitem src (i - length + 1 + j)%Z ;;
                let q0 := coeff * q1 - q2 + val in
                Ok (q0, q1))
             (#0, #0) ;;
         re_l <- div (cosine * q1 - q2) #length ;;
         let real := re_l * #2 in
         im_l <- div (sine * q1) #length ;;
         let imag := im_l * #2 in
         (* stdev of source over window for normalization *)
         mean <- for_range 0 length
                   (fun j mean => x <- getitem src (i - j)%Z ;; Ok (mean + x))
                   #0 ;;
         mean <- div mean #length ;;
         var <- for_range 0 length
                  (fun j var =>
                     x <- getitem src (i - j)%Z ;;
                     Ok (var + (x - mean) * (x - mean)))
                  #0 ;;
         v_l <- div var #length ;;
         let normalizer := sqrt ops v_l in
         let amp := sqrt ops (real * real + imag * imag) * normalizer in
         final_amp <- div amp scale_factor ;;
         phase <- div (PI ops * #2 * #i) cycle_len ;;
         setitem out i (final_amp * sin ops phase))
    out.

(** *** The quantities the kernel computes at one bar, on the window

    [window_of src i l] is the window of bar [i]: the last [l] samples up to
    and including [src[i]]. *)
Definition window_of (src : list (F ops)) (i l : nat) : list (F ops) :=
  firstn l (skipn (i + 1 - l) src).

(** the Goertzel recurrence run over a window, oldest sample first *)
Definition goertzel_state (coeff : F ops) (w : list (F ops)) : F ops * F ops :=
  fold_left (fun '(q1, q2) val => (coeff * q1 - q2 + val, q1)) w (#0, #0).

(** the magnitude of the DFT bin of period [cycle_len] over a window of
    [l] samples *)
Definition goertzel_magnitude (w : list (F ops)) (l : Z) (cycle_len : F ops) : F ops :=
  let k := quot ops #l cycle_len in
  let omega := quot ops (#2 * PI ops * k) #l in
  let sine := sin ops omega in
  let cosine := cos ops omega in
  let '(q1, q2) := goertzel_state (#2 * cosine) w in
  let real := quot ops (cosine * q1 - q2) #l * #2 in
  let imag := quot ops (sine * q1) #l * #2 in
  sqrt ops (real * real + imag * imag).

(** mean and summed squared deviation of a window, accumulated from the
    newest sample backwards *)
Definition window_mean (w : list (F ops)) (l : Z) : F ops :=
  quot ops (fold_left (add ops) (rev w) #0) #l.

Definition window_sq_dev (w : list (F ops)) (mean : F ops) : F ops :=
  fold_left (fun acc x => acc + (x - mean) * (x - mean)) (rev w) #0.

(** population standard deviation: the squared deviations are averaged over
    the [l] samples of the window *)
Definition population_stdev (w : list (F ops)) (l : Z) : F ops :=
  sqrt ops (quot ops (window_sq_dev w (window_mean w l)) #l).

(** sample standard deviation: the squared deviations are divided by
    [l - 1] *)
Definition sample_stdev (w : list (F ops)) (l : Z) : F ops :=
  sqrt ops (quot ops (window_sq_dev w (window_mean w l)) #(l - 1)).

(** the trace at bar [i]: the magnitude multiplied by the population
    standard deviation of the window, divided by [scale_factor], times
    [sin(2*pi*i/cycle_len)]; 0 while the window has fewer than 2 samples *)
Definition goertzel_bar (src : list (F ops)) (window_size : Z)
    (cycle_len scale_factor : F ops) (i : nat) : F ops :=
  let l := Z.min (Z.of_nat i + 1) window_size in
  if (l <? 2)%Z then #0
  else
    let w := window_of src i (Z.to_nat l) in
    let amplitude :=
      quot ops (goertzel_magnitude w l cycle_len * population_stdev w l)
           scale_factor in
    amplitude * sin ops (quot ops (PI ops * #2 * #(Z.of_nat i)) cycle_len).

(** the trace at bar [i] with the amplitude in the words of the spec: the
    magnitude normalized by the sample standard deviation of the window
    ([normalize] is the reading of "normalized by"), divided by
    [scale_factor] *)
Definition goertzel_bar_claimed (normalize : F ops -> F ops -> F ops)
    (src : list (F ops)) (window_size : Z)
    (cycle_len scale_factor : F ops) (i : nat) : F ops :=
  let l := Z.min (Z.of_nat i + 1) window_size in
  if (l <? 2)%Z then #0
  else
    let w := window_of src i (Z.to_nat l) in
    let amplitude :=
      quot ops (normalize (goertzel_magnitude w l cycle_len) (sample_stdev w l))
           scale_factor in
    amplitude * sin ops (quot ops (PI ops * #2 * #(Z.of_nat i)) cycle_len).

End Kernel.

(** *** The kernels on binary64

    [np.sin], [np.cos] and [np.pi] are supplied; [np.sqrt] is the square
    root of binary64. *)
Section Float64.

Variables (np_sin np_cos : float -> float) (np_pi : float).

Local Open Scope float_scope.

(** Hurst Bandpass Filter (IIR, 2nd order).  The stores [out[0]] and
    [out[1]] precede the loop and are made whatever the length of the
    series. *)
Definition bandpass_1d_nb (src : list float) (period bandwidth : float)
  : result (list float) :=
  let n := len src in
  let out := MaLibraryNb.np_empty (length src) in
  let PI := np_pi in
  a <- fdiv 360 period ;;
  b <- fdiv (PI * a) 180 ;;
  let beta := np_cos b in
  c <- fdiv (720 * bandwidth) period ;;
  d <- fdiv (PI * c) 180 ;;
  gamma <- fdiv 1 (np_cos d) ;;
  let alpha := gamma - PrimFloat.sqrt (gamma * gamma - 1) in
  let out := setitem_unchecked out 0%Z 0 in
  let out := setitem_unchecked out 1%Z (if (1 <? n)%Z then 0 else 0) in
  for_range 2 n
    (fun i out =>
       x <- getitem src i ;;
       y <- getitem src (i - 2)%Z ;;
       p1 <- getitem out (i - 1)%Z ;;
       p2 <- getitem out (i - 2)%Z ;;
       setitem out i
         (0.5 * (1 - alpha) * (x - y) + beta * (1 + alpha) * p1 - alpha * p2))
    out.

(** [cycles[:, c] = col]: the column must have the length of the axis *)
Definition set_column (cycles : list (list float)) (c : Z) (col : list float)
  : result (list (list float)) :=
  old <- getitem cycles c ;;
  if Nat.eqb (length col) (length old)
  then setitem cycles c col
  else Raise (ValueError [Lit "cannot assign slice from input of different size"]).

(** Compute all cycle bandpass filters and composite.  The 2-D array
    [cycles], of shape [(n, n_cycles)], is kept as the list of its columns. *)
Definition spectral_analysis_1d_nb (src periods : list float)
    (composite_mask : list bool) (bandwidth : float) (method window_size : Z)
    (scale_factor : float) : result (list (list float) * list float) :=
  let n := len src in
  let n_cycles := len periods in
  let cycles := repeat (MaLibraryNb.np_empty (length src)) (length periods) in
  cycles <-
    for_range 0 n_cycles
      (fun c cycles =>
         p <- getitem periods c ;;
         col <- (if (method =? 0)%Z
                 then bandpass_1d_nb src p bandwidth
                 else goertzel_1d_nb (float64_ops np_sin np_cos np_pi)
                        src window_size p scale_factor) ;;
         set_column cycles c col)
      cycles ;;
  composite <-
    for_range 0 n_cycles
      (fun c composite =>
         m <- getitem composite_mask c ;;
         if m : bool then
           for_range 0 n
             (fun i composite =>
                a <- getitem composite i ;;
                col <- getitem cycles c ;;
                v <- getitem col i ;;
                setitem composite i (a + v))
             composite
         else Ok composite)
      (repeat 0 (length src)) ;;
  Ok (cycles, composite).

End Float64.

End SpectralNb.

(** ** [src/controllers/sniper_controller.py], [base_vbt_controller.py] *)

Module SniperController.

(** The two kinds of Python object the name-resolution loop compares. *)
Inductive pyobj : Type :=
| PyInt (z : Z)
| PyStr (s : string).

(** [a == b]: an [int] and a [str] never compare equal. *)
Definition py_eq (a b : pyobj) : bool :=
  match a, b with
  | PyInt x, PyInt y => x =? y
  | PyStr s, PyStr t => String.eqb s t
  | _, _ => false
  end.

Record SniperControllerConfig : Type := {
  length : Z;
  ma_type : string;
  overbought_oversold : float;
  trail_threshold : float;
  dmi_len : Z;
  adx_threshold : float
}.

(** The keyword arguments [compute_signal] passes to [SniperProX.run]. *)
Record SniperParams : Type := {
  run_length : Z;
  run_ma_type : pyobj;
  run_overbought_oversold : float;
  run_trail_threshold : float;
  run_dmi_len : Z;
  run_adx_thresh : float
}.

(** The two output series of [SniperProX.run] that the controller reads. *)
Record SniperResult : Type := {
  major_buy : list float;
  major_sell : list float
}.

(** An OHLCV [DataFrame]: its columns by name. *)
Definition DataFrame : Type := dict (list float).

(** [df[lower].values if lower in df.columns else df[upper].values] *)
Definition ohlcv_column (df : DataFrame) (lower upper : string)
  : result (list float) :=
  let key := if dict_mem df lower then lower else upper in
  match dict_get df key with
  | Some col => Ok col
  | None => Raise (KeyError key)
  end.

(** [df.empty] *)
Definition df_empty (df : DataFrame) : bool :=
  match df with
  | [] => true
  | (_, col) :: _ => Nat.eqb (List.length col) 0
  end.

(** The loop [for idx, name in MA_TYPE_NAMES.items(): if name == cfg.ma_type:
    ma_type_idx = idx; break].  [items()] yields (key, value) pairs, so [idx]
    is bound to the string key and [name] to the integer code. *)
Fixpoint resolve_loop (items : list (string * Z)) (cfg_ma_type : string)
    (ma_type_idx : pyobj) : pyobj :=
  match items with
  | [] => ma_type_idx
  | (idx, name) :: rest =>
      if py_eq (PyInt name) (PyStr cfg_ma_type) then PyStr idx
      else resolve_loop rest cfg_ma_type ma_type_idx
  end.

Definition resolve_ma_type_idx (cfg_ma_type : string) : pyobj :=
  resolve_loop MaLibraryNb.MA_TYPE_NAMES cfg_ma_type (PyInt 0).

(** [len(arr) > 0 and not np.isnan(arr[-1])] *)
Definition latest_defined (arr : list float) : result bool :=
  if 0 <? len arr
  then x <- getitem arr (-1) ;; Ok (negb (PrimFloat.is_nan x))
  else Ok false.

Section Controller.

(** [SniperProX.run]: the indicator pipeline, built by VectorBT's
    [IndicatorFactory]; the controller only reads two of its outputs. *)
Variable SniperProX_run :
  list float -> list float -> list float -> list float -> SniperParams ->
  result SniperResult.

Definition compute_signal (cfg : SniperControllerConfig) (df : DataFrame)
  : result Z :=
  close <- ohlcv_column df "close" "Close" ;;
  high <- ohlcv_column df "high" "High" ;;
  low <- ohlcv_column df "low" "Low" ;;
  volume <- ohlcv_column df "volume" "Volume" ;;
  (* Resolve MA type name to integer code *)
  let ma_type_idx := resolve_ma_type_idx (ma_type cfg) in
  res <- SniperProX_run close high low volume
           {| run_length := length cfg;
              run_ma_type := ma_type_idx;
              run_overbought_oversold := overbought_oversold cfg;
              run_trail_threshold := trail_threshold cfg;
              run_dmi_len := dmi_len cfg;
              run_adx_thresh := adx_threshold cfg |} ;;
  buy <- latest_defined (major_buy res) ;;
  if buy then Ok 1
  else
    sell <- latest_defined (major_sell res) ;;
    if sell then Ok (-1) else Ok 0.

(** [BaseVBTController.update_processed_data], on the frame obtained from the
    market-data provider: the new value of [_current_signal]. *)
Definition update_processed_data (cfg : SniperControllerConfig)
    (_current_signal : Z) (df : DataFrame) : Z :=
  if negb (df_empty df)
  then match compute_signal cfg df with
       | Ok s => s
       | Raise _ => 0
       end
  else _current_signal.

End Controller.

End SniperController.

(** ** [src/indicators/sniper.py], [src/indicators/vzo.py], [src/indicators/ma_library.py]:
       the resolution of an MA type *)

Module Sniper.

(** [_resolve_ma], which [vzo.py] repeats word for word: a name is looked
    up in [MA_TYPE_NAMES], an unknown name gives [MA_JURIK], an integer is
    taken as the code. *)
Definition _resolve_ma (ma_type : SniperController.pyobj) : Z :=
  match ma_type with
  | SniperController.PyStr s =>
      match dict_get MaLibraryNb.MA_TYPE_NAMES s with
      | Some code => code
      | None => MaLibraryNb.MA_JURIK
      end
  | SniperController.PyInt z => z
  end.

End Sniper.

Module MaLibrary.

Definition _ma_type_map : dict Z := MaLibraryNb.MA_TYPE_NAMES.

(** Convert string MA type name to integer code.  The message of the
    [ValueError] goes on with the list of the valid names, which is not
    rendered here. *)
Definition _resolve_ma_type (ma_type : SniperController.pyobj) : result Z :=
  match ma_type with
  | SniperController.PyInt z => Ok z
  | SniperController.PyStr s =>
      if dict_mem _ma_type_map s
      then match dict_get _ma_type_map s with
           | Some code => Ok code
           | None => Raise (KeyError s)
           end
      else Raise (ValueError [Lit "Unknown MA type: "; Lit s])
  end.

End MaLibrary.

(** ** [src/indicators/nb/sniper_nb.py] *)

Module SniperNb.

Local Open Scope float_scope.

(** Stochastic %K. *)
Definition _stoch_1d (close high low : list float) (length : Z) : result (list float) :=
  let n := len close in
  let out := MaLibraryNb.np_empty (List.length close) in
  for_range 0 n
    (fun i out =>
       hh <- getitem high i ;;
       ll <- getitem low i ;;
       '(hh, ll) <-
         nb_range 1 (Z.min (i + 1) length)
           (fun j '(hh, ll) =>
              h <- getitem high (i - j)%Z ;;
              hh <- (if hh <? h then getitem high (i - j)%Z else Ok hh) ;;
              l <- getitem low (i - j)%Z ;;
              ll <- (if l <? ll then getitem low (i - j)%Z else Ok ll) ;;
              Ok (hh, ll))
           (hh, ll) ;;
       let rng := hh - ll in
       q <- (if negb (rng =? 0)
             then c <- getitem close i ;; fdiv (100 * (c - ll)) rng
             else Ok 50) ;;
       setitem out i q)
    out.

End SniperNb.

(** ** [src/controllers/vzo_controller.py] *)

Module VzoController.

Record VZOControllerConfig : Type := {
  vzo_length : Z;
  ma_type : string;
  noise_length : Z;
  minor_sell_val : float;
  minor_buy_val : float;
  minor_major_range : float;
  zero_cross_filter_range : float
}.

(** The keyword arguments [compute_signal] passes to [VZOProX.run]. *)
Record VZOParams : Type := {
  run_vzo_length : Z;
  run_ma_type : string;
  run_noise_length : Z;
  run_minor_sell_val : float;
  run_minor_buy_val : float;
  run_minor_major_range : float;
  run_zero_cross_filter_range : float
}.

(** The two output series of [VZOProX.run] that the controller reads. *)
Record VZOResult : Type := {
  major_buy : list float;
  major_sell : list float
}.

Section Controller.

Variable VZOProX_run : list float -> list float -> VZOParams -> result VZOResult.

Definition compute_signal (cfg : VZOControllerConfig) (df : SniperController.DataFrame)
  : result Z :=
  close <- SniperController.ohlcv_column df "close" "Close" ;;
  volume <- SniperController.ohlcv_column df "volume" "Volume" ;;
  res <- VZOProX_run close volume
           {| run_vzo_length := vzo_length cfg;
              run_ma_type := ma_type cfg;
              run_noise_length := noise_length cfg;
              run_minor_sell_val := minor_sell_val cfg;
              run_minor_buy_val := minor_buy_val cfg;
              run_minor_major_range := minor_major_range cfg;
              run_zero_cross_filter_range := zero_cross_filter_range cfg |} ;;
  buy <- SniperController.latest_defined (major_buy res) ;;
  if buy then Ok 1
  else
    sell <- SniperController.latest_defined (major_sell res) ;;
    if sell then Ok (-1) else Ok 0.

End Controller.

End VzoController.

(** ** [src/controllers/cycle_controller.py] *)

Module CycleController.

Record CycleControllerConfig : Type := {
  method : Z;     (* 0 = Hurst, 1 = Goertzel *)
  bandwidth : float;
  window_size : Z;
  scale_factor : float;
  composite_threshold : float
}.

(** The keyword arguments [compute_signal] passes to [SpectralAnalysis.run]. *)
Record SpectralParams : Type := {
  run_method : Z;
  run_bandwidth : float;
  run_window_size : Z;
  run_scale_factor : float
}.

(** [df[key].values] *)
Definition column_values (df : SniperController.DataFrame) (key : string)
  : result (list float) :=
  match dict_get df key with
  | Some col => Ok col
  | None => Raise (KeyError key)
  end.

Section Controller.

(** [SpectralAnalysis.run(...).composite.values] *)
Variable SpectralAnalysis_run : list float -> SpectralParams -> result (list float).

Definition compute_signal (cfg : CycleControllerConfig) (df : SniperController.DataFrame)
  : result Z :=
  (* SpectralAnalysis expects a single "source" series (typically hl2) *)
  close <- (if dict_mem df "close" then column_values df "close"
            else column_values df "Close") ;;
  source <-
    (if dict_mem df "high" && dict_mem df "low" then
       high <- column_values df "high" ;;
       low <- column_values df "low" ;;
       s <- np_add high low ;;
       Ok (map (fun x => PrimFloat.div x 2) s)
     else if dict_mem df "High" && dict_mem df "Low" then
       high <- column_values df "High" ;;
       low <- column_values df "Low" ;;
       s <- np_add high low ;;
       Ok (map (fun x => PrimFloat.div x 2) s)
     else Ok close) ;;
  composite <- SpectralAnalysis_run source
                 {| run_method := method cfg;
                    run_bandwidth := bandwidth cfg;
                    run_window_size := window_size cfg;
                    run_scale_factor := scale_factor cfg |} ;;
  neutral <- (if len composite =? 0 then Ok true
              else x <- getitem composite (-1) ;; Ok (PrimFloat.is_nan x)) ;;
  if neutral : bool then Ok 0
  else
    latest <- getitem composite (-1) ;;
    if PrimFloat.ltb (composite_threshold cfg) latest then Ok 1
    else if PrimFloat.ltb latest (composite_threshold cfg) then Ok (-1)
    else Ok 0.

End Controller.

End CycleController.

(** ** [src/indicators/signals.py] *)

Module Signals.

Section GenerateSignals.

(** [SniperProX.run] and [VZOProX.run] with the keyword arguments
    [generate_signals] gives them. *)
Variable SniperProX_run :
  list float -> list float -> list float -> list float ->
  Z -> string -> float -> result SniperController.SniperResult.
Variable VZOProX_run :
  list float -> list float -> Z -> string -> float -> float ->
  result VzoController.VZOResult.

(** Generate entry/exit boolean arrays from SniperProX and VZO (the case of
    NumPy arrays; on a [pd.Series] the same values are wrapped back into
    Series). *)
Definition generate_signals (close high low volume : list float)
    (sniper_length : Z) (sniper_ma_type : string) (sniper_ob_os : float)
    (vzo_length : Z) (vzo_ma_type : string) (vzo_minor_buy vzo_minor_sell : float)
    (use_sniper use_vzo : bool) (combine_mode : string)
  : result (list bool * list bool) :=
  let n := length close in
  let sniper_entries := repeat false n in
  let sniper_exits := repeat false n in
  let vzo_entries := repeat false n in
  let vzo_exits := repeat false n in
  '(sniper_entries, sniper_exits) <-
    (if use_sniper then
       sniper <- SniperProX_run close high low volume
                   sniper_length sniper_ma_type sniper_ob_os ;;
       Ok (np_notnan (SniperController.major_buy sniper),
           np_notnan (SniperController.major_sell sniper))
     else Ok (sniper_entries, sniper_exits)) ;;
  '(vzo_entries, vzo_exits) <-
    (if use_vzo then
       vzo <- VZOProX_run close volume
                vzo_length vzo_ma_type vzo_minor_buy vzo_minor_sell ;;
       Ok (np_notnan (VzoController.major_buy vzo),
           np_notnan (VzoController.major_sell vzo))
     else Ok (vzo_entries, vzo_exits)) ;;
  if String.eqb combine_mode "and" then
    if use_sniper && use_vzo then
      entries <- np_bitand sniper_entries vzo_entries ;;
      exits <- np_bitor sniper_exits vzo_exits ;;
      Ok (entries, exits)
    else if use_sniper then Ok (sniper_entries, sniper_exits)
    else Ok (vzo_entries, vzo_exits)
  else
    entries <- np_bitor sniper_entries vzo_entries ;;
    exits <- np_bitor sniper_exits vzo_exits ;;
    Ok (entries, exits).

End GenerateSignals.

End Signals.

(** ** Vocabulary of the properties

    The predicates and spec-side functions the theorems of Part II are
    stated with, and the concrete configurations their examples run on. *)

Import SignalCombiner.
Import MaLibraryNb.

(** every array of the mapping has length [n] *)
Definition equal_length (signals : dict ndarray) (n : nat) : Prop :=
  Forall (fun kv => length (snd kv) = n) signals.

(** What a reduction over [axis=0] sees of bar [j]: the value of every input
    array at that bar. *)
Definition bar_all (signals : dict ndarray) (j : nat) (v : Z) : Prop :=
  forall nm arr, In (nm, arr) signals -> nth j arr 0 = v.

(** some input array holds [v] at bar [j] *)
Definition bar_some (signals : dict ndarray) (j : nat) (v : Z) : Prop :=
  exists nm arr, In (nm, arr) signals /\ nth j arr 0 = v.

(** the number of selected positions of a mask *)
Definition count_true (mask : list bool) : nat :=
  length (filter (fun x => x) mask).

(** the number of selected positions before position [j] *)
Definition rank (mask : list bool) (j : nat) : nat :=
  count_true (firstn j mask).

(** the sum of all inputs at bar [j] *)
Definition bar_sum (signals : dict ndarray) (j : nat) : Z :=
  np_sum (map (fun kv => nth j (snd kv) 0) signals).

(** a signal value: short, neutral or long *)
Definition is_signal (x : Z) : Prop := x = -1 \/ x = 0 \/ x = 1.

(** every array of the mapping is a signal array, over [{-1,0,1}] *)
Definition signal_arrays (signals : dict ndarray) : Prop :=
  Forall (fun kv => Forall is_signal (snd kv)) signals.

(** the dict [{name: len(arr)}] that the length check builds and reports *)
Definition lengths_of (signals : dict ndarray) : list (string * nat) :=
  map (fun kv => (fst kv, length (snd kv))) signals.

(** the designated primary: the first config entry with [role == "primary"] *)
Definition primary_config (cfg : SignalCombinerConfig) : option IndicatorSignalConfig :=
  find (fun c => String.eqb (role c) "primary") (indicators cfg).

(** [arr] is the array of a secondary indicator present in the mapping *)
Definition secondary_array (cfg : SignalCombinerConfig) (signals : dict ndarray)
    (arr : ndarray) : Prop :=
  exists c, In c (indicators cfg) /\ role c = "secondary" /\
            dict_get signals (name c) = Some arr.

(** some secondary equals [direction] at a bar of the inclusive window
    [[i - confirm_window, i + confirm_window]], clipped to the [n] bars *)
Definition confirmed (cfg : SignalCombinerConfig) (signals : dict ndarray)
    (n i : nat) (direction : Z) : Prop :=
  exists arr k,
    secondary_array cfg signals arr /\
    Z.of_nat i - confirm_window cfg <= Z.of_nat k <= Z.of_nat i + confirm_window cfg /\
    (k < n)%nat /\ nth k arr 0 = direction.

(** the same configuration run in another mode *)
Definition with_mode (m : CombineMode) (cfg : SignalCombinerConfig) : SignalCombinerConfig :=
  {| mode := m; indicators := indicators cfg;
     weighted_threshold := weighted_threshold cfg;
     confirm_window := confirm_window cfg |}.

(** [sec_arrays]: the arrays of the secondary indicators found in the
    mapping, in configuration order *)
Definition secondary_arrays (cfg : SignalCombinerConfig) (signals : dict ndarray)
  : list ndarray :=
  flat_map (fun nm => match dict_get signals nm with
                      | Some arr => [arr]
                      | None => []
                      end)
           (map name (filter (fun c => String.eqb (role c) "secondary") (indicators cfg))).

(** The confirmation loop, as a function of the bar. *)
Definition confirm_bar (primary : ndarray) (sec : list ndarray) (w : Z) (k : nat) : Z :=
  let n := len primary in
  let direction := nth k primary 0 in
  if direction =? 0 then 0
  else if existsb (existsb (fun x => x =? direction))
                  (map (fun r => py_slice r (Z.max 0 (Z.of_nat k - w))
                                            (Z.min n (Z.of_nat k + w + 1))) sec)
       then direction
       else 0.

(** a two-indicator CONFIRM configuration: primary ["p"], secondary ["s"] *)
Definition confirm_config (w : Z) : SignalCombinerConfig :=
  {| mode := CONFIRM;
     indicators :=
       [ {| name := "p"; weight := 1%float; role := "primary"; signal_source := "major" |};
         {| name := "s"; weight := 1%float; role := "secondary"; signal_source := "major" |} ];
     weighted_threshold := 0.5%float;
     confirm_window := w |}.

(** the two shapes of a rounded non-zero value of sign [sx] *)
Definition finite_or_infinite (sx : bool) (x : spec_float) : Prop :=
  (exists m e, x = S754_finite sx m e /\ SpecFloat.emin prec emax <= e) \/
  x = S754_infinity sx.



(** the value of a series at the latest bar, if the series has a bar *)
Definition latest (arr : list float) : option float := hd_error (rev arr).

(** the latest bar holds a non-missing (non-NaN) value *)
Definition non_missing (arr : list float) : bool :=
  match latest arr with
  | Some x => negb (PrimFloat.is_nan x)
  | None => false
  end.

(** the derivation rule: buy is checked before sell *)
Definition derived_signal (major_buy major_sell : list float) : Z :=
  if non_missing major_buy then 1
  else if non_missing major_sell then -1
  else 0.

(** the columns and keyword arguments [compute_signal] hands to the
    indicator, and what the indicator returns on them *)
Definition indicator_outputs
    (run : list float -> list float -> list float -> list float ->
           SniperController.SniperParams -> result SniperController.SniperResult)
    (cfg : SniperController.SniperControllerConfig)
    (df : SniperController.DataFrame) : result SniperController.SniperResult :=
  close <- SniperController.ohlcv_column df "close" "Close" ;;
  high <- SniperController.ohlcv_column df "high" "High" ;;
  low <- SniperController.ohlcv_column df "low" "Low" ;;
  volume <- SniperController.ohlcv_column df "volume" "Volume" ;;
  run close high low volume
    {| SniperController.run_length := SniperController.length cfg;
       SniperController.run_ma_type :=
         SniperController.resolve_ma_type_idx (SniperController.ma_type cfg);
       SniperController.run_overbought_oversold := SniperController.overbought_oversold cfg;
       SniperController.run_trail_threshold := SniperController.trail_threshold cfg;
       SniperController.run_dmi_len := SniperController.dmi_len cfg;
       SniperController.run_adx_thresh := SniperController.adx_threshold cfg |}.

(** two configurations that differ at most in the configured [ma_type] name *)
Definition same_but_ma_type (c1 c2 : SniperController.SniperControllerConfig) : Prop :=
  SniperController.length c1 = SniperController.length c2 /\
  SniperController.overbought_oversold c1 = SniperController.overbought_oversold c2 /\
  SniperController.trail_threshold c1 = SniperController.trail_threshold c2 /\
  SniperController.dmi_len c1 = SniperController.dmi_len c2 /\
  SniperController.adx_threshold c1 = SniperController.adx_threshold c2.

(** a stand-in pipeline that reads its [ma_type] argument: it reports a buy
    at every bar when handed code 0 and nothing otherwise *)
Definition probe_pipeline (close high low volume : list float)
    (p : SniperController.SniperParams) : result SniperController.SniperResult :=
  match SniperController.run_ma_type p with
  | SniperController.PyInt 0 =>
      Ok {| SniperController.major_buy := close;
            SniperController.major_sell := map (fun _ => nan) close |}
  | _ =>
      Ok {| SniperController.major_buy := map (fun _ => nan) close;
            SniperController.major_sell := map (fun _ => nan) close |}
  end.

(** the default Sniper configuration with a chosen [ma_type] name *)
Definition sniper_config (ma_type : string) : SniperController.SniperControllerConfig :=
  {| SniperController.length := 28;
     SniperController.ma_type := ma_type;
     SniperController.overbought_oversold := 0x1.62d0e56041893p+0%float; (* 1.386 *)
     SniperController.trail_threshold := 0x1.f8d4fdf3b645ap-1%float;     (* 0.986 *)
     SniperController.dmi_len := 14;
     SniperController.adx_threshold := 20%float |}.

(** a two-bar OHLCV frame *)
Definition sample_frame : SniperController.DataFrame :=
  [ ("open", [1; 2]%float); ("high", [2; 3]%float); ("low", [1; 1]%float);
    ("close", [2; 2]%float); ("volume", [10; 20]%float) ].

(** the weight WEIGHTED mode gives an indicator name: that of the last
    configuration entry with the name, and 1.0 when there is none *)
Definition indicator_weight (cfg : SignalCombinerConfig) (nm : string) : float :=
  match find (fun c => String.eqb (name c) nm) (rev (indicators cfg)) with
  | Some c => weight c
  | None => 1%float
  end.

(** the weighted sum of one bar and the total weight, both accumulated from
    0.0 in the order of the mapping *)
Definition weighted_sum_bar (cfg : SignalCombinerConfig) (signals : dict ndarray)
    (j : nat) : float :=
  fold_left
    (fun acc kv =>
       PrimFloat.add acc
         (PrimFloat.mul (Z2f (nth j (snd kv) 0)) (indicator_weight cfg (fst kv))))
    signals 0%float.

Definition total_weight (cfg : SignalCombinerConfig) (signals : dict ndarray) : float :=
  fold_left (fun acc kv => PrimFloat.add acc (indicator_weight cfg (fst kv)))
            signals 0%float.

(** the normalized score of a bar: the weighted sum over the total weight
    when the total weight is positive *)
Definition weighted_score (cfg : SignalCombinerConfig) (signals : dict ndarray)
    (j : nat) : float :=
  if PrimFloat.ltb 0%float (total_weight cfg signals)
  then PrimFloat.div (weighted_sum_bar cfg signals j) (total_weight cfg signals)
  else weighted_sum_bar cfg signals j.

(** one step of the loop that fills [weight_map] *)
Definition weight_map_step (wm : dict float) (c : IndicatorSignalConfig) : dict float :=
  if dict_mem wm (name c)
  then map (fun '(k, v) => if String.eqb k (name c) then (k, weight c) else (k, v)) wm
  else (wm ++ [(name c, weight c)])%list.

(** the markers a signal source reads *)
Definition buy_markers (r : IndicatorResult) (signal_source : string) : list float :=
  if String.eqb signal_source "major" then major_buy r else minor_buy r.

Definition sell_markers (r : IndicatorResult) (signal_source : string) : list float :=
  if String.eqb signal_source "major" then major_sell r else minor_sell r.

(** an indicator result with three bars: a buy marker at bar 0, both
    markers at bar 1, a sell marker at bar 2 *)
Definition marker_result : IndicatorResult :=
  {| major_buy := [1; 2; nan]%float; major_sell := [nan; 3; 4]%float;
     minor_buy := []; minor_sell := []; composite := [] |}.

(** the running sum of the first [k] samples, accumulated from 0.0 *)
Definition prefix_sum (src : list float) (k : nat) : float :=
  fold_left PrimFloat.add (firstn k src) 0%float.

(** the highest and the lowest of a sample and the older samples of its
    window, scanned from the newest to the oldest; a NaN never replaces an
    extreme *)
Definition running_extremes (newest : float) (older : list float) : float * float :=
  fold_left
    (fun '(hi, lo) v =>
       (if PrimFloat.ltb hi v then v else hi, if PrimFloat.ltb v lo then v else lo))
    older (newest, newest).

(** the older samples of the window of bar [i], newest first: the window
    holds [min(i+1, window)] samples, and only [src[i]] when [window <= 1] *)
Definition donchian_older (src : list float) (window : Z) (i : nat) : list float :=
  let count := Z.to_nat (Z.min (Z.of_nat i + 1) window - 1) in
  rev (firstn count (skipn (i - count) src)).

Definition donchian_bar (src : list float) (window : Z) (i : nat) : float :=
  let '(hi, lo) := running_extremes (nth i src 0%float) (donchian_older src window i) in
  PrimFloat.div (PrimFloat.add hi lo) 2.

(** the (price, volume) pairs of the [window] bars up to bar [i], newest
    first *)
Definition vwma_window (src volume : list float) (window : Z) (i : nat)
  : list (float * float) :=
  rev (firstn (Z.to_nat window) (skipn (i + 1 - Z.to_nat window) (List.combine src volume))).

Definition vwma_bar (src volume : list float) (window : Z) (i : nat) : float :=
  if Z.of_nat i <? window - 1 then nan
  else
    let w := vwma_window src volume window i in
    let sv := fold_left (fun acc '(x, v) => PrimFloat.add acc (PrimFloat.mul x v)) w 0%float in
    let tv := fold_left (fun acc '(x, v) => PrimFloat.add acc v) w 0%float in
    if PrimFloat.eqb tv 0 then nth i src 0%float else PrimFloat.div sv tv.

(** the two sums of the regression at bar [i] over [length] samples, taken
    from the newest sample back: the sample [j] bars back is weighted by [j] *)
Definition ilrs_sums (src : list float) (i length : nat) : float * float :=
  fold_left
    (fun '(sum1, sumy) j =>
       (sum1 + Z2f (Z.of_nat j) * nth (i - j) src 0, sumy + nth (i - j) src 0)%float)
    (seq 0 length) (0%float, 0%float).

(** the regression slope at bar [i] over the [min(i+1, window)] samples of
    its window.  The integer sums [0 + ... + (l-1)] and
    [0^2 + ... + (l-1)^2] enter in closed form, as 64-bit products; the slope
    is 0.0 where the denominator vanishes. *)
Definition ilrs_slope (src : list float) (window : Z) (i : nat) : float :=
  let length := Z.min (Z.of_nat i + 1) window in
  let '(sum1, sumy) := ilrs_sums src i (Z.to_nat length) in
  let si := (Z2f (wrap64 (length * (length - 1))) * 0.5)%float in
  let s2 := (Z2f (wrap64 ((length - 1) * length * (2 * length - 1))) / 6)%float in
  let num1 := (Z2f length * sum1 - si * sumy)%float in
  let num2 := (si * si - Z2f length * s2)%float in
  if PrimFloat.eqb num2 0 then 0%float else (num1 / num2)%float.

(** bar [i] of ILRS, given the SMA of the series: the sample itself where the
    window has fewer than two samples, otherwise the slope added to the SMA,
    or to the sample where the SMA is NaN *)
Definition ilrs_bar (src sma_vals : list float) (window : Z) (i : nat) : float :=
  if Z.min (Z.of_nat i + 1) window <? 2 then nth i src 0%float
  else (ilrs_slope src window i + _nz (nth i sma_vals 0) (nth i src 0))%float.

(** the two angles of the filter, as the kernel computes them *)
Definition bandpass_beta_angle (np_pi period : float) : float :=
  PrimFloat.div (PrimFloat.mul np_pi (PrimFloat.div 360 period)) 180.

Definition bandpass_gamma_angle (np_pi period bandwidth : float) : float :=
  PrimFloat.div
    (PrimFloat.mul np_pi (PrimFloat.div (PrimFloat.mul 720 bandwidth) period)) 180.

(** a stand-in for [np.cos] on which the filter coefficients are defined *)
Definition half_cos (x : float) : float := 0.5%float.

(** the older (high, low) bars of the window of bar [i], newest first *)
Definition stoch_older (high low : list float) (length : Z) (i : nat)
  : list (float * float) :=
  let count := Z.to_nat (Z.min (Z.of_nat i + 1) length - 1) in
  rev (firstn count (skipn (i - count) (List.combine high low))).

(** the highest high and the lowest low of the window of bar [i] *)
Definition stoch_extremes (high low : list float) (length : Z) (i : nat) : float * float :=
  fold_left
    (fun '(hh, ll) '(h, l) =>
       (if PrimFloat.ltb hh h then h else hh, if PrimFloat.ltb l ll then l else ll))
    (stoch_older high low length i) (nth i high 0%float, nth i low 0%float).

Definition stoch_bar (close high low : list float) (length : Z) (i : nat) : float :=
  let '(hh, ll) := stoch_extremes high low length i in
  let rng := PrimFloat.sub hh ll in
  if PrimFloat.eqb rng 0 then 50%float
  else PrimFloat.div (PrimFloat.mul 100 (PrimFloat.sub (nth i close 0%float) ll)) rng.

(** the columns and keyword arguments the VZO controller hands to the
    indicator, and what the indicator returns on them; the configured
    [ma_type] name is passed as it is *)
Definition vzo_outputs
    (run : list float -> list float -> VzoController.VZOParams ->
           result VzoController.VZOResult)
    (cfg : VzoController.VZOControllerConfig)
    (df : SniperController.DataFrame) : result VzoController.VZOResult :=
  close <- SniperController.ohlcv_column df "close" "Close" ;;
  volume <- SniperController.ohlcv_column df "volume" "Volume" ;;
  run close volume
    {| VzoController.run_vzo_length := VzoController.vzo_length cfg;
       VzoController.run_ma_type := VzoController.ma_type cfg;
       VzoController.run_noise_length := VzoController.noise_length cfg;
       VzoController.run_minor_sell_val := VzoController.minor_sell_val cfg;
       VzoController.run_minor_buy_val := VzoController.minor_buy_val cfg;
       VzoController.run_minor_major_range := VzoController.minor_major_range cfg;
       VzoController.run_zero_cross_filter_range :=
         VzoController.zero_cross_filter_range cfg |}.

(** the signal the Cycle controller derives from a composite series *)
Definition threshold_signal (threshold : float) (composite : list float) : Z :=
  match latest composite with
  | None => 0
  | Some x =>
      if PrimFloat.is_nan x then 0
      else if PrimFloat.ltb threshold x then 1
      else if PrimFloat.ltb x threshold then -1
      else 0
  end.

(** the keyword arguments the Cycle controller passes *)
Definition cycle_params (cfg : CycleController.CycleControllerConfig)
  : CycleController.SpectralParams :=
  {| CycleController.run_method := CycleController.method cfg;
     CycleController.run_bandwidth := CycleController.bandwidth cfg;
     CycleController.run_window_size := CycleController.window_size cfg;
     CycleController.run_scale_factor := CycleController.scale_factor cfg |}.

(** [hl2]: the mean of high and low, bar by bar *)
Definition hl2 (high low : list float) : list float :=
  map (fun '(h, l) => PrimFloat.div (PrimFloat.add h l) 2) (List.combine high low).

(** a stand-in spectral indicator: the composite is the source itself *)
Definition echo_spectral (source : list float) (p : CycleController.SpectralParams)
  : result (list float) := Ok source.

(** the default Cycle configuration with a chosen threshold *)
Definition cycle_config (threshold : float) : CycleController.CycleControllerConfig :=
  {| CycleController.method := 0;
     CycleController.bandwidth := 0x1.999999999999ap-6%float;   (* 0.025 *)
     CycleController.window_size := 618;
     CycleController.scale_factor := 100000%float;
     CycleController.composite_threshold := threshold |}.

(** the four columns the Sniper controller reads, lower-case and capitalised *)
Definition sniper_columns : list (string * string) :=
  [("close", "Close"); ("high", "High"); ("low", "Low"); ("volume", "Volume")].

(** the indicator result of the combiner that carries the major markers of
    a Sniper result *)
Definition major_markers (res : SniperController.SniperResult) : IndicatorResult :=
  {| major_buy := SniperController.major_buy res;
     major_sell := SniperController.major_sell res;
     minor_buy := []; minor_sell := []; composite := [] |}.

(** stand-in indicators: a major buy wherever the close is above 1 (Sniper)
    or above 2 (VZO), a major sell at every bar (Sniper) or never (VZO) *)
Definition sniper_stub (close high low volume : list float)
    (length : Z) (ma_type : string) (ob_os : float)
  : result SniperController.SniperResult :=
  Ok {| SniperController.major_buy :=
          map (fun c => if PrimFloat.ltb 1 c then c else nan) close;
        SniperController.major_sell := close |}.

Definition vzo_stub (close volume : list float)
    (length : Z) (ma_type : string) (minor_buy minor_sell : float)
  : result VzoController.VZOResult :=
  Ok {| VzoController.major_buy :=
          map (fun c => if PrimFloat.ltb 2 c then c else nan) close;
        VzoController.major_sell := map (fun _ => nan) close |}.

(** the column of one period: the Hurst bandpass for method 0, the Goertzel
    trace for every other method *)
Definition cycle_kernel (np_sin np_cos : float -> float) (np_pi : float)
    (src : list float) (bandwidth : float) (method window_size : Z)
    (scale_factor p : float) : result (list float) :=
  if (method =? 0)%Z
  then SpectralNb.bandpass_1d_nb np_cos np_pi src p bandwidth
  else SpectralNb.goertzel_1d_nb (SpectralNb.float64_ops np_sin np_cos np_pi)
         src window_size p scale_factor.

(** bar [i] of the composite: the columns whose mask entry is true, added in
    column order starting from 0.0 *)
Definition composite_bar (composite_mask : list bool) (cols : list (list float))
    (i : nat) : float :=
  fold_left
    (fun acc mc => if fst mc : bool then PrimFloat.add acc (nth i (snd mc) 0%float) else acc)
    (List.combine composite_mask cols) 0%float.

(* ===================================================================== *)
(** * Part II: properties                                                 *)
(* ===================================================================== *)

(** ** Runtime lemmas *)

Lemma bind_Ok_inv {A B : Type} (c : result A) (k : A -> result B) (b : B) :
  bind c k = Ok b -> exists a, c = Ok a /\ k a = Ok b.
Proof.
  destruct c as [a|e]; simpl; intro H; [exists a; auto | discriminate].
Qed.

Lemma norm_index_in_range {A : Type} (a : list A) (i : Z) :
  0 <= i < len a -> norm_index a i = Some (Z.to_nat i).
Proof.
  intros [H0 H1]. unfold norm_index.
  destruct (Z.ltb_spec i 0); [lia|].
  destruct (Z.leb_spec 0 i); [|lia].
  destruct (Z.ltb_spec i (len a)); [reflexivity|lia].
Qed.

Lemma getitem_in_range {A : Type} (d : A) (a : list A) (i : Z) :
  0 <= i < len a -> getitem a i = Ok (nth (Z.to_nat i) a d).
Proof.
  intros H. unfold getitem. rewrite (norm_index_in_range a i H).
  destruct (nth_error a (Z.to_nat i)) eqn:E.
  - erewrite nth_error_nth; eauto.
  - apply nth_error_None in E. unfold len in H. lia.
Qed.

Lemma setitem_in_range {A : Type} (a : list A) (i : Z) (x : A) :
  0 <= i < len a -> setitem a i x = Ok (list_set a (Z.to_nat i) x).
Proof.
  intros H. unfold setitem. now rewrite (norm_index_in_range a i H).
Qed.

Lemma list_set_length {A : Type} (a : list A) (j : nat) (x : A) :
  length (list_set a j x) = length a.
Proof.
  revert j; induction a as [|h t IH]; intros [|j]; simpl; auto.
Qed.

Lemma nth_list_set_eq {A : Type} (d : A) (a : list A) (j : nat) (x : A) :
  (j < length a)%nat -> nth j (list_set a j x) d = x.
Proof.
  revert j; induction a as [|h t IH]; intros [|j]; simpl; intros H;
    try lia; auto. apply IH. lia.
Qed.

Lemma nth_list_set_neq {A : Type} (d : A) (a : list A) (j k : nat) (x : A) :
  j <> k -> nth k (list_set a j x) d = nth k a d.
Proof.
  revert j k; induction a as [|h t IH]; intros [|j] [|k]; simpl; intros H;
    auto; try congruence.
Qed.

Lemma len_list_set {A : Type} (a : list A) (j : nat) (x : A) :
  len (list_set a j x) = len a.
Proof. unfold len. now rewrite list_set_length. Qed.

(** The total-correctness rule of the counted loop: an invariant that every
    iteration re-establishes without raising holds when the loop ends. *)
Lemma for_loop_invariant {S : Type} (P : Z -> S -> Prop)
    (body : Z -> S -> result S) (count : nat) (lo : Z) (s : S) :
  P lo s ->
  (forall i st, lo <= i < lo + Z.of_nat count -> P i st ->
                exists st', body i st = Ok st' /\ P (i + 1) st') ->
  exists s', for_loop count lo body s = Ok s' /\ P (lo + Z.of_nat count) s'.
Proof.
  revert lo s. induction count as [|c IH]; intros lo s H0 Hstep.
  - exists s. simpl. rewrite Z.add_0_r. auto.
  - destruct (Hstep lo s ltac:(lia) H0) as [s1 [E1 P1]].
    destruct (IH (lo + 1) s1 P1) as [s' [E' P']].
    + intros i st Hi. apply Hstep. lia.
    + exists s'. split.
      * simpl. rewrite E1. exact E'.
      * replace (lo + Z.of_nat (Datatypes.S c)) with (lo + 1 + Z.of_nat c) by lia.
        exact P'.
Qed.

Lemma for_range_invariant {S : Type} (P : Z -> S -> Prop)
    (body : Z -> S -> result S) (lo hi : Z) (s : S) :
  lo <= hi ->
  P lo s ->
  (forall i st, lo <= i < hi -> P i st ->
                exists st', body i st = Ok st' /\ P (i + 1) st') ->
  exists s', for_range lo hi body s = Ok s' /\ P hi s'.
Proof.
  intros Hle H0 Hstep. unfold for_range.
  destruct (for_loop_invariant P body (Z.to_nat (hi - lo)) lo s H0) as [s' [E H]].
  - intros i st Hi. apply Hstep. lia.
  - exists s'. split; [exact E|].
    replace hi with (lo + Z.of_nat (Z.to_nat (hi - lo))) at 1 by lia. exact H.
Qed.

(** A loop whose body raises at the first iteration it reaches, or that
    has no iteration, is characterised by unfolding. *)
Lemma for_range_empty {S : Type} (body : Z -> S -> result S) (lo hi : Z) (s : S) :
  hi <= lo -> for_range lo hi body s = Ok s.
Proof.
  intros H. unfold for_range. replace (Z.to_nat (hi - lo)) with O by lia.
  reflexivity.
Qed.

Lemma nth_map_seq {A : Type} (d : A) (f : nat -> A) (n j : nat) :
  (j < n)%nat -> nth j (map f (seq 0 n)) d = f j.
Proof.
  intros H. rewrite (nth_indep _ d (f 0%nat)) by (rewrite length_map, length_seq; lia).
  rewrite (map_nth f (seq 0 n) 0%nat j). now rewrite seq_nth.
Qed.

(** ** NumPy lemmas *)

Lemma np_stack_equal_length (arrays : list ndarray) (n : nat) :
  arrays <> [] -> Forall (fun a => length a = n) arrays ->
  np_stack arrays = Ok arrays /\ shape1 arrays = n.
Proof.
  intros Hne Hall. destruct arrays as [|a rest]; [congruence|].
  inversion Hall as [|? ? Ha Hrest]; subst. simpl. split; [|reflexivity].
  assert (E : forallb (fun b => Nat.eqb (length b) (length a)) rest = true).
  { apply forallb_forall. intros b Hb. rewrite Forall_forall in Hrest.
    apply Nat.eqb_eq. now apply Hrest. }
  now rewrite E.
Qed.

Lemma values_equal_length (signals : dict ndarray) (n : nat) :
  equal_length signals n -> Forall (fun a => length a = n) (values signals).
Proof.
  unfold equal_length, values. intros H. apply Forall_map.
  eapply Forall_impl; [|exact H]. auto.
Qed.

Lemma nodup_constant (l : list nat) (n : nat) :
  l <> [] -> Forall (fun x => x = n) l -> nodup Nat.eq_dec l = [n].
Proof.
  induction l as [|x l IH]; intros Hne Hall; [congruence|].
  inversion Hall as [|? ? Hx Hl]; subst. simpl.
  destruct l as [|y l'].
  - reflexivity.
  - destruct (in_dec Nat.eq_dec n (y :: l')) as [Hin|Hnin].
    + apply IH; [congruence|assumption].
    + exfalso. apply Hnin. inversion Hl; subst. now left.
Qed.

Lemma length_axis0 {A : Type} (d : A) (m : list (list A)) :
  length (axis0 d m) = shape1 m.
Proof. unfold axis0. now rewrite length_map, length_seq. Qed.

Lemma nth_axis0 {A : Type} (d : A) (m : list (list A)) (j : nat) :
  (j < shape1 m)%nat -> nth j (axis0 d m) [] = column d m j.
Proof. intros H. unfold axis0. now apply nth_map_seq. Qed.

Lemma shape1_mat_eq (m : list ndarray) (v : Z) :
  shape1 (mat_eq m v) = shape1 m.
Proof. destruct m; simpl; [reflexivity | now rewrite length_map]. Qed.

Lemma column_mat_eq (m : list ndarray) (v : Z) (j : nat) :
  Forall (fun r => (j < length r)%nat) m ->
  column false (mat_eq m v) j = map (fun r => nth j r 0 =? v) m.
Proof.
  intros H. unfold column, mat_eq. rewrite map_map.
  apply map_ext_in. intros r Hr. rewrite Forall_forall in H.
  rewrite (nth_indep _ false ((fun x => x =? v) 0)) by (rewrite length_map; auto).
  now rewrite (map_nth (fun x => x =? v)).
Qed.

Lemma nth_np_all_axis0 (m : list ndarray) (v : Z) (n j : nat) :
  Forall (fun r => length r = n) m -> shape1 m = n -> (j < n)%nat ->
  nth j (np_all_axis0 (mat_eq m v)) false = forallb (fun r => nth j r 0 =? v) m.
Proof.
  intros Hall Hs Hj. unfold np_all_axis0.
  rewrite (nth_indep _ false (forallb (fun x => x) [])) by
    (rewrite length_map, length_axis0, shape1_mat_eq; lia).
  rewrite (map_nth (forallb (fun x => x))).
  rewrite nth_axis0 by (rewrite shape1_mat_eq; lia).
  rewrite column_mat_eq.
  - clear. induction m as [|r m IH]; simpl; [reflexivity | now rewrite IH].
  - eapply Forall_impl; [|exact Hall]. simpl. intros; lia.
Qed.

Lemma length_np_all_axis0 (b : list (list bool)) :
  length (np_all_axis0 b) = shape1 b.
Proof. unfold np_all_axis0. now rewrite length_map, length_axis0. Qed.

Lemma length_np_where (c : list bool) (x : Z) (y : ndarray) :
  length c = length y -> length (np_where c x y) = length c.
Proof.
  revert y; induction c as [|b c IH]; intros [|v y]; simpl; intros H;
    try discriminate; auto.
Qed.

Lemma nth_np_where (c : list bool) (x : Z) (y : ndarray) (j : nat) :
  length c = length y -> (j < length c)%nat ->
  nth j (np_where c x y) 0 = if nth j c false then x else nth j y 0.
Proof.
  revert y j; induction c as [|b c IH]; intros [|v y] [|j]; simpl; intros H Hj;
    try discriminate; try lia; auto.
  apply IH; lia.
Qed.

Lemma nth_np_where_scalar (c : list bool) (x y : Z) (j : nat) :
  (j < length c)%nat ->
  nth j (np_where_scalar c x y) 0 = if nth j c false then x else y.
Proof.
  unfold np_where_scalar. revert j.
  induction c as [|b c IH]; intros [|j]; simpl; intros H; try lia; auto.
  apply IH. lia.
Qed.

(** ** The signal combiner *)

(** After the two validation steps, [combine] is the dispatch on the mode. *)
Lemma combine_validated (cfg : SignalCombinerConfig) (signals : dict ndarray) (n : nat) :
  signals <> [] -> equal_length signals n ->
  combine cfg signals =
    match mode cfg with
    | AND => _combine_and signals
    | OR => _combine_or signals
    | WEIGHTED => _combine_weighted cfg signals
    | CONFIRM => _combine_confirm cfg signals
    end.
Proof.
  intros Hne Hlen. destruct signals as [|kv rest]; [congruence|].
  unfold combine.
  set (lengths := map (fun '(nm, arr) => (nm, length arr)) (kv :: rest)).
  assert (E : nodup Nat.eq_dec (map snd lengths) = [n]).
  { apply nodup_constant.
    - subst lengths. destruct kv. simpl. congruence.
    - subst lengths. rewrite map_map. apply Forall_map.
      eapply Forall_impl; [|exact Hlen]. intros [nm arr]. auto. }
  rewrite E. reflexivity.
Qed.

Lemma forallb_values_bar_all (signals : dict ndarray) (j : nat) (v : Z) :
  forallb (fun r => nth j r 0 =? v) (values signals) = true <-> bar_all signals j v.
Proof.
  unfold bar_all, values. rewrite forallb_forall. split.
  - intros H nm arr Hin. apply Z.eqb_eq. apply H.
    apply in_map_iff. exists (nm, arr). auto.
  - intros H r Hr. apply in_map_iff in Hr. destruct Hr as [[nm arr] [E Hin]].
    simpl in E. subst r. apply Z.eqb_eq. eauto.
Qed.

Lemma combine_and_bars (signals : dict ndarray) (n : nat) :
  signals <> [] -> equal_length signals n ->
  exists res,
    _combine_and signals = Ok res /\ length res = n /\
    forall j, (j < n)%nat ->
      nth j res 0 =
        if forallb (fun r => nth j r 0 =? 1) (values signals) then 1
        else if forallb (fun r => nth j r 0 =? -1) (values signals) then -1
        else 0.
Proof.
  intros Hne Hlen.
  pose proof (values_equal_length signals n Hlen) as Hv.
  assert (Hvne : values signals <> []).
  { destruct signals; [congruence | discriminate]. }
  destruct (np_stack_equal_length (values signals) n Hvne Hv) as [Est Hsh].
  unfold _combine_and. rewrite Est. simpl bind.
  set (m := values signals) in *.
  assert (L1 : length (np_all_axis0 (mat_eq m 1)) = n)
    by (rewrite length_np_all_axis0, shape1_mat_eq; exact Hsh).
  assert (L2 : length (np_all_axis0 (mat_eq m (-1))) = n)
    by (rewrite length_np_all_axis0, shape1_mat_eq; exact Hsh).
  assert (L3 : length (np_where_scalar (np_all_axis0 (mat_eq m (-1))) (-1) 0) = n)
    by (unfold np_where_scalar; rewrite length_map; exact L2).
  eexists. split; [reflexivity|]. split.
  - rewrite length_np_where; congruence.
  - intros j Hj.
    rewrite nth_np_where by (try congruence; lia).
    rewrite nth_np_where_scalar by lia.
    rewrite !(nth_np_all_axis0 m _ n j Hv Hsh Hj). reflexivity.
Qed.

(** C1 (AND mode).  For a non-empty mapping of arrays of one length [n],
    [combine] in AND mode returns an array of length [n] whose value at each
    bar is [1] exactly when every input is [1] there, [-1] exactly when every
    input is [-1] there, and [0] exactly in the remaining case; on
    [a=[1,1,-1,0,1]], [b=[1,-1,-1,0,1]] it returns [[1,0,-1,0,1]]. *)
Theorem combine_and_all_agree (cfg : SignalCombinerConfig)
    (signals : dict ndarray) (n : nat) :
  mode cfg = AND ->
  signals <> [] ->
  equal_length signals n ->
  (exists res,
     combine cfg signals = Ok res /\ length res = n /\
     forall j, (j < n)%nat ->
       (nth j res 0 = 1 <-> bar_all signals j 1) /\
       (nth j res 0 = -1 <-> bar_all signals j (-1)) /\
       (nth j res 0 = 0 <-> ~ bar_all signals j 1 /\ ~ bar_all signals j (-1)))
  /\ combine cfg [("a", [1; 1; -1; 0; 1]); ("b", [1; -1; -1; 0; 1])]
     = Ok [1; 0; -1; 0; 1].
Proof.
  intros Hmode Hne Hlen. split.
  - rewrite (combine_validated cfg signals n Hne Hlen), Hmode.
    destruct (combine_and_bars signals n Hne Hlen) as [res [E [L Hbars]]].
    exists res. split; [exact E|]. split; [exact L|].
    intros j Hj. rewrite (Hbars j Hj).
    pose proof (forallb_values_bar_all signals j 1) as A1.
    pose proof (forallb_values_bar_all signals j (-1)) as A2.
    assert (Excl : bar_all signals j 1 -> bar_all signals j (-1) -> False).
    { destruct signals as [|[nm arr] rest]; [congruence|].
      intros B1 B2. specialize (B1 nm arr (or_introl eq_refl)).
      specialize (B2 nm arr (or_introl eq_refl)). lia. }
    destruct (forallb (fun r => nth j r 0 =? 1) (values signals));
      destruct (forallb (fun r => nth j r 0 =? -1) (values signals));
      repeat split; intros; try lia; try tauto;
      try (apply A1; reflexivity); try (apply A2; reflexivity);
      try (intro B; apply A1 in B; discriminate);
      try (intro B; apply A2 in B; discriminate).
  - unfold combine. simpl. rewrite Hmode. reflexivity.
Qed.

Lemma combine_and_all_agree_witness :
  exists res,
    combine (default_config AND) [("fast", [1; 0]); ("slow", [1; -1])] = Ok res /\
    length res = 2%nat /\
    forall j, (j < 2)%nat ->
      (nth j res 0 = 1 <-> bar_all [("fast", [1; 0]); ("slow", [1; -1])] j 1) /\
      (nth j res 0 = -1 <-> bar_all [("fast", [1; 0]); ("slow", [1; -1])] j (-1)) /\
      (nth j res 0 = 0 <->
         ~ bar_all [("fast", [1; 0]); ("slow", [1; -1])] j 1 /\
         ~ bar_all [("fast", [1; 0]); ("slow", [1; -1])] j (-1)).
Proof.
  apply (combine_and_all_agree (default_config AND)
           [("fast", [1; 0]); ("slow", [1; -1])] 2).
  - reflexivity.
  - discriminate.
  - repeat constructor.
Defined.

(** *** OR mode *)

Lemma fold_count_shift (l : list bool) (a : Z) :
  fold_left (fun acc (x : bool) => acc + (if x then 1 else 0)) l a
  = a + Z.of_nat (count_true l).
Proof.
  revert a. induction l as [|b l IH]; intros a.
  - simpl. unfold count_true. simpl. lia.
  - simpl. rewrite IH. unfold count_true. simpl. destruct b; simpl; lia.
Qed.

Lemma count_true_pos_existsb (l : list bool) :
  (0 <? Z.of_nat (count_true l)) = existsb (fun x => x) l.
Proof.
  induction l as [|b l IH]; [reflexivity|].
  unfold count_true in *. simpl. destruct b; simpl.
  - apply Z.ltb_lt. lia.
  - exact IH.
Qed.

Lemma nth_np_count_gt0 (m : list ndarray) (v : Z) (n j : nat) :
  Forall (fun r => length r = n) m -> shape1 m = n -> (j < n)%nat ->
  nth j (np_gt0 (np_count_axis0 (mat_eq m v))) false
  = existsb (fun r => nth j r 0 =? v) m.
Proof.
  intros Hall Hs Hj. unfold np_gt0, np_count_axis0. rewrite map_map.
  rewrite (nth_indep _ false
             ((fun c => 0 <? fold_left (fun acc (x : bool) => acc + (if x then 1 else 0)) c 0) []))
    by (rewrite length_map, length_axis0, shape1_mat_eq; lia).
  rewrite (map_nth (fun c => 0 <? fold_left (fun acc (x : bool) => acc + (if x then 1 else 0)) c 0)).
  rewrite nth_axis0 by (rewrite shape1_mat_eq; lia).
  rewrite column_mat_eq
    by (eapply Forall_impl; [|exact Hall]; simpl; intros; lia).
  rewrite fold_count_shift, Z.add_0_l, count_true_pos_existsb.
  clear. induction m as [|r m IH]; simpl; [reflexivity | now rewrite IH].
Qed.

Lemma length_np_gt0_count (m : list ndarray) (v : Z) :
  length (np_gt0 (np_count_axis0 (mat_eq m v))) = shape1 m.
Proof.
  unfold np_gt0, np_count_axis0.
  now rewrite !length_map, length_axis0, shape1_mat_eq.
Qed.

Lemma length_np_and (a b : list bool) :
  length a = length b -> length (np_and a b) = length a.
Proof.
  revert b; induction a as [|x a IH]; intros [|y b]; simpl; intros H;
    try discriminate; auto.
Qed.

Lemma nth_np_and (a b : list bool) (j : nat) :
  length a = length b ->
  nth j (np_and a b) false = nth j a false && nth j b false.
Proof.
  revert b j; induction a as [|x a IH]; intros [|y b] [|j]; simpl; intros H;
    try discriminate; auto.
Qed.

Lemma nth_np_not (a : list bool) (j : nat) :
  (j < length a)%nat -> nth j (np_not a) false = negb (nth j a false).
Proof.
  unfold np_not. revert j.
  induction a as [|x a IH]; intros [|j]; simpl; intros H; try lia; auto.
  apply IH. lia.
Qed.

Lemma length_mask_fill (res : ndarray) (mask : list bool) (v : Z) :
  length (mask_fill res mask v) = length res.
Proof.
  revert mask; induction res as [|r res IH]; intros [|b mask]; simpl; auto.
Qed.

Lemma nth_mask_fill (res : ndarray) (mask : list bool) (v : Z) (j : nat) :
  length res = length mask ->
  nth j (mask_fill res mask v) 0 = if nth j mask false then v else nth j res 0.
Proof.
  revert mask j; induction res as [|r res IH]; intros [|b mask] [|j]; simpl;
    intros H; try discriminate; auto.
Qed.

Lemma length_mask_assign (res : ndarray) (mask : list bool) (vals : list Z) :
  length (mask_assign res mask vals) = length res.
Proof.
  revert mask vals; induction res as [|r res IH]; intros [|b mask] vals;
    simpl; auto.
  destruct b; [destruct vals|]; simpl; auto.
Qed.

Lemma nth_mask_assign (res : ndarray) (mask : list bool) (vals : list Z) (j : nat) :
  length res = length mask ->
  length vals = count_true mask ->
  (j < length res)%nat ->
  nth j (mask_assign res mask vals) 0
  = if nth j mask false then nth (rank mask j) vals 0 else nth j res 0.
Proof.
  revert mask vals j.
  induction res as [|r res IH]; intros [|b mask] vals j HL HV Hj;
    simpl in *; try discriminate; try lia.
  unfold count_true, rank in *. destruct b; simpl in *.
  - destruct vals as [|v vals]; [discriminate|].
    destruct j as [|j]; simpl; [reflexivity|].
    rewrite IH by (simpl in *; lia). reflexivity.
  - destruct j as [|j]; simpl; [reflexivity|].
    rewrite IH by (simpl in *; lia). reflexivity.
Qed.

Lemma length_mask_select {A : Type} (row : list A) (mask : list bool) :
  length row = length mask -> length (mask_select row mask) = count_true mask.
Proof.
  unfold count_true.
  revert mask; induction row as [|x row IH]; intros [|b mask]; simpl; intros H;
    try discriminate; auto.
  destruct b; simpl; auto.
Qed.

Lemma nth_mask_select (row : ndarray) (mask : list bool) (j : nat) :
  length row = length mask -> nth j mask false = true ->
  nth (rank mask j) (mask_select row mask) 0 = nth j row 0.
Proof.
  unfold rank, count_true.
  revert mask j; induction row as [|x row IH]; intros [|b mask] [|j]; simpl;
    intros HL Hm; try discriminate; auto.
  - now rewrite Hm.
  - destruct b; simpl; apply IH; auto.
Qed.

Lemma rank_lt_count (mask : list bool) (j : nat) :
  nth j mask false = true -> (rank mask j < count_true mask)%nat.
Proof.
  unfold rank, count_true.
  revert j; induction mask as [|b mask IH]; intros [|j]; simpl; intros H;
    try discriminate.
  - subst b. simpl. lia.
  - specialize (IH j H). destruct b; simpl; lia.
Qed.

Lemma nth_vote_sum (m : list ndarray) (mask : list bool) (j : nat) :
  m <> [] ->
  Forall (fun r => length r = length mask) m ->
  nth j mask false = true ->
  length (np_sum_axis0 (select_columns m mask)) = count_true mask /\
  nth (rank mask j) (np_sum_axis0 (select_columns m mask)) 0
  = np_sum (column 0 m j).
Proof.
  intros Hne Hall Hj.
  assert (Hs : shape1 (select_columns m mask) = count_true mask).
  { destruct m as [|r m]; [congruence|]. simpl.
    inversion Hall; subst. now apply length_mask_select. }
  split.
  - unfold np_sum_axis0. now rewrite length_map, length_axis0.
  - unfold np_sum_axis0.
    rewrite (nth_indep _ 0 (np_sum []))
      by (rewrite length_map, length_axis0, Hs; now apply rank_lt_count).
    rewrite (map_nth np_sum).
    rewrite nth_axis0 by (rewrite Hs; now apply rank_lt_count).
    f_equal. unfold column, select_columns. rewrite map_map.
    apply map_ext_in. intros r Hr. rewrite Forall_forall in Hall.
    apply nth_mask_select; auto.
Qed.

Lemma np_any_false_nth (mask : list bool) (j : nat) :
  np_any mask = false -> nth j mask false = false.
Proof.
  unfold np_any. revert j.
  induction mask as [|b mask IH]; intros [|j]; simpl; intros H; auto.
  - now apply orb_false_elim in H.
  - apply IH. now apply orb_false_elim in H.
Qed.

Lemma nth_np_zeros (n j : nat) : nth j (np_zeros n) 0 = 0.
Proof.
  unfold np_zeros. revert j. induction n; intros [|j]; simpl; auto.
Qed.

Lemma combine_or_bars (signals : dict ndarray) (n : nat) :
  signals <> [] -> equal_length signals n ->
  exists res,
    _combine_or signals = Ok res /\ length res = n /\
    forall j, (j < n)%nat ->
      let has_long := existsb (fun r => nth j r 0 =? 1) (values signals) in
      let has_short := existsb (fun r => nth j r 0 =? -1) (values signals) in
      nth j res 0 =
        if has_long && has_short then Z.sgn (np_sum (column 0 (values signals) j))
        else if has_long then 1
        else if has_short then -1
        else 0.
Proof.
  intros Hne Hlen.
  pose proof (values_equal_length signals n Hlen) as Hv.
  assert (Hvne : values signals <> []).
  { destruct signals; [congruence | discriminate]. }
  destruct (np_stack_equal_length (values signals) n Hvne Hv) as [Est Hsh].
  unfold _combine_or. rewrite Est. simpl bind.
  set (m := values signals) in *.
  set (has_long := np_gt0 (np_count_axis0 (mat_eq m 1))).
  set (has_short := np_gt0 (np_count_axis0 (mat_eq m (-1)))).
  assert (LL : length has_long = n)
    by (subst has_long; rewrite length_np_gt0_count; exact Hsh).
  assert (LS : length has_short = n)
    by (subst has_short; rewrite length_np_gt0_count; exact Hsh).
  set (conflict := np_and has_long has_short).
  set (r0 := np_zeros (shape1 m)).
  set (r1 := mask_fill r0 (np_and has_long (np_not has_short)) 1).
  set (r2 := mask_fill r1 (np_and has_short (np_not has_long)) (-1)).
  assert (L0 : length r0 = n) by (subst r0; unfold np_zeros; rewrite repeat_length; exact Hsh).
  assert (L1 : length r1 = n) by (subst r1; rewrite length_mask_fill; exact L0).
  assert (L2 : length r2 = n) by (subst r2; rewrite length_mask_fill; exact L1).
  assert (LN1 : length (np_not has_short) = n)
    by (unfold np_not; rewrite length_map; exact LS).
  assert (LN2 : length (np_not has_long) = n)
    by (unfold np_not; rewrite length_map; exact LL).
  assert (LC : length conflict = n)
    by (subst conflict; rewrite length_np_and; congruence).
  assert (R2 : forall j, (j < n)%nat ->
            nth j r2 0 =
              if nth j has_short false && negb (nth j has_long false) then -1
              else if nth j has_long false && negb (nth j has_short false) then 1
              else 0).
  { intros j Hj. subst r2 r1.
    rewrite nth_mask_fill
      by (rewrite length_mask_fill, length_np_and; congruence).
    rewrite nth_np_and by congruence.
    rewrite nth_np_not by lia.
    rewrite nth_mask_fill by (rewrite length_np_and; congruence).
    rewrite nth_np_and by congruence.
    rewrite nth_np_not by lia.
    subst r0. rewrite nth_np_zeros. reflexivity. }
  assert (HL : forall j, (j < n)%nat ->
            nth j has_long false = existsb (fun r => nth j r 0 =? 1) m)
    by (intros; subst has_long; now apply (nth_np_count_gt0 m 1 n)).
  assert (HS : forall j, (j < n)%nat ->
            nth j has_short false = existsb (fun r => nth j r 0 =? -1) m)
    by (intros; subst has_short; now apply (nth_np_count_gt0 m (-1) n)).
  destruct (np_any conflict) eqn:Eany.
  - eexists. split; [reflexivity|]. split.
    + rewrite length_mask_assign. exact L2.
    + intros j Hj. cbv zeta.
      assert (Hrows : Forall (fun r => length r = length conflict) m)
        by (eapply Forall_impl; [|exact Hv]; simpl; intros; congruence).
      destruct (nth j conflict false) eqn:Ec.
      * destruct (nth_vote_sum m conflict j Hvne Hrows Ec) as [LV NV].
        rewrite nth_mask_assign; try congruence; try lia.
        2:{ unfold np_sign. rewrite length_map. exact LV. }
        rewrite Ec. unfold np_sign.
        rewrite (nth_indep _ 0 (Z.sgn 0))
          by (rewrite length_map, LV; now apply rank_lt_count).
        rewrite (map_nth Z.sgn), NV.
        subst conflict. rewrite nth_np_and in Ec by congruence.
        rewrite <- (HL j Hj), <- (HS j Hj), Ec. reflexivity.
      * rewrite nth_mask_assign; try congruence; try lia.
        2:{ unfold np_sign. rewrite length_map.
            destruct (existsb_exists (fun x : bool => x) conflict) as [Hex _].
            destruct (Hex Eany) as [x [Hin Hx]]. subst x.
            destruct (In_nth _ _ false Hin) as [k [Hk Ek]].
            now destruct (nth_vote_sum m conflict k Hvne Hrows Ek). }
        rewrite Ec, (R2 j Hj).
        subst conflict. rewrite nth_np_and in Ec by congruence.
        rewrite <- (HL j Hj), <- (HS j Hj).
        destruct (nth j has_long false), (nth j has_short false);
          simpl in *; congruence.
  - exists r2. split; [reflexivity|]. split; [exact L2|].
    intros j Hj. cbv zeta. rewrite (R2 j Hj).
    pose proof (np_any_false_nth conflict j Eany) as Ec.
    subst conflict. rewrite nth_np_and in Ec by congruence.
    rewrite <- (HL j Hj), <- (HS j Hj).
    destruct (nth j has_long false), (nth j has_short false);
      simpl in *; congruence.
Qed.

Lemma existsb_values_bar_some (signals : dict ndarray) (j : nat) (v : Z) :
  existsb (fun r => nth j r 0 =? v) (values signals) = true <-> bar_some signals j v.
Proof.
  unfold bar_some, values. rewrite existsb_exists. split.
  - intros [r [Hr E]]. apply in_map_iff in Hr. destruct Hr as [[nm arr] [E' Hin]].
    simpl in E'. subst r. exists nm, arr. split; [exact Hin | now apply Z.eqb_eq].
  - intros [nm [arr [Hin E]]]. exists arr. split.
    + apply in_map_iff. exists (nm, arr). auto.
    + now apply Z.eqb_eq.
Qed.

Lemma column_values (signals : dict ndarray) (j : nat) :
  column 0 (values signals) j = map (fun kv => nth j (snd kv) 0) signals.
Proof. unfold column, values. now rewrite map_map. Qed.

(** On signal values the 64-bit accumulation NumPy performs cannot wrap for
    any number of rows below [2^63], so it is the sum in [Z]. *)
Lemma np_sum_int64_no_wrap (c : list Z) :
  Forall is_signal c -> len c < 2 ^ 63 -> np_sum_int64 c = np_sum c.
Proof.
  unfold np_sum_int64, np_sum, len.
  assert (G : forall (l : list Z) (a : Z),
             Forall is_signal l ->
             Z.abs a + Z.of_nat (length l) < 2 ^ 63 ->
             fold_left (fun acc x => wrap64 (acc + x)) l a = fold_left Z.add l a).
  { induction l as [|x l IH]; intros a Hs Hb; [reflexivity|].
    inversion Hs as [|? ? Hx Hl]; subst. simpl.
    assert (W : wrap64 (a + x) = a + x).
    { unfold wrap64. simpl length in Hb. unfold is_signal in Hx.
      rewrite Z.mod_small; lia. }
    rewrite W. apply IH; [exact Hl|].
    simpl length in Hb. unfold is_signal in Hx. lia. }
  intros Hs Hb. apply G; [exact Hs | simpl; lia].
Qed.

(** C2 (OR mode).  For a non-empty mapping of arrays over [{-1,0,1}] of one
    length [n], [combine] in OR mode returns an array of length [n] that holds
    at each bar: [1] if some input is [1] and none is [-1]; [-1] if some input
    is [-1] and none is [1]; the sign of the sum of all inputs at the bar if
    both a [1] and a [-1] are present (so [0] on a tie); [0] if every input is
    [0].  On [a=[1,0,-1,0]], [b=[0,0,-1,0]] it returns [[1,0,-1,0]]. *)
Theorem combine_or_majority_vote (cfg : SignalCombinerConfig)
    (signals : dict ndarray) (n : nat) :
  mode cfg = OR ->
  signals <> [] ->
  equal_length signals n ->
  signal_arrays signals ->
  (exists res,
     combine cfg signals = Ok res /\ length res = n /\
     forall j, (j < n)%nat ->
       (bar_some signals j 1 -> ~ bar_some signals j (-1) -> nth j res 0 = 1) /\
       (bar_some signals j (-1) -> ~ bar_some signals j 1 -> nth j res 0 = -1) /\
       (bar_some signals j 1 -> bar_some signals j (-1) ->
          nth j res 0 = Z.sgn (bar_sum signals j) /\
          (bar_sum signals j = 0 -> nth j res 0 = 0)) /\
       (bar_all signals j 0 -> nth j res 0 = 0) /\
       (len signals < 2 ^ 63 ->
          np_sum_int64 (map (fun kv => nth j (snd kv) 0) signals) = bar_sum signals j))
  /\ combine cfg [("a", [1; 0; -1; 0]); ("b", [0; 0; -1; 0])] = Ok [1; 0; -1; 0].
Proof.
  intros Hmode Hne Hlen Hsig. split.
  - rewrite (combine_validated cfg signals n Hne Hlen), Hmode.
    destruct (combine_or_bars signals n Hne Hlen) as [res [E [L Hbars]]].
    exists res. split; [exact E|]. split; [exact L|].
    intros j Hj. specialize (Hbars j Hj). cbv zeta in Hbars.
    rewrite column_values in Hbars. fold (bar_sum signals j) in Hbars.
    assert (Z0 : forall v, bar_all signals j 0 -> bar_some signals j v -> v = 0).
    { intros v Ha [nm [arr [Hin Hv]]]. specialize (Ha nm arr Hin). lia. }
    assert (W : len signals < 2 ^ 63 ->
                np_sum_int64 (map (fun kv => nth j (snd kv) 0) signals)
                = bar_sum signals j).
    { intros Hb. apply np_sum_int64_no_wrap.
      - apply Forall_map. unfold signal_arrays in Hsig. unfold equal_length in Hlen.
        rewrite Forall_forall in *. intros kv Hin.
        specialize (Hsig kv Hin). specialize (Hlen kv Hin).
        rewrite Forall_forall in Hsig. apply Hsig. apply nth_In. lia.
      - unfold len in *. now rewrite length_map. }
    pose proof (existsb_values_bar_some signals j 1) as A1.
    pose proof (existsb_values_bar_some signals j (-1)) as A2.
    destruct (existsb (fun r => nth j r 0 =? 1) (values signals));
      destruct (existsb (fun r => nth j r 0 =? -1) (values signals));
      simpl in Hbars; rewrite Hbars.
    + assert (B1 : bar_some signals j 1) by now apply A1.
      assert (B2 : bar_some signals j (-1)) by now apply A2.
      split; [tauto|]. split; [tauto|]. split.
      * intros _ _. split; [reflexivity|]. intros Hz. now rewrite Hz.
      * split; [|exact W]. intros Ha. specialize (Z0 1 Ha B1). lia.
    + assert (B1 : bar_some signals j 1) by now apply A1.
      assert (B2 : ~ bar_some signals j (-1)) by (intro B; apply A2 in B; discriminate).
      split; [tauto|]. split; [tauto|]. split; [tauto|]. split; [|exact W].
      intros Ha. specialize (Z0 1 Ha B1). lia.
    + assert (B1 : ~ bar_some signals j 1) by (intro B; apply A1 in B; discriminate).
      assert (B2 : bar_some signals j (-1)) by now apply A2.
      split; [tauto|]. split; [tauto|]. split; [tauto|]. split; [|exact W].
      intros Ha. specialize (Z0 (-1) Ha B2). lia.
    + assert (B1 : ~ bar_some signals j 1) by (intro B; apply A1 in B; discriminate).
      assert (B2 : ~ bar_some signals j (-1)) by (intro B; apply A2 in B; discriminate).
      split; [tauto|]. split; [tauto|]. split; [tauto|]. split; [|exact W].
      reflexivity.
  - unfold combine. simpl. rewrite Hmode. reflexivity.
Qed.

Lemma combine_or_majority_vote_witness :
  exists res,
    combine (default_config OR)
      [("x", [1; 1; 0]); ("y", [-1; 1; 0]); ("z", [-1; 0; 0])] = Ok res /\
    length res = 3%nat /\
    forall j, (j < 3)%nat ->
      let s := [("x", [1; 1; 0]); ("y", [-1; 1; 0]); ("z", [-1; 0; 0])] in
      (bar_some s j 1 -> ~ bar_some s j (-1) -> nth j res 0 = 1) /\
      (bar_some s j (-1) -> ~ bar_some s j 1 -> nth j res 0 = -1) /\
      (bar_some s j 1 -> bar_some s j (-1) ->
         nth j res 0 = Z.sgn (bar_sum s j) /\
         (bar_sum s j = 0 -> nth j res 0 = 0)) /\
      (bar_all s j 0 -> nth j res 0 = 0) /\
      (len s < 2 ^ 63 ->
         np_sum_int64 (map (fun kv => nth j (snd kv) 0) s) = bar_sum s j).
Proof.
  apply (combine_or_majority_vote (default_config OR)
           [("x", [1; 1; 0]); ("y", [-1; 1; 0]); ("z", [-1; 0; 0])] 3).
  - reflexivity.
  - discriminate.
  - repeat constructor.
  - unfold signal_arrays, is_signal. repeat constructor; simpl; lia.
Defined.

(** *** Error paths of [combine] *)

Lemma lengths_of_combine (signals : dict ndarray) :
  map (fun '(nm, arr) => (nm, length arr)) signals = lengths_of signals.
Proof. unfold lengths_of. apply map_ext. now intros [nm arr]. Qed.

Lemma two_distinct_members (l : list nat) (x y : nat) :
  In x l -> In y l -> x <> y -> (2 <= length (nodup Nat.eq_dec l))%nat.
Proof.
  intros Hx Hy Hxy.
  assert (I : incl [x; y] (nodup Nat.eq_dec l)).
  { intros z [Hz|[Hz|[]]]; subst z; now apply nodup_In. }
  assert (N : NoDup [x; y]).
  { constructor; [simpl; intuition congruence|]. constructor; [simpl; tauto|constructor]. }
  apply (NoDup_incl_length N I).
Qed.

(** C4 (error paths).  [combine] raises [ValueError("No signals provided")]
    on the empty mapping; on a mapping holding two arrays of different
    lengths it raises the [ValueError] whose message interpolates the dict of
    all lengths, which lists both mismatched lengths under their names.  In
    both cases the result is the exception: no array is produced.  For
    lengths 2 and 3 the reported dict is [{'a': 2, 'b': 3}]. *)
Theorem combine_error_paths (cfg : SignalCombinerConfig) (signals : dict ndarray)
    (na nb : string) (a b : ndarray) :
  In (na, a) signals ->
  In (nb, b) signals ->
  length a <> length b ->
  combine cfg [] = Raise (ValueError [Lit "No signals provided"]) /\
  (combine cfg signals
     = Raise (ValueError [Lit "Signal arrays have different lengths: ";
                          Interp (lengths_of signals)]) /\
   In (na, length a) (lengths_of signals) /\
   In (nb, length b) (lengths_of signals)) /\
  combine cfg [("a", [1; 0]); ("b", [1; 0; 1])]
    = Raise (ValueError [Lit "Signal arrays have different lengths: ";
                         Interp [("a", 2%nat); ("b", 3%nat)]]).
Proof.
  intros Ha Hb Hab. split; [reflexivity|]. split; [|reflexivity].
  assert (La : In (na, length a) (lengths_of signals)).
  { unfold lengths_of. apply in_map_iff. exists (na, a). auto. }
  assert (Lb : In (nb, length b) (lengths_of signals)).
  { unfold lengths_of. apply in_map_iff. exists (nb, b). auto. }
  split; [|split; assumption].
  destruct signals as [|kv rest]; [contradiction|].
  unfold combine. rewrite lengths_of_combine.
  assert (T : (2 <= length (nodup Nat.eq_dec (map snd (lengths_of (kv :: rest)))))%nat).
  { apply (two_distinct_members _ (length a) (length b)); auto.
    - apply in_map_iff. exists (na, length a). auto.
    - apply in_map_iff. exists (nb, length b). auto. }
  destruct (Z.ltb_spec 1 (len (nodup Nat.eq_dec (map snd (lengths_of (kv :: rest))))))
    as [_|H]; [reflexivity|].
  unfold len in H. lia.
Qed.

Lemma combine_error_paths_witness :
  combine (default_config CONFIRM) [] = Raise (ValueError [Lit "No signals provided"]) /\
  (combine (default_config CONFIRM) [("p", [1; 0; -1]); ("q", [1]); ("r", [0; 0; 0])]
     = Raise (ValueError [Lit "Signal arrays have different lengths: ";
                          Interp (lengths_of [("p", [1; 0; -1]); ("q", [1]); ("r", [0; 0; 0])])]) /\
   In ("p", length [1; 0; -1]) (lengths_of [("p", [1; 0; -1]); ("q", [1]); ("r", [0; 0; 0])]) /\
   In ("q", length [1]) (lengths_of [("p", [1; 0; -1]); ("q", [1]); ("r", [0; 0; 0])])) /\
  combine (default_config CONFIRM) [("a", [1; 0]); ("b", [1; 0; 1])]
    = Raise (ValueError [Lit "Signal arrays have different lengths: ";
                         Interp [("a", 2%nat); ("b", 3%nat)]]).
Proof.
  apply (combine_error_paths (default_config CONFIRM)
           [("p", [1; 0; -1]); ("q", [1]); ("r", [0; 0; 0])] "p" "q" [1; 0; -1] [1]).
  - simpl. auto.
  - simpl. auto.
  - simpl. lia.
Defined.

(** *** CONFIRM mode *)

Lemma hd_filter_find {A B : Type} (p : A -> bool) (f : A -> B) (l : list A) :
  hd_error (map f (filter p l)) = option_map f (find p l).
Proof.
  induction l as [|x l IH]; simpl; [reflexivity|].
  destruct (p x); simpl; auto.
Qed.

Lemma dict_get_In {V : Type} (d : dict V) (k : string) (v : V) :
  dict_get d k = Some v -> In (k, v) d.
Proof.
  induction d as [|[k' v'] d IH]; simpl; [discriminate|].
  destruct (String.eqb_spec k' k).
  - intros E. inversion E; subst. now left.
  - intros E. right. now apply IH.
Qed.

Lemma in_secondary_arrays (cfg : SignalCombinerConfig) (signals : dict ndarray)
    (arr : ndarray) :
  In arr (secondary_arrays cfg signals) <-> secondary_array cfg signals arr.
Proof.
  unfold secondary_arrays, secondary_array. rewrite in_flat_map. split.
  - intros [nm [Hnm Harr]]. apply in_map_iff in Hnm.
    destruct Hnm as [c [Ec Hc]]. apply filter_In in Hc. destruct Hc as [Hin Hr].
    apply String.eqb_eq in Hr. subst nm. exists c.
    destruct (dict_get signals (name c)) as [a|]; simpl in Harr; [|contradiction].
    destruct Harr as [E|[]]. subst a. auto.
  - intros [c [Hin [Hr Hg]]]. exists (name c). split.
    + apply in_map_iff. exists c. split; [reflexivity|].
      apply filter_In. split; [exact Hin | now apply String.eqb_eq].
    + rewrite Hg. now left.
Qed.

Lemma in_window_slice {A : Type} (a : list A) (s e : nat) (x : A) :
  In x (firstn (e - s) (skipn s a)) <->
  exists k, (s <= k < e)%nat /\ nth_error a k = Some x.
Proof.
  split.
  - intros H. apply In_nth_error in H. destruct H as [q Hq].
    rewrite nth_error_firstn in Hq.
    destruct (Nat.ltb_spec q (e - s)); [|discriminate].
    rewrite nth_error_skipn in Hq. exists (s + q)%nat. split; [lia | exact Hq].
  - intros [k [Hk E]]. apply (nth_error_In _ (k - s)).
    rewrite nth_error_firstn.
    destruct (Nat.ltb_spec (k - s) (e - s)); [|lia].
    rewrite nth_error_skipn. now replace (s + (k - s))%nat with k by lia.
Qed.

Lemma py_slice_window {A : Type} (a : list A) (n i : nat) (w : Z) :
  length a = n -> (i < n)%nat -> 0 <= w ->
  py_slice a (Z.max 0 (Z.of_nat i - w)) (Z.min (Z.of_nat n) (Z.of_nat i + w + 1))
  = firstn (Z.to_nat (Z.min (Z.of_nat n) (Z.of_nat i + w + 1))
            - Z.to_nat (Z.max 0 (Z.of_nat i - w)))
           (skipn (Z.to_nat (Z.max 0 (Z.of_nat i - w))) a).
Proof.
  intros Hl Hi Hw. unfold py_slice, clamp_bound, len. rewrite Hl.
  destruct (Z.ltb_spec (Z.max 0 (Z.of_nat i - w)) 0); [lia|].
  destruct (Z.ltb_spec (Z.min (Z.of_nat n) (Z.of_nat i + w + 1)) 0); [lia|].
  replace (Z.min (Z.max (Z.max 0 (Z.of_nat i - w)) 0) (Z.of_nat n))
    with (Z.max 0 (Z.of_nat i - w)) by lia.
  replace (Z.min (Z.max (Z.min (Z.of_nat n) (Z.of_nat i + w + 1)) 0) (Z.of_nat n))
    with (Z.min (Z.of_nat n) (Z.of_nat i + w + 1)) by lia.
  reflexivity.
Qed.

Lemma window_hit_confirmed (sec : list ndarray) (n i : nat) (w d : Z) :
  Forall (fun r => length r = n) sec -> (i < n)%nat -> 0 <= w ->
  existsb (existsb (fun x => x =? d))
          (map (fun r => py_slice r (Z.max 0 (Z.of_nat i - w))
                                    (Z.min (Z.of_nat n) (Z.of_nat i + w + 1))) sec) = true
  <-> exists arr k, In arr sec /\
        Z.of_nat i - w <= Z.of_nat k <= Z.of_nat i + w /\
        (k < n)%nat /\ nth k arr 0 = d.
Proof.
  intros Hall Hi Hw. rewrite Forall_forall in Hall.
  rewrite existsb_exists. split.
  - intros [sl [Hsl Hex]]. apply in_map_iff in Hsl. destruct Hsl as [r [Er Hr]].
    subst sl. rewrite (py_slice_window r n i w (Hall r Hr) Hi Hw) in Hex.
    apply existsb_exists in Hex. destruct Hex as [x [Hx Ex]].
    apply Z.eqb_eq in Ex. subst x.
    apply in_window_slice in Hx. destruct Hx as [k [Hk Ek]].
    assert (Hkn : (k < length r)%nat) by (apply nth_error_Some; congruence).
    exists r, k. split; [exact Hr|]. rewrite (Hall r Hr) in Hkn.
    split; [lia|]. split; [exact Hkn|].
    now apply nth_error_nth.
  - intros [arr [k [Harr [Hk [Hkn Ek]]]]].
    exists (py_slice arr (Z.max 0 (Z.of_nat i - w))
                         (Z.min (Z.of_nat n) (Z.of_nat i + w + 1))).
    split; [apply in_map_iff; exists arr; auto|].
    rewrite (py_slice_window arr n i w (Hall arr Harr) Hi Hw).
    apply existsb_exists. exists d. split; [|apply Z.eqb_refl].
    apply in_window_slice. exists k. split; [lia|].
    rewrite <- Ek. apply nth_error_nth'. now rewrite (Hall arr Harr).
Qed.

Lemma confirm_loop (primary : ndarray) (sec : list ndarray) (w : Z) :
  exists res,
    for_range 0 (len primary)
      (fun i result =>
         p_i <- getitem primary i ;;
         if p_i =? 0 then Ok result
         else
           let direction := p_i in
           let start := Z.max 0 (i - w) in
           let stop := Z.min (len primary) (i + w + 1) in
           let window_slice := map (fun r => py_slice r start stop) sec in
           if existsb (existsb (fun x => x =? direction)) window_slice
           then setitem result i direction
           else Ok result)
      (np_zeros (length primary)) = Ok res /\
    length res = length primary /\
    forall k, (k < length primary)%nat -> nth k res 0 = confirm_bar primary sec w k.
Proof.
  set (n := length primary).
  set (P := fun (i : Z) (result : ndarray) =>
              length result = n /\
              (forall k, (Z.of_nat k < i) -> nth k result 0 = confirm_bar primary sec w k) /\
              (forall k, (i <= Z.of_nat k) -> nth k result 0 = 0)).
  destruct (for_range_invariant P
              (fun i result =>
                 p_i <- getitem primary i ;;
                 if p_i =? 0 then Ok result
                 else
                   let direction := p_i in
                   let start := Z.max 0 (i - w) in
                   let stop := Z.min (len primary) (i + w + 1) in
                   let window_slice := map (fun r => py_slice r start stop) sec in
                   if existsb (existsb (fun x => x =? direction)) window_slice
                   then setitem result i direction
                   else Ok result)
              0 (len primary) (np_zeros n)) as [res [E [L [Hlt _]]]].
  - unfold len. lia.
  - unfold P. split; [unfold np_zeros; apply repeat_length|].
    split; [intros; lia | intros; apply nth_np_zeros].
  - intros i st Hi [HL [Hdone Hrest]].
    rewrite (getitem_in_range 0 primary i Hi). simpl bind.
    assert (Ei : Z.of_nat (Z.to_nat i) = i) by lia.
    assert (Hcb : confirm_bar primary sec w (Z.to_nat i) =
                  if nth (Z.to_nat i) primary 0 =? 0 then 0
                  else if existsb (existsb (fun x => x =? nth (Z.to_nat i) primary 0))
                            (map (fun r => py_slice r (Z.max 0 (i - w))
                                             (Z.min (len primary) (i + w + 1))) sec)
                       then nth (Z.to_nat i) primary 0 else 0).
    { unfold confirm_bar. cbv zeta. now rewrite Ei. }
    destruct (nth (Z.to_nat i) primary 0 =? 0) eqn:Ez.
    + exists st. split; [reflexivity|]. unfold P. split; [exact HL|]. split.
      * intros k Hk. destruct (Z.eq_dec (Z.of_nat k) i) as [Ek|Nk].
        -- replace k with (Z.to_nat i) by lia. rewrite Hcb. apply Hrest. lia.
        -- apply Hdone. lia.
      * intros k Hk. apply Hrest. lia.
    + cbv zeta.
      destruct (existsb (existsb (fun x => x =? nth (Z.to_nat i) primary 0))
                  (map (fun r => py_slice r (Z.max 0 (i - w))
                                   (Z.min (len primary) (i + w + 1))) sec)) eqn:Eh.
      * rewrite setitem_in_range by (unfold len in *; rewrite HL; exact Hi).
        eexists. split; [reflexivity|]. unfold P.
        split; [rewrite list_set_length; exact HL|]. split.
        -- intros k Hk. destruct (Z.eq_dec (Z.of_nat k) i) as [Ek|Nk].
           ++ replace k with (Z.to_nat i) by lia.
              rewrite nth_list_set_eq by (unfold len in Hi; lia).
              now rewrite Hcb.
           ++ rewrite nth_list_set_neq by lia. apply Hdone. lia.
        -- intros k Hk. rewrite nth_list_set_neq by lia. apply Hrest. lia.
      * exists st. split; [reflexivity|]. unfold P. split; [exact HL|]. split.
        -- intros k Hk. destruct (Z.eq_dec (Z.of_nat k) i) as [Ek|Nk].
           ++ replace k with (Z.to_nat i) by lia. rewrite Hcb. apply Hrest. lia.
           ++ apply Hdone. lia.
        -- intros k Hk. apply Hrest. lia.
  - exists res. split; [exact E|]. split; [exact L|].
    intros k Hk. apply Hlt. unfold len. lia.
Qed.

Lemma secondary_arrays_length (cfg : SignalCombinerConfig) (signals : dict ndarray)
    (n : nat) :
  equal_length signals n ->
  Forall (fun r => length r = n) (secondary_arrays cfg signals).
Proof.
  intros Hlen. apply Forall_forall. intros arr Harr.
  apply in_secondary_arrays in Harr. destruct Harr as [c [_ [_ Hg]]].
  apply dict_get_In in Hg. unfold equal_length in Hlen.
  rewrite Forall_forall in Hlen. exact (Hlen _ Hg).
Qed.

(** C3 as stated fails for a negative [confirm_window].  With window [-2] the
    claimed index window of bar 0 is [[2, -2]], which is empty, so the claim
    gives 0 at bar 0; the code computes the slice [start:end] = [2:-1], which
    Python reads as [2:3], finds the secondary's 1 at bar 2 and returns 1. *)
Lemma confirm_negative_window_counterexample :
  combine (confirm_config (-2)) [("p", [1; 0; 0; 0]); ("s", [0; 0; 1; 0])]
    = Ok [1; 0; 0; 0] /\
  primary_config (confirm_config (-2))
    = Some {| name := "p"; weight := 1%float; role := "primary"; signal_source := "major" |} /\
  nth 0 [1; 0; 0; 0] 0 <> 0 /\
  ~ confirmed (confirm_config (-2)) [("p", [1; 0; 0; 0]); ("s", [0; 0; 1; 0])] 4 0
      (nth 0 [1; 0; 0; 0] 0).
Proof.
  split; [reflexivity|]. split; [reflexivity|]. split; [simpl; lia|].
  intros [arr [k [_ [Hk _]]]]. simpl in Hk. lia.
Qed.

(** C3 (CONFIRM mode), amended: for a non-negative [confirm_window].
    If the first config entry with role primary names an array of the mapping
    and some secondary indicator is present in the mapping, every bar where
    the primary is non-zero yields the primary's value exactly when some
    secondary equals it at a bar of the inclusive window
    [[bar - confirm_window, bar + confirm_window]] clipped to the array, and
    0 otherwise (bars where the primary is 0 yield 0); if no secondary is
    present the primary array is returned unmodified; if no primary is
    designated or its name is absent from the mapping the result is the
    AND-mode combination. *)
Theorem combine_confirm_within_window (cfg : SignalCombinerConfig)
    (signals : dict ndarray) (n : nat) :
  mode cfg = CONFIRM ->
  signals <> [] ->
  equal_length signals n ->
  0 <= confirm_window cfg ->
  (forall c primary,
     primary_config cfg = Some c ->
     dict_get signals (name c) = Some primary ->
     ((exists arr, secondary_array cfg signals arr) ->
      exists res,
        combine cfg signals = Ok res /\ length res = n /\
        forall i, (i < n)%nat ->
          (nth i primary 0 = 0 -> nth i res 0 = 0) /\
          (nth i primary 0 <> 0 ->
             (confirmed cfg signals n i (nth i primary 0) ->
                nth i res 0 = nth i primary 0) /\
             (~ confirmed cfg signals n i (nth i primary 0) ->
                nth i res 0 = 0))) /\
     ((~ exists arr, secondary_array cfg signals arr) ->
      combine cfg signals = Ok primary)) /\
  ((primary_config cfg = None \/
    exists c, primary_config cfg = Some c /\ dict_get signals (name c) = None) ->
   combine cfg signals = combine (with_mode AND cfg) signals).
Proof.
  intros Hmode Hne Hlen Hw.
  rewrite (combine_validated cfg signals n Hne Hlen), Hmode.
  rewrite (combine_validated (with_mode AND cfg) signals n Hne Hlen).
  simpl mode. unfold _combine_confirm.
  fold (secondary_arrays cfg signals).
  pose proof (hd_filter_find (fun c => String.eqb (role c) "primary") name
                (indicators cfg)) as Hhd.
  fold (primary_config cfg) in Hhd.
  split.
  - intros c primary Hp Hg. rewrite Hp in Hhd. simpl in Hhd.
    destruct (map name (filter (fun c0 => String.eqb (role c0) "primary") (indicators cfg)))
      as [|pn rest]; [discriminate|].
    simpl in Hhd. inversion Hhd; subst pn. rewrite Hg.
    assert (Lp : length primary = n).
    { apply dict_get_In in Hg. unfold equal_length in Hlen.
      rewrite Forall_forall in Hlen. exact (Hlen _ Hg). }
    pose proof (secondary_arrays_length cfg signals n Hlen) as Hsec.
    destruct (secondary_arrays cfg signals) as [|s0 srest] eqn:Es.
    + split.
      * intros [arr Harr]. apply in_secondary_arrays in Harr.
        rewrite Es in Harr. contradiction.
      * reflexivity.
    + split.
      * intros _.
        destruct (np_stack_equal_length (s0 :: srest) n ltac:(discriminate) Hsec)
          as [Est _].
        rewrite Est. simpl bind.
        destruct (confirm_loop primary (s0 :: srest) (confirm_window cfg))
          as [res [E [L Hbars]]].
        exists res. split; [exact E|]. split; [congruence|].
        intros i Hi. rewrite (Hbars i) by lia. unfold confirm_bar. cbv zeta.
        unfold len. rewrite Lp.
        pose proof (window_hit_confirmed (s0 :: srest) n i (confirm_window cfg)
                      (nth i primary 0) Hsec Hi Hw) as Hhit.
        assert (Hconf : confirmed cfg signals n i (nth i primary 0) <->
                        exists arr k, In arr (s0 :: srest) /\
                          Z.of_nat i - confirm_window cfg <= Z.of_nat k
                            <= Z.of_nat i + confirm_window cfg /\
                          (k < n)%nat /\ nth k arr 0 = nth i primary 0).
        { unfold confirmed. rewrite <- Es. split.
          - intros [arr [k [Ha R]]]. exists arr, k.
            split; [now apply in_secondary_arrays | exact R].
          - intros [arr [k [Ha R]]]. exists arr, k.
            split; [now apply in_secondary_arrays | exact R]. }
        destruct (Z.eqb_spec (nth i primary 0) 0) as [Ez|Nz].
        -- split; [reflexivity | intros; contradiction].
        -- split; [intros; contradiction|]. intros _.
           destruct (existsb (existsb (fun x => x =? nth i primary 0))
                       (map (fun r => py_slice r (Z.max 0 (Z.of_nat i - confirm_window cfg))
                                 (Z.min (Z.of_nat n) (Z.of_nat i + confirm_window cfg + 1)))
                            (s0 :: srest))).
           ++ split; [reflexivity|]. intros Hn. exfalso. apply Hn.
              apply Hconf. now apply Hhit.
           ++ split; [|reflexivity]. intros Hc. apply Hconf in Hc.
              apply Hhit in Hc. discriminate.
      * intros Hn. exfalso. apply Hn. exists s0.
        apply in_secondary_arrays. rewrite Es. now left.
  - intros [Hnone | [c [Hp Hg]]].
    + rewrite Hnone in Hhd. simpl in Hhd.
      destruct (map name (filter (fun c0 => String.eqb (role c0) "primary") (indicators cfg)));
        [reflexivity | discriminate].
    + rewrite Hp in Hhd. simpl in Hhd.
      destruct (map name (filter (fun c0 => String.eqb (role c0) "primary") (indicators cfg)))
        as [|pn rest]; [discriminate|].
      simpl in Hhd. inversion Hhd; subst pn. now rewrite Hg.
Qed.

Lemma combine_confirm_within_window_witness :
  (forall c primary,
     primary_config (confirm_config 1) = Some c ->
     dict_get [("p", [1; 0; -1; 1]); ("s", [0; 1; 0; 0])] (name c) = Some primary ->
     ((exists arr, secondary_array (confirm_config 1)
                     [("p", [1; 0; -1; 1]); ("s", [0; 1; 0; 0])] arr) ->
      exists res,
        combine (confirm_config 1) [("p", [1; 0; -1; 1]); ("s", [0; 1; 0; 0])] = Ok res /\
        length res = 4%nat /\
        forall i, (i < 4)%nat ->
          (nth i primary 0 = 0 -> nth i res 0 = 0) /\
          (nth i primary 0 <> 0 ->
             (confirmed (confirm_config 1) [("p", [1; 0; -1; 1]); ("s", [0; 1; 0; 0])] 4 i
                (nth i primary 0) -> nth i res 0 = nth i primary 0) /\
             (~ confirmed (confirm_config 1) [("p", [1; 0; -1; 1]); ("s", [0; 1; 0; 0])] 4 i
                  (nth i primary 0) -> nth i res 0 = 0))) /\
     ((~ exists arr, secondary_array (confirm_config 1)
                       [("p", [1; 0; -1; 1]); ("s", [0; 1; 0; 0])] arr) ->
      combine (confirm_config 1) [("p", [1; 0; -1; 1]); ("s", [0; 1; 0; 0])] = Ok primary)) /\
  ((primary_config (confirm_config 1) = None \/
    exists c, primary_config (confirm_config 1) = Some c /\
              dict_get [("p", [1; 0; -1; 1]); ("s", [0; 1; 0; 0])] (name c) = None) ->
   combine (confirm_config 1) [("p", [1; 0; -1; 1]); ("s", [0; 1; 0; 0])]
   = combine (with_mode AND (confirm_config 1)) [("p", [1; 0; -1; 1]); ("s", [0; 1; 0; 0])]).
Proof.
  apply (combine_confirm_within_window (confirm_config 1)
           [("p", [1; 0; -1; 1]); ("s", [0; 1; 0; 0])] 4).
  - reflexivity.
  - discriminate.
  - repeat constructor.
  - simpl. lia.
Defined.

Example confirm_scenario :
  combine (confirm_config 1) [("p", [1; 0; -1; 1]); ("s", [0; 1; 0; 0])]
  = Ok [1; 0; 0; 0].
Proof. reflexivity. Qed.

(** ** binary64: a window converted to float, plus one, is not zero

    The facts below are read off the specification of the primitive floats
    ([SpecFloat], [FloatAxioms]): rounding a positive integer mantissa with an
    exponent in range never produces a zero. *)

Lemma digits2_pos_size (p : positive) : digits2_pos p = Pos.size p.
Proof. induction p; simpl; congruence. Qed.

Lemma digits2_pos_lower (p : positive) :
  2 ^ (Z.pos (digits2_pos p) - 1) <= Z.pos p.
Proof.
  rewrite digits2_pos_size.
  pose proof (Pos.size_le p) as H.
  apply Pos2Z.pos_le_pos in H. rewrite Pos2Z.inj_pow in H.
  change (Z.pos p~0) with (2 * Z.pos p) in H.
  set (k := Z.pos (Pos.size p)) in *.
  assert (E : 2 ^ k = 2 * 2 ^ (k - 1)).
  { replace k with (1 + (k - 1)) at 1 by lia.
    rewrite Z.pow_add_r by (subst k; lia). reflexivity. }
  lia.
Qed.

Lemma shr_m_shr_1 (mrs : shr_record) :
  0 <= shr_m mrs -> shr_m (shr_1 mrs) = shr_m mrs / 2.
Proof.
  destruct mrs as [m r s]. simpl. intros H.
  destruct m as [|p|p]; [reflexivity | | lia].
  destruct p as [p|p|]; simpl.
  - rewrite Pos2Z.inj_xI. apply (Z.div_unique _ 2 _ 1); lia.
  - rewrite Pos2Z.inj_xO. apply (Z.div_unique _ 2 _ 0); lia.
  - reflexivity.
Qed.

Lemma shr_m_iter_pos (n : positive) :
  forall mrs, 0 <= shr_m mrs ->
    shr_m (SpecFloat.iter_pos shr_1 n mrs) = shr_m mrs / 2 ^ Z.pos n.
Proof.
  induction n as [n IH|n IH|]; intros mrs H; simpl SpecFloat.iter_pos.
  - assert (H1 : 0 <= shr_m (shr_1 mrs))
      by (rewrite shr_m_shr_1 by exact H; apply Z.div_pos; lia).
    assert (H2 : 0 <= shr_m (SpecFloat.iter_pos shr_1 n (shr_1 mrs)))
      by (rewrite IH by exact H1; apply Z.div_pos; [exact H1 | apply Z.pow_pos_nonneg; lia]).
    rewrite IH by exact H2. rewrite IH by exact H1. rewrite shr_m_shr_1 by exact H.
    rewrite !Z.div_div by (try apply Z.pow_pos_nonneg; lia).
    f_equal. change (Z.pos n~1) with (2 * Z.pos n + 1).
    replace (2 * Z.pos n + 1) with (1 + Z.pos n + Z.pos n) by lia.
    rewrite !Z.pow_add_r by lia. change (2 ^ 1) with 2. lia.
  - assert (H2 : 0 <= shr_m (SpecFloat.iter_pos shr_1 n mrs))
      by (rewrite IH by exact H; apply Z.div_pos; [exact H | apply Z.pow_pos_nonneg; lia]).
    rewrite IH by exact H2. rewrite IH by exact H.
    rewrite !Z.div_div by (try apply Z.pow_pos_nonneg; lia).
    f_equal. change (Z.pos n~0) with (2 * Z.pos n).
    replace (2 * Z.pos n) with (Z.pos n + Z.pos n) by lia.
    rewrite !Z.pow_add_r by lia. reflexivity.
  - rewrite shr_m_shr_1 by exact H. reflexivity.
Qed.

Lemma shr_m_record_of_loc (m : Z) (l : location) :
  shr_m (shr_record_of_loc m l) = m.
Proof. destruct l as [|[| |]]; reflexivity. Qed.

(** Shifting a positive mantissa down to its format exponent keeps it
    positive, as long as the exponent is not below [emin]. *)
Lemma shr_fexp_positive (q : positive) (ex : Z) (lx : location) :
  SpecFloat.emin prec emax <= ex ->
  0 < shr_m (fst (shr_fexp prec emax (Z.pos q) ex lx)) /\
  ex <= snd (shr_fexp prec emax (Z.pos q) ex lx).
Proof.
  intros He. unfold shr_fexp, shr.
  set (n := fexp prec emax (Zdigits2 (Z.pos q) + ex) - ex).
  assert (Hn : n <= Z.pos (digits2_pos q) - 1).
  { subst n. unfold fexp, SpecFloat.emin, prec, emax in *. simpl Zdigits2.
    pose proof (Pos2Z.is_pos (digits2_pos q)). lia. }
  destruct n as [|p|p] eqn:En; simpl fst; simpl snd.
  - rewrite shr_m_record_of_loc. lia.
  - rewrite shr_m_iter_pos by (rewrite shr_m_record_of_loc; lia).
    rewrite shr_m_record_of_loc. split; [|lia].
    apply Z.div_str_pos. split; [apply Z.pow_pos_nonneg; lia|].
    pose proof (digits2_pos_lower q) as Hq.
    assert (2 ^ Z.pos p <= 2 ^ (Z.pos (digits2_pos q) - 1))
      by (apply Z.pow_le_mono_r; lia).
    lia.
  - rewrite shr_m_record_of_loc. lia.
Qed.

Lemma round_nearest_even_positive (m : Z) (l : location) :
  0 < m -> 0 < round_nearest_even m l.
Proof.
  intros H. destruct l as [|[| |]]; simpl; try lia.
  destruct (Z.even m); lia.
Qed.

Lemma binary_round_aux_nonzero (sx : bool) (q : positive) (ex : Z) (lx : location) :
  SpecFloat.emin prec emax <= ex ->
  finite_or_infinite sx (binary_round_aux prec emax sx (Z.pos q) ex lx).
Proof.
  intros He. unfold binary_round_aux.
  pose proof (shr_fexp_positive q ex lx He) as [H1 H1e].
  destruct (shr_fexp prec emax (Z.pos q) ex lx) as [mrs' e'].
  simpl fst in H1. simpl snd in H1e.
  pose proof (round_nearest_even_positive (shr_m mrs') (loc_of_shr_record mrs') H1) as H2.
  destruct (round_nearest_even (shr_m mrs') (loc_of_shr_record mrs')) as [|q'|q'];
    try lia.
  pose proof (shr_fexp_positive q' e' loc_Exact ltac:(lia)) as [H3 H3e].
  destruct (shr_fexp prec emax (Z.pos q') e' loc_Exact) as [mrs'' e''].
  simpl fst in H3. simpl snd in H3e.
  destruct (shr_m mrs'') as [|m|m]; try lia.
  destruct (e'' <=? emax - prec).
  - left. exists m, e''. split; [reflexivity | lia].
  - now right.
Qed.

Lemma binary_round_nonzero (sx : bool) (p : positive) (ex : Z) :
  SpecFloat.emin prec emax <= ex ->
  finite_or_infinite sx (binary_round prec emax sx p ex).
Proof.
  intros He. unfold binary_round.
  destruct (shl_align p ex (fexp prec emax (Z.pos (digits2_pos p) + ex)))
    as [mz ez] eqn:Es.
  apply binary_round_aux_nonzero.
  unfold shl_align in Es.
  destruct (fexp prec emax (Z.pos (digits2_pos p) + ex) - ex) eqn:Ed;
    inversion Es; subst; try exact He.
  unfold fexp. lia.
Qed.

Lemma SFeqb_nonzero (x : spec_float) :
  finite_or_infinite false x -> SFeqb x (S754_zero false) = false.
Proof.
  intros [[m [e [E _]]] | E]; subst x; reflexivity.
Qed.

(** [float(window) + 1.0] is not zero for a non-negative window, so the
    smoothing constant [2.0 / (window + 1.0)] is defined. *)
Lemma window_plus_one_nonzero (window : Z) :
  0 <= window -> PrimFloat.eqb (PrimFloat.add (Z2f window) 1) 0 = false.
Proof.
  intros Hw. rewrite eqb_spec, add_spec.
  change (Prim2SF 0) with (S754_zero false).
  change (Prim2SF 1) with (S754_finite false 4503599627370496 (-52)).
  apply SFeqb_nonzero.
  unfold Z2f. destruct (Z.ltb_spec window 0) as [|_]; [lia|].
  rewrite of_uint63_spec. unfold binary_normalize.
  pose proof (Uint63.to_Z_bounded (Uint63.of_Z window)) as Hb.
  destruct (Uint63Axioms.to_Z (Uint63.of_Z window)) as [|p|p]; [| |lia].
  - left. exists 4503599627370496%positive, (-52). split; [reflexivity|].
    unfold SpecFloat.emin, prec, emax. lia.
  - destruct (binary_round_nonzero false p 0) as [[m [e [E He]]] | E].
    + unfold SpecFloat.emin, prec, emax. lia.
    + rewrite E. unfold SF64add, SFadd.
      set (ez := Z.min e (-52)).
      assert (Hez : SpecFloat.emin prec emax <= ez)
        by (subst ez; unfold SpecFloat.emin, prec, emax in *; lia).
      simpl cond_Zopp.
      apply (binary_round_nonzero false _ ez Hez).
    + rewrite E. right. reflexivity.
Qed.

(** A positive integer of the 63-bit range converts to a non-zero float. *)
Lemma Z2f_nonzero (l : Z) :
  0 < l < 2 ^ 63 -> PrimFloat.eqb (Z2f l) 0 = false.
Proof.
  intros Hl. rewrite eqb_spec.
  change (Prim2SF 0) with (S754_zero false).
  apply SFeqb_nonzero.
  unfold Z2f. destruct (Z.ltb_spec l 0) as [|_]; [lia|].
  rewrite of_uint63_spec, Uint63.of_Z_spec.
  rewrite Z.mod_small by (change Uint63Axioms.wB with (2 ^ 63); lia).
  destruct l as [|p|p]; try lia.
  apply binary_round_nonzero. unfold SpecFloat.emin, prec, emax. lia.
Qed.

(** ** The moving-average kernels *)

(** The partial-correctness rule of the counted loop: an invariant that
    every iteration which returns re-establishes holds of the final state. *)
Lemma for_loop_returns {S : Type} (P : Z -> S -> Prop)
    (body : Z -> S -> result S) (count : nat) (lo : Z) (s s' : S) :
  P lo s ->
  (forall i st st', lo <= i < lo + Z.of_nat count -> P i st ->
                    body i st = Ok st' -> P (i + 1) st') ->
  for_loop count lo body s = Ok s' ->
  P (lo + Z.of_nat count) s'.
Proof.
  revert lo s. induction count as [|c IH]; intros lo s H0 Hstep E.
  - simpl in E. inversion E; subst. now rewrite Z.add_0_r.
  - simpl in E. apply bind_Ok_inv in E. destruct E as [s1 [E1 E2]].
    replace (lo + Z.of_nat (Datatypes.S c)) with (lo + 1 + Z.of_nat c) by lia.
    apply (IH (lo + 1) s1).
    + apply (Hstep lo s s1); [lia | exact H0 | exact E1].
    + intros i st st' Hi. apply Hstep. lia.
    + exact E2.
Qed.

Lemma for_range_returns {S : Type} (P : Z -> S -> Prop)
    (body : Z -> S -> result S) (lo hi : Z) (s s' : S) :
  lo <= hi ->
  P lo s ->
  (forall i st st', lo <= i < hi -> P i st -> body i st = Ok st' -> P (i + 1) st') ->
  for_range lo hi body s = Ok s' ->
  P hi s'.
Proof.
  intros Hle H0 Hstep E. unfold for_range in E.
  replace hi with (lo + Z.of_nat (Z.to_nat (hi - lo))) at 1 by lia.
  apply (for_loop_returns P body _ lo s s' H0); [|exact E].
  intros i st st' Hi. apply Hstep. lia.
Qed.

Lemma setitem_length {A : Type} (a a' : list A) (i : Z) (x : A) :
  setitem a i x = Ok a' -> length a' = length a.
Proof.
  unfold setitem. destruct (norm_index a i); [|discriminate].
  intros E. inversion E; subst. apply list_set_length.
Qed.

Lemma np_empty_length (n : nat) : length (np_empty n) = n.
Proof. apply repeat_length. Qed.

Lemma list_all_nth {A : Type} (d x : A) (l : list A) :
  (forall k, (k < length l)%nat -> nth k l d = x) -> l = repeat x (length l).
Proof.
  induction l as [|h t IH]; intros H; [reflexivity|].
  simpl. f_equal.
  - apply (H 0%nat). simpl. lia.
  - apply IH. intros k Hk. apply (H (Datatypes.S k)). simpl. lia.
Qed.

(** *** EMA and DEMA *)

(** The EMA kernel returns an array of the length of its input. *)
Lemma ema_1d_nb_length (src out : list float) (window : Z) :
  ema_1d_nb src window = Ok out -> length out = length src.
Proof.
  unfold ema_1d_nb. intros E.
  apply bind_Ok_inv in E. destruct E as [alpha [_ E]].
  apply bind_Ok_inv in E. destruct E as [x0 [_ E]].
  apply bind_Ok_inv in E. destruct E as [out0 [E0 E]].
  apply setitem_length in E0. rewrite np_empty_length in E0.
  destruct (Z_le_gt_dec 1 (len src)) as [Hn|Hn].
  - revert E.
    apply for_range_returns with (P := fun _ o => length o = length src);
      [exact Hn | exact E0 |].
    intros i st st' _ HL Eb.
    apply bind_Ok_inv in Eb. destruct Eb as [x [_ Eb]].
    apply bind_Ok_inv in Eb. destruct Eb as [prev [_ Eb]].
    apply setitem_length in Eb. congruence.
  - rewrite for_range_empty in E by lia. inversion E; subst. exact E0.
Qed.

(** The EMA kernel returns on every non-empty series whenever its smoothing
    constant [2.0 / (window + 1.0)] has a non-zero divisor, and the array it
    returns is seeded with [src[0]] and follows the recurrence. *)
Lemma ema_1d_nb_returns (src : list float) (window : Z) :
  src <> [] ->
  PrimFloat.eqb (PrimFloat.add (Z2f window) 1) 0 = false ->
  exists out,
    ema_1d_nb src window = Ok out /\ length out = length src /\
    nth 0 out 0%float = nth 0 src 0%float /\
    forall i, (1 <= i < length src)%nat ->
      nth i out 0%float
      = (let alpha := PrimFloat.div 2 (PrimFloat.add (Z2f window) 1) in
         alpha * nth i src 0 + (1 - alpha) * nth (i - 1) out 0)%float.
Proof.
  intros Hne Ha. unfold ema_1d_nb, fdiv. rewrite Ha. simpl bind.
  assert (Hn : 0 < len src).
  { unfold len. destruct src; [congruence | simpl; lia]. }
  rewrite (getitem_in_range 0%float src 0) by lia. simpl bind.
  rewrite setitem_in_range by (unfold len in *; rewrite np_empty_length; lia).
  simpl bind. change (Z.to_nat 0) with 0%nat.
  set (alpha := PrimFloat.div 2 (PrimFloat.add (Z2f window) 1)).
  set (out0 := list_set (np_empty (length src)) 0 (nth 0 src 0%float)).
  set (P := fun (i : Z) (o : list float) =>
              length o = length src /\
              nth 0 o 0%float = nth 0 src 0%float /\
              forall k, (1 <= k)%nat -> Z.of_nat k < i ->
                nth k o 0%float
                = (alpha * nth k src 0 + (1 - alpha) * nth (k - 1) o 0)%float).
  destruct (for_range_invariant P
              (fun i o =>
                 x <- getitem src i ;;
                 prev <- getitem o (i - 1) ;;
                 setitem o i (alpha * x + (1 - alpha) * prev)%float)
              1 (len src) out0) as [out [E [L [H0 Hrec]]]].
  - lia.
  - unfold P. subst out0. split; [now rewrite list_set_length, np_empty_length|].
    split; [apply nth_list_set_eq; rewrite np_empty_length; unfold len in Hn; lia|].
    intros; lia.
  - intros i o Hi [HL [H0 Hrec]].
    rewrite (getitem_in_range 0%float src i) by lia. simpl bind.
    rewrite (getitem_in_range 0%float o (i - 1)) by (unfold len in *; lia).
    simpl bind.
    rewrite setitem_in_range by (unfold len in *; lia).
    eexists. split; [reflexivity|]. unfold P.
    split; [now rewrite list_set_length|]. split.
    + rewrite nth_list_set_neq by lia. exact H0.
    + intros k Hk1 Hk. destruct (Z.eq_dec (Z.of_nat k) i) as [Ek|Nk].
      * replace (Z.to_nat i) with k by lia.
        rewrite nth_list_set_eq by (unfold len in Hi; lia).
        rewrite nth_list_set_neq by lia.
        replace (Z.to_nat (i - 1)) with (k - 1)%nat by lia.
        replace (Z.to_nat i) with k by lia. reflexivity.
      * rewrite !nth_list_set_neq by lia. apply Hrec; lia.
  - exists out. split; [exact E|]. split; [exact L|]. split; [exact H0|].
    intros i Hi. apply Hrec; unfold len; lia.
Qed.

(** The DEMA kernel and the chain of two runs of the EMA kernel fail
    together and return together, whatever the window and the series; when
    they return, the DEMA output is the pointwise combination of the two EMA
    outputs. *)
Lemma dema_chain_total (src : list float) (window : Z) :
  match ema_1d_nb src window with
  | Raise e => dema_1d_nb src window = Raise e
  | Ok e1 =>
      match ema_1d_nb e1 window with
      | Raise e => dema_1d_nb src window = Raise e
      | Ok e2 =>
          exists out,
            dema_1d_nb src window = Ok out /\
            length out = length src /\
            forall i, (i < length src)%nat ->
              nth i out 0%float = (2 * nth i e1 0 - nth i e2 0)%float
      end
  end.
Proof.
  unfold dema_1d_nb.
  destruct (ema_1d_nb src window) as [e1|e] eqn:E1; [|reflexivity].
  simpl bind.
  destruct (ema_1d_nb e1 window) as [e2|e] eqn:E2; [|reflexivity].
  simpl bind.
  pose proof (ema_1d_nb_length _ _ _ E1) as L1.
  pose proof (ema_1d_nb_length _ _ _ E2) as L2.
  set (P := fun (i : Z) (o : list float) =>
              length o = length src /\
              forall k, Z.of_nat k < i ->
                nth k o 0%float = (2 * nth k e1 0 - nth k e2 0)%float).
  destruct (for_range_invariant P
              (fun i o =>
                 a <- getitem e1 i ;;
                 b <- getitem e2 i ;;
                 setitem o i (2 * a - b)%float)
              0 (len src) (np_empty (length src))) as [out [E [L H]]].
  - unfold len. lia.
  - unfold P. split; [apply np_empty_length | intros; lia].
  - intros i o Hi [HL Hdone].
    rewrite (getitem_in_range 0%float e1 i) by (unfold len in *; lia).
    simpl bind.
    rewrite (getitem_in_range 0%float e2 i) by (unfold len in *; lia).
    simpl bind.
    rewrite setitem_in_range by (unfold len in *; lia).
    eexists. split; [reflexivity|]. unfold P.
    split; [now rewrite list_set_length|].
    intros k Hk. destruct (Z.eq_dec (Z.of_nat k) i) as [Ek|Nk].
    + replace (Z.to_nat i) with k by lia.
      rewrite nth_list_set_eq by (unfold len in Hi; lia). reflexivity.
    + rewrite nth_list_set_neq by lia. apply Hdone. lia.
  - exists out. split; [exact E|]. split; [exact L|].
    intros i Hi. apply H. unfold len. lia.
Qed.

(** C5 (MA-chain identity).  For every window [n >= 1] and every non-empty
    series, the EMA kernel returns [e1] on the series (seeded with
    [e1[0] = src[0]]) and [e2] on [e1], the DEMA kernel returns, its output
    has the length of the series, and at every index it is the very float
    [2*e1[i] - e2[i]]: the chain uses the outputs of the EMA kernel itself.
    Wherever that value is not NaN the floating-point comparison [==] holds
    as well. *)
Theorem dema_chain_identity (src : list float) (window : Z) :
  1 <= window ->
  src <> [] ->
  exists e1 e2 out,
    ema_1d_nb src window = Ok e1 /\
    ema_1d_nb e1 window = Ok e2 /\
    dema_1d_nb src window = Ok out /\
    nth 0 e1 0%float = nth 0 src 0%float /\
    nth 0 e2 0%float = nth 0 e1 0%float /\
    length out = length src /\
    forall i, (i < length src)%nat ->
      nth i out 0%float = (2 * nth i e1 0 - nth i e2 0)%float /\
      (PrimFloat.is_nan (nth i out 0%float) = false ->
       PrimFloat.eqb (nth i out 0%float) (2 * nth i e1 0 - nth i e2 0)%float = true).
Proof.
  intros Hw Hne.
  assert (Ha : PrimFloat.eqb (PrimFloat.add (Z2f window) 1) 0 = false)
    by (apply window_plus_one_nonzero; lia).
  destruct (ema_1d_nb_returns src window Hne Ha) as [e1 [E1 [L1 [S1 _]]]].
  assert (Hne1 : e1 <> [])
    by (destruct e1; [destruct src; [congruence|discriminate] | discriminate]).
  destruct (ema_1d_nb_returns e1 window Hne1 Ha) as [e2 [E2 [_ [S2 _]]]].
  pose proof (dema_chain_total src window) as H.
  rewrite E1, E2 in H. destruct H as [out [E [L Hi]]].
  exists e1, e2, out. repeat split; try assumption.
  - now apply Hi.
  - intros Hnan. rewrite <- (Hi i H).
    unfold PrimFloat.is_nan in Hnan. now apply negb_false_iff in Hnan.
Qed.

Lemma dema_chain_identity_witness :
  exists e1 e2 out,
    ema_1d_nb [1; 2; 4]%float 3 = Ok e1 /\
    ema_1d_nb e1 3 = Ok e2 /\
    dema_1d_nb [1; 2; 4]%float 3 = Ok out /\
    nth 0 e1 0%float = nth 0 [1; 2; 4]%float 0%float /\
    nth 0 e2 0%float = nth 0 e1 0%float /\
    length out = length [1; 2; 4]%float /\
    forall i, (i < length [1; 2; 4]%float)%nat ->
      nth i out 0%float = (2 * nth i e1 0 - nth i e2 0)%float /\
      (PrimFloat.is_nan (nth i out 0%float) = false ->
       PrimFloat.eqb (nth i out 0%float) (2 * nth i e1 0 - nth i e2 0)%float = true).
Proof.
  apply (dema_chain_identity [1; 2; 4]%float 3).
  - lia.
  - discriminate.
Defined.

(** On the empty series the seed [out[0] = src[0]] is out of range. *)
Lemma dema_1d_nb_empty (window : Z) :
  1 <= window ->
  ema_1d_nb [] window = Raise IndexError /\
  dema_1d_nb [] window = Raise IndexError.
Proof.
  intros Hw.
  assert (Ha : PrimFloat.eqb (PrimFloat.add (Z2f window) 1) 0 = false)
    by (apply window_plus_one_nonzero; lia).
  assert (E : ema_1d_nb [] window = Raise IndexError)
    by (unfold ema_1d_nb, fdiv; rewrite Ha; reflexivity).
  split; [exact E|]. unfold dema_1d_nb. now rewrite E.
Qed.

Example dema_run :
  ema_1d_nb [1; 2; 4]%float 3 = Ok [1; 1.5; 2.75]%float /\
  ema_1d_nb [1; 1.5; 2.75]%float 3 = Ok [1; 1.25; 2]%float /\
  dema_1d_nb [1; 2; 4]%float 3 = Ok [1; 1.75; 3.5]%float.
Proof. repeat split; reflexivity. Qed.

(** *** SMA and WMA with a window longer than the series *)



(** Within the series the two kernels do compute full windows. *)
Example sma_wma_full_windows :
  sma_1d_nb [1; 2; 3; 4]%float 2 = Ok [nan; 1.5; 2.5; 3.5]%float /\
  wma_1d_nb [3; 6; 9]%float 2 = Ok [nan; 5; 8]%float.
Proof. split; reflexivity. Qed.

(** *** McGinley Dynamic *)

(** The guard of the kernel: where the previous output is [0.0] (of either
    sign) the output is the raw input, whatever the series and the window. *)
Lemma mcginley_pass_through (src out : list float) (window : Z) (i : nat) :
  mcginley_1d_nb src window = Ok out ->
  (1 <= i < length src)%nat ->
  PrimFloat.eqb (nth (i - 1) out 0%float) 0 = true ->
  nth i out 0%float = nth i src 0%float.
Proof.
  unfold mcginley_1d_nb. intros E Hi Hz.
  apply bind_Ok_inv in E. destruct E as [x0 [_ E]].
  apply bind_Ok_inv in E. destruct E as [out0 [E0 E]].
  apply setitem_length in E0. rewrite np_empty_length in E0.
  set (P := fun (j : Z) (o : list float) =>
              length o = length src /\
              forall k, (1 <= k)%nat -> Z.of_nat k < j ->
                PrimFloat.eqb (nth (k - 1) o 0%float) 0 = true ->
                nth k o 0%float = nth k src 0%float).
  assert (F : P (len src) out).
  { revert E. apply for_range_returns with (P := P).
    - unfold len. lia.
    - unfold P. split; [exact E0 | intros; lia].
    - intros j o o' Hj [HL Hdone] Eb.
      apply bind_Ok_inv in Eb. destruct Eb as [prev [Ep Eb]].
      rewrite (getitem_in_range 0%float o (j - 1)) in Ep by (unfold len in *; lia).
      inversion Ep; subst prev; clear Ep.
      assert (W : exists v, setitem o j v = Ok o' /\
                   (PrimFloat.eqb (nth (Z.to_nat (j - 1)) o 0%float) 0 = true ->
                    v = nth (Z.to_nat j) src 0%float)).
      { destruct (PrimFloat.eqb (nth (Z.to_nat (j - 1)) o 0%float) 0).
        - apply bind_Ok_inv in Eb. destruct Eb as [x [Ex Eb]].
          rewrite (getitem_in_range 0%float src j) in Ex by lia.
          inversion Ex; subst x. eauto.
        - apply bind_Ok_inv in Eb. destruct Eb as [x [_ Eb]].
          apply bind_Ok_inv in Eb. destruct Eb as [ratio [_ Eb]].
          apply bind_Ok_inv in Eb. destruct Eb as [x' [_ Eb]].
          apply bind_Ok_inv in Eb. destruct Eb as [q [_ Eb]].
          eexists. split; [exact Eb | discriminate]. }
      destruct W as [v [Es Hv]].
      rewrite setitem_in_range in Es by (unfold len in *; lia).
      inversion Es; subst o'; clear Es. unfold P.
      split; [now rewrite list_set_length|].
      intros k Hk1 Hk Hzero. destruct (Z.eq_dec (Z.of_nat k) j) as [Ek|Nk].
      + replace (Z.to_nat j) with k in * by lia.
        rewrite nth_list_set_neq in Hzero by lia.
        rewrite nth_list_set_eq by (unfold len in Hj; lia).
        apply Hv. now replace (Z.to_nat (j - 1)) with (k - 1)%nat by lia.
      + rewrite nth_list_set_neq in Hzero by lia.
        rewrite nth_list_set_neq by lia. apply Hdone; auto. lia. }
  destruct F as [_ F]. apply F; [lia | unfold len; lia | exact Hz].
Qed.

(** The division by [prev] is only reached with a non-zero [prev], where it
    cannot raise. *)
Lemma mcginley_ratio_defined (x prev : float) :
  PrimFloat.eqb prev 0 = false -> fdiv x prev = Ok (x / prev)%float.
Proof. intros H. unfold fdiv. now rewrite H. Qed.

(** C7.  The guard protects the division by [prev] only.  On the series
    [1.0, 0.0] with window 10 the previous output at bar 1 is [1.0], so the
    division branch runs; there [ratio = 0.0/1.0 = 0.0], the second divisor
    [window * ratio**4] is [0.0], and the branch divides [src[1] - prev] by
    zero: the kernel raises [ZeroDivisionError]. *)
Theorem mcginley_division_branch_divides_by_zero :
  mcginley_1d_nb [1; 0]%float 10 = Raise ZeroDivisionError /\
  PrimFloat.eqb 1 0 = false /\
  fdiv 0 1 = Ok 0%float /\
  PrimFloat.eqb (Z2f 10 * pow4 0)%float 0 = true.
Proof. repeat split; reflexivity. Qed.

Example mcginley_runs :
  mcginley_1d_nb [0; 2; 3]%float 10 = Ok [0; 2; 0x1.028744e6157ddp+1]%float /\
  mcginley_1d_nb [1; 2]%float 10 = Ok [1; 0x1.019999999999ap+0]%float.
Proof. split; reflexivity. Qed.

(** ** The Sniper controller *)

Lemma nth_error_last {A : Type} (l : list A) :
  l <> [] -> nth_error l (length l - 1) = hd_error (rev l).
Proof.
  intros Hne. destruct (exists_last Hne) as [l' [x E]]. subst l.
  rewrite rev_app_distr. simpl.
  rewrite length_app. simpl.
  rewrite nth_error_app2 by lia.
  replace (length l' + 1 - 1 - length l')%nat with 0%nat by lia. reflexivity.
Qed.

Lemma latest_defined_non_missing (arr : list float) :
  SniperController.latest_defined arr = Ok (non_missing arr).
Proof.
  unfold SniperController.latest_defined, non_missing, latest.
  destruct arr as [|x arr].
  - reflexivity.
  - assert (Hne : x :: arr <> []) by discriminate.
    destruct (Z.ltb_spec 0 (len (x :: arr))) as [Hl|Hl];
      [|unfold len in Hl; simpl in Hl; lia].
    unfold getitem, norm_index.
    change (-1 <? 0) with true. cbv iota.
    destruct (Z.leb_spec 0 (-1 + len (x :: arr))); [|lia].
    destruct (Z.ltb_spec (-1 + len (x :: arr)) (len (x :: arr))); [|lia].
    simpl andb. cbv iota.
    replace (Z.to_nat (-1 + len (x :: arr))) with (length (x :: arr) - 1)%nat
      by (unfold len; lia).
    rewrite (nth_error_last (x :: arr) Hne).
    destruct (hd_error (rev (x :: arr))) as [y|] eqn:Ey; [reflexivity|].
    exfalso. destruct (rev (x :: arr)) eqn:Er; [|discriminate].
    apply (f_equal (@length float)) in Er. rewrite length_rev in Er. discriminate.
Qed.

Lemma derived_signal_range (mb ms : list float) : is_signal (derived_signal mb ms).
Proof.
  unfold derived_signal, is_signal.
  destruct (non_missing mb); [lia|]. destruct (non_missing ms); lia.
Qed.

Section SniperFacts.

Variable run :
  list float -> list float -> list float -> list float ->
  SniperController.SniperParams -> result SniperController.SniperResult.

Lemma compute_signal_derivation (cfg : SniperController.SniperControllerConfig)
    (df : SniperController.DataFrame) :
  SniperController.compute_signal run cfg df
  = (res <- indicator_outputs run cfg df ;;
     Ok (derived_signal (SniperController.major_buy res)
                        (SniperController.major_sell res))).
Proof.
  unfold SniperController.compute_signal, indicator_outputs.
  destruct (SniperController.ohlcv_column df "close" "Close"); [|reflexivity].
  destruct (SniperController.ohlcv_column df "high" "High"); [|reflexivity].
  destruct (SniperController.ohlcv_column df "low" "Low"); [|reflexivity].
  destruct (SniperController.ohlcv_column df "volume" "Volume"); [|reflexivity].
  simpl bind.
  match goal with |- context [run ?a ?b ?c ?d ?p] => destruct (run a b c d p) as [res|e] end;
    [|reflexivity].
  simpl bind. rewrite !latest_defined_non_missing. simpl bind.
  unfold derived_signal.
  destruct (non_missing (SniperController.major_buy res)); [reflexivity|].
  simpl bind. destruct (non_missing (SniperController.major_sell res)); reflexivity.
Qed.

(** C9.  Whatever the indicator pipeline returns on the frame, the signal
    [compute_signal] derives is 1 if the latest [major_buy] is non-missing,
    otherwise -1 if the latest [major_sell] is non-missing, otherwise 0 (the
    buy check first); an exception of the pipeline is passed on.  Every signal
    it returns is in [{-1,0,1}], and so is the controller's signal after
    [update_processed_data] on any frame (empty frames keep the previous
    signal, an exception yields 0), starting from the initial signal 0. *)
Theorem sniper_signal_derivation (cfg : SniperController.SniperControllerConfig)
    (df : SniperController.DataFrame) (current : Z) :
  SniperController.compute_signal run cfg df
  = (res <- indicator_outputs run cfg df ;;
     Ok (derived_signal (SniperController.major_buy res)
                        (SniperController.major_sell res))) /\
  (forall s, SniperController.compute_signal run cfg df = Ok s -> is_signal s) /\
  is_signal (SniperController.update_processed_data run cfg 0 df) /\
  (is_signal current ->
   is_signal (SniperController.update_processed_data run cfg current df)).
Proof.
  pose proof (compute_signal_derivation cfg df) as D.
  assert (R : forall s, SniperController.compute_signal run cfg df = Ok s -> is_signal s).
  { intros s E. rewrite D in E. apply bind_Ok_inv in E.
    destruct E as [res [_ E]]. inversion E; subst. apply derived_signal_range. }
  assert (U : forall c, is_signal c ->
                is_signal (SniperController.update_processed_data run cfg c df)).
  { intros c Hc. unfold SniperController.update_processed_data.
    destruct (negb (SniperController.df_empty df)); [|exact Hc].
    destruct (SniperController.compute_signal run cfg df) as [s|e] eqn:E.
    - now apply R.
    - unfold is_signal. lia. }
  split; [exact D|]. split; [exact R|]. split; [|apply U].
  apply U. unfold is_signal. lia.
Qed.

Lemma resolve_loop_never_matches (items : list (string * Z)) (cfg_ma_type : string)
    (init : SniperController.pyobj) :
  SniperController.resolve_loop items cfg_ma_type init = init.
Proof.
  induction items as [|[idx name] rest IH]; simpl; [reflexivity | exact IH].
Qed.

(** C10.  The name-resolution loop compares each integer code with the
    configured string, which never compare equal, so for every configured
    name the resolved index is the initial 0 (the SMA code); two runs on the
    same frame whose configurations differ only in the [ma_type] name hand the
    same arguments to the indicator and return the same result. *)
Theorem ma_type_name_is_ignored (cfg1 cfg2 : SniperController.SniperControllerConfig)
    (df : SniperController.DataFrame) :
  same_but_ma_type cfg1 cfg2 ->
  (forall name : string,
     SniperController.resolve_ma_type_idx name = SniperController.PyInt MaLibraryNb.MA_SMA) /\
  indicator_outputs run cfg1 df = indicator_outputs run cfg2 df /\
  SniperController.compute_signal run cfg1 df = SniperController.compute_signal run cfg2 df.
Proof.
  intros [H1 [H2 [H3 [H4 H5]]]].
  assert (R : forall name : string,
             SniperController.resolve_ma_type_idx name = SniperController.PyInt MaLibraryNb.MA_SMA).
  { intros name. unfold SniperController.resolve_ma_type_idx.
    apply resolve_loop_never_matches. }
  assert (O : indicator_outputs run cfg1 df = indicator_outputs run cfg2 df).
  { unfold indicator_outputs. rewrite !R, H1, H2, H3, H4, H5. reflexivity. }
  split; [exact R|]. split; [exact O|].
  rewrite !compute_signal_derivation, O. reflexivity.
Qed.

End SniperFacts.

Lemma ma_type_name_is_ignored_witness :
  (forall name : string,
     SniperController.resolve_ma_type_idx name = SniperController.PyInt MaLibraryNb.MA_SMA) /\
  indicator_outputs probe_pipeline (sniper_config "Jurik Moving Average") sample_frame
  = indicator_outputs probe_pipeline (sniper_config "Hull Moving Average") sample_frame /\
  SniperController.compute_signal probe_pipeline (sniper_config "Jurik Moving Average") sample_frame
  = SniperController.compute_signal probe_pipeline (sniper_config "Hull Moving Average") sample_frame.
Proof.
  apply (ma_type_name_is_ignored probe_pipeline
           (sniper_config "Jurik Moving Average") (sniper_config "Hull Moving Average")
           sample_frame).
  unfold same_but_ma_type. simpl. repeat split; reflexivity.
Defined.

Example sniper_signal_runs :
  SniperController.compute_signal probe_pipeline (sniper_config "Hull Moving Average") sample_frame
  = Ok 1 /\
  SniperController.compute_signal probe_pipeline (sniper_config "Hull Moving Average") []
  = Raise (KeyError "Close") /\
  SniperController.update_processed_data probe_pipeline (sniper_config "Hull Moving Average") 0 []
  = 0.
Proof. repeat split; reflexivity. Qed.

(** ** The Goertzel kernel *)

Lemma getitem_nth_error {A : Type} (a : list A) (i : Z) :
  0 <= i < len a ->
  exists x, getitem a i = Ok x /\ nth_error a (Z.to_nat i) = Some x.
Proof.
  intros H. unfold getitem. rewrite (norm_index_in_range a i H).
  destruct (nth_error a (Z.to_nat i)) as [x|] eqn:E.
  - exists x. auto.
  - apply nth_error_None in E. unfold len in H. lia.
Qed.

Lemma skipn_cons_nth_error {A : Type} (l : list A) (k : nat) (x : A) :
  nth_error l k = Some x -> skipn k l = x :: skipn (Datatypes.S k) l.
Proof.
  revert k. induction l as [|h t IH]; intros [|k] E; simpl in *; try discriminate.
  - now inversion E.
  - now apply IH.
Qed.

Lemma firstn_snoc_nth_error {A : Type} (l : list A) (c : nat) (x : A) :
  nth_error l c = Some x -> firstn (Datatypes.S c) l = (firstn c l ++ [x])%list.
Proof.
  revert c. induction l as [|h t IH]; intros [|c] E; simpl in *; try discriminate.
  - now inversion E.
  - f_equal. now apply IH.
Qed.

(** A loop that reads [src[base + j]] for [j = 0 .. l-1] and folds the
    samples into its state is the left fold over that slice. *)
Lemma for_loop_fold_forward {A S : Type} (src : list A) (f : S -> A -> S)
    (body : Z -> S -> result S) (base : Z) :
  (forall j st, body j st = (val <- getitem src (base + j) ;; Ok (f st val))) ->
  forall (count : nat) (j0 : Z) (s : S),
    0 <= base + j0 -> base + j0 + Z.of_nat count <= len src ->
    for_loop count j0 body s
    = Ok (fold_left f (firstn count (skipn (Z.to_nat (base + j0)) src)) s).
Proof.
  intros Hbody. induction count as [|c IH]; intros j0 s H0 H1.
  - reflexivity.
  - simpl for_loop. rewrite Hbody.
    destruct (getitem_nth_error src (base + j0) ltac:(lia)) as [x [Eg En]].
    rewrite Eg. cbn [bind].
    rewrite IH by lia.
    rewrite (skipn_cons_nth_error src _ x En). simpl firstn. simpl fold_left.
    replace (Z.to_nat (base + (j0 + 1))) with (Datatypes.S (Z.to_nat (base + j0))) by lia.
    reflexivity.
Qed.

Lemma for_range_fold_forward {A S : Type} (src : list A) (f : S -> A -> S)
    (body : Z -> S -> result S) (base l : Z) (s : S) :
  (forall j st, body j st = (val <- getitem src (base + j) ;; Ok (f st val))) ->
  0 <= base -> 0 <= l -> base + l <= len src ->
  for_range 0 l body s
  = Ok (fold_left f (firstn (Z.to_nat l) (skipn (Z.to_nat base) src)) s).
Proof.
  intros Hbody Hb Hl Hs. unfold for_range.
  rewrite (for_loop_fold_forward src f body base Hbody) by lia.
  now rewrite Z.sub_0_r, Z.add_0_r.
Qed.

(** A loop that reads [src[i - j]] for [j = 0 .. l-1] folds the same slice
    from its newest sample backwards. *)
Lemma for_loop_fold_backward {A S : Type} (src : list A) (g : S -> A -> S)
    (body : Z -> S -> result S) (i : Z) :
  (forall j st, body j st = (x <- getitem src (i - j) ;; Ok (g st x))) ->
  forall (count : nat) (j0 : Z) (s : S),
    i - j0 < len src -> 0 <= i - j0 - Z.of_nat count + 1 ->
    for_loop count j0 body s
    = Ok (fold_left g
            (rev (firstn count (skipn (Z.to_nat (i - j0 - Z.of_nat count + 1)) src))) s).
Proof.
  intros Hbody. induction count as [|c IH]; intros j0 s H0 H1.
  - reflexivity.
  - simpl for_loop. rewrite Hbody.
    destruct (getitem_nth_error src (i - j0) ltac:(lia)) as [x [Eg En]].
    rewrite Eg. cbn [bind].
    rewrite IH by lia.
    replace (i - (j0 + 1) - Z.of_nat c + 1) with (i - j0 - Z.of_nat (Datatypes.S c) + 1) by lia.
    set (b := Z.to_nat (i - j0 - Z.of_nat (Datatypes.S c) + 1)).
    assert (En' : nth_error (skipn b src) c = Some x).
    { rewrite nth_error_skipn. subst b.
      replace (Z.to_nat (i - j0 - Z.of_nat (Datatypes.S c) + 1) + c)%nat
        with (Z.to_nat (i - j0)) by lia. exact En. }
    rewrite (firstn_snoc_nth_error _ c x En'), rev_app_distr. reflexivity.
Qed.

Lemma for_range_fold_backward {A S : Type} (src : list A) (g : S -> A -> S)
    (body : Z -> S -> result S) (i l : Z) (s : S) :
  (forall j st, body j st = (x <- getitem src (i - j) ;; Ok (g st x))) ->
  0 <= l -> i < len src -> 0 <= i - l + 1 ->
  for_range 0 l body s
  = Ok (fold_left g (rev (firstn (Z.to_nat l) (skipn (Z.to_nat (i - l + 1)) src))) s).
Proof.
  intros Hbody Hl Hi Hb. unfold for_range. rewrite Z.sub_0_r.
  rewrite (for_loop_fold_backward src g body i Hbody) by lia.
  rewrite Z.sub_0_r. now rewrite Z2Nat.id by lia.
Qed.

Section GoertzelFacts.

Import SpectralNb.

Context (ops : FloatOps).

(** The arithmetic converts the window lengths that occur to non-zero
    values, the period and the scale factor are non-zero: no division of
    the kernel raises. *)
Variables (src : list (F ops)) (window_size : Z) (cycle_len scale_factor : F ops).

Hypothesis lengths_nonzero :
  forall l, 2 <= l <= len src -> is_zero ops (of_Z ops l) = false.
Hypothesis cycle_len_nonzero : is_zero ops cycle_len = false.
Hypothesis scale_factor_nonzero : is_zero ops scale_factor = false.

Lemma div_defined (x y : F ops) :
  is_zero ops y = false -> div ops x y = Ok (quot ops x y).
Proof. intros H. unfold div. now rewrite H. Qed.

Lemma goertzel_1d_nb_bars :
  exists out,
    goertzel_1d_nb ops src window_size cycle_len scale_factor = Ok out /\
    length out = length src /\
    forall i, (i < length src)%nat ->
      nth i out (of_Z ops 0) = goertzel_bar ops src window_size cycle_len scale_factor i.
Proof.
  unfold goertzel_1d_nb.
  set (P := fun (i : Z) (o : list (F ops)) =>
              length o = length src /\
              forall k, Z.of_nat k < i ->
                nth k o (of_Z ops 0)
                = goertzel_bar ops src window_size cycle_len scale_factor k).
  match goal with
  | |- context [for_range ?lo ?hi ?body ?s] =>
      destruct (for_range_invariant P body lo hi s) as [out [E [L H]]]
  end.
  - unfold len. lia.
  - unfold P. split; [apply repeat_length | intros; lia].
  - intros i o Hi [HL Hdone].
    assert (Hset : forall v, v = goertzel_bar ops src window_size cycle_len scale_factor (Z.to_nat i) ->
              exists st', setitem o i v = Ok st' /\ P (i + 1) st').
    { intros v Hv. rewrite setitem_in_range by (unfold len in *; lia).
      eexists. split; [reflexivity|]. unfold P.
      split; [now rewrite list_set_length|].
      intros k Hk. destruct (Z.eq_dec (Z.of_nat k) i) as [Ek|Nk].
      - replace (Z.to_nat i) with k in * by lia.
        rewrite nth_list_set_eq by (unfold len in Hi; lia). exact Hv.
      - rewrite nth_list_set_neq by lia. apply Hdone. lia. }
    cbv zeta.
    destruct (Z.ltb_spec (Z.min (i + 1) window_size) 2) as [Hl|Hl].
    + apply Hset. unfold goertzel_bar. cbv zeta.
      rewrite Z2Nat.id by lia.
      destruct (Z.ltb_spec (Z.min (i + 1) window_size) 2); [reflexivity | lia].
    + set (l := Z.min (i + 1) window_size) in *.
      assert (Hlz : is_zero ops (of_Z ops l) = false)
        by (apply lengths_nonzero; unfold len in *; lia).
      rewrite (div_defined _ _ cycle_len_nonzero). cbn [bind].
      rewrite (div_defined _ _ Hlz). cbn [bind].
      erewrite (for_range_fold_forward src
                  (fun '(q1, q2) val => (_, q1)) _ (i - l + 1) l);
        [| intros j [q1 q2]; reflexivity | lia | lia | lia].
      cbn [bind].
      match goal with
      | |- context [fold_left ?f ?w (of_Z ops 0, of_Z ops 0)] =>
          destruct (fold_left f w (of_Z ops 0, of_Z ops 0)) as [q1 q2] eqn:Est
      end.
      rewrite !(div_defined _ _ Hlz). cbn [bind].
      erewrite (for_range_fold_backward src (add ops) _ i l);
        [| intros j st; reflexivity | lia | lia | lia].
      cbn [bind]. rewrite (div_defined _ _ Hlz). cbn [bind].
      erewrite (for_range_fold_backward src
                  (fun acc x => add ops acc (mul ops (sub ops x _) (sub ops x _))) _ i l);
        [| intros j st; reflexivity | lia | lia | lia].
      cbn [bind]. rewrite (div_defined _ _ Hlz). cbn [bind].
      rewrite (div_defined _ _ scale_factor_nonzero). cbn [bind].
      rewrite (div_defined _ _ cycle_len_nonzero). cbn [bind].
      apply Hset.
      unfold goertzel_bar. cbv zeta. rewrite (Z2Nat.id i) by lia. fold l.
      destruct (Z.ltb_spec l 2); [lia|].
      unfold goertzel_magnitude, population_stdev, window_mean, window_sq_dev,
        goertzel_state, window_of. cbv zeta.
      replace (Z.to_nat i + 1 - Z.to_nat l)%nat with (Z.to_nat (i - l + 1)) by lia.
      rewrite Est. reflexivity.
  - exists out. split; [exact E|]. split; [exact L|].
    intros i Hi. apply H. unfold len. lia.
Qed.

(** C8, amended.  With a non-zero period and scale factor the Goertzel
    estimator returns a trace of the length of the source whose value at bar
    [i], over the window of the last [l = min(i+1, window_size)] samples, is 0
    when [l < 2] and otherwise the Goertzel DFT magnitude of the window
    multiplied by the population standard deviation of the window (squared
    deviations averaged over [l]), divided by [scale_factor], and modulated by
    [sin(2*pi*i/period)]. *)
Theorem goertzel_population_stdev_trace :
  exists out,
    goertzel_1d_nb ops src window_size cycle_len scale_factor = Ok out /\
    length out = length src /\
    forall i, (i < length src)%nat ->
      let l := Z.min (Z.of_nat i + 1) window_size in
      let w := window_of ops src i (Z.to_nat l) in
      (l < 2 -> nth i out (of_Z ops 0) = of_Z ops 0) /\
      (2 <= l ->
       nth i out (of_Z ops 0)
       = mul ops
           (quot ops
              (mul ops (goertzel_magnitude ops w l cycle_len)
                       (population_stdev ops w l))
              scale_factor)
           (sin ops
              (quot ops (mul ops (mul ops (PI ops) (of_Z ops 2))
                                 (of_Z ops (Z.of_nat i)))
                    cycle_len))).
Proof.
  destruct goertzel_1d_nb_bars as [out [E [L H]]].
  exists out. split; [exact E|]. split; [exact L|].
  intros i Hi. cbv zeta. rewrite (H i Hi). unfold goertzel_bar. cbv zeta.
  destruct (Z.ltb_spec (Z.min (Z.of_nat i + 1) window_size) 2).
  - split; [reflexivity | lia].
  - split; [lia | reflexivity].
Qed.

End GoertzelFacts.

(** On binary64, with whatever [np.sin], [np.cos] and [np.pi] the platform
    supplies, the window lengths of a series convert to non-zero floats, so
    the kernel returns the trace for every non-zero period and scale factor. *)
Lemma goertzel_float64_trace (np_sin np_cos : float -> float) (np_pi : float)
    (src : list float) (window_size : Z) (cycle_len scale_factor : float) :
  len src < 2 ^ 63 ->
  PrimFloat.eqb cycle_len 0 = false ->
  PrimFloat.eqb scale_factor 0 = false ->
  exists out,
    SpectralNb.goertzel_1d_nb (SpectralNb.float64_ops np_sin np_cos np_pi)
      src window_size cycle_len scale_factor = Ok out /\
    length out = length src /\
    forall i, (i < length src)%nat ->
      nth i out 0%float
      = SpectralNb.goertzel_bar (SpectralNb.float64_ops np_sin np_cos np_pi)
          src window_size cycle_len scale_factor i.
Proof.
  intros Hn Hc Hs.
  apply (goertzel_1d_nb_bars (SpectralNb.float64_ops np_sin np_cos np_pi));
    [| exact Hc | exact Hs].
  intros l Hl.
  change (SpectralNb.F (SpectralNb.float64_ops np_sin np_cos np_pi)) with float in Hl.
  apply (Z2f_nonzero l). lia.
Qed.

(** *** The kernel on the real numbers *)

Lemma R_is_zero_false (x : R) : x <> 0%R -> SpectralNb.R_is_zero x = false.
Proof.
  intros H. unfold SpectralNb.R_is_zero.
  destruct (Req_dec_T x 0%R); [contradiction | reflexivity].
Qed.

Lemma R_lengths_nonzero (n : Z) :
  forall l, 2 <= l <= n -> SpectralNb.is_zero SpectralNb.R_ops (SpectralNb.of_Z SpectralNb.R_ops l) = false.
Proof.
  intros l Hl. simpl. apply R_is_zero_false.
  apply not_0_IZR. lia.
Qed.

Ltac goertzel_two_samples :=
  change (Z.min (Z.of_nat 1 + 1) 2) with 2; change (2 <? 2) with false;
  cbv iota zeta; change (Z.to_nat 2) with 2%nat; unfold SpectralNb.window_of;
  change (firstn 2 (skipn (1 + 1 - 2) [3; 4]%R)) with [3; 4]%R;
  unfold SpectralNb.goertzel_magnitude, SpectralNb.population_stdev,
    SpectralNb.sample_stdev, SpectralNb.window_mean, SpectralNb.window_sq_dev,
    SpectralNb.goertzel_state;
  change (Z.of_nat 1) with 1; change (2 - 1) with 1;
  cbn [SpectralNb.R_ops SpectralNb.F SpectralNb.of_Z SpectralNb.add SpectralNb.sub
       SpectralNb.mul SpectralNb.quot SpectralNb.sqrt SpectralNb.sin SpectralNb.cos
       SpectralNb.PI fold_left rev app];
  replace (2 * PI * (2 / 4) / 2)%R with (PI / 2)%R by field;
  replace (PI * 2 * 1 / 4)%R with (PI / 2)%R by field;
  rewrite ?cos_PI2, ?sin_PI2;
  replace ((0 * (2 * 0 * (2 * 0 * 0 - 0 + 3) - 0 + 4) - (2 * 0 * 0 - 0 + 3)) / 2 * 2 *
     ((0 * (2 * 0 * (2 * 0 * 0 - 0 + 3) - 0 + 4) - (2 * 0 * 0 - 0 + 3)) / 2 * 2) +
     1 * (2 * 0 * (2 * 0 * 0 - 0 + 3) - 0 + 4) / 2 * 2 *
     (1 * (2 * 0 * (2 * 0 * 0 - 0 + 3) - 0 + 4) / 2 * 2))%R with (5 * 5)%R by field;
  rewrite (sqrt_square 5) by lra.

(** On the samples [3, 4] with window 2, period 4 and scale 1 the trace at
    bar 1 is [5 * (1/2) / 1 * sin(pi/2) = 5/2]. *)
Lemma goertzel_bar_two_samples :
  SpectralNb.goertzel_bar SpectralNb.R_ops [3; 4]%R 2 4%R 1%R 1 = (5 / 2)%R.
Proof.
  unfold SpectralNb.goertzel_bar. goertzel_two_samples.
  replace ((0 + (4 - (0 + 4 + 3) / 2) * (4 - (0 + 4 + 3) / 2) +
       (3 - (0 + 4 + 3) / 2) * (3 - (0 + 4 + 3) / 2)) / 2)%R
    with ((1 / 2) * (1 / 2))%R by field.
  rewrite sqrt_square by lra. field.
Qed.

Lemma goertzel_two_samples_run :
  SpectralNb.goertzel_1d_nb SpectralNb.R_ops [3; 4]%R 2 4%R 1%R = Ok [0; 5 / 2]%R.
Proof.
  destruct (goertzel_1d_nb_bars SpectralNb.R_ops [3; 4]%R 2 4%R 1%R)
    as [out [E [L H]]].
  - apply R_lengths_nonzero.
  - apply R_is_zero_false. lra.
  - apply R_is_zero_false. lra.
  - rewrite E. f_equal.
    destruct out as [|a [|b [|c out]]]; try discriminate.
    pose proof (H 0%nat ltac:(simpl; lia)) as H0.
    pose proof (H 1%nat ltac:(simpl; lia)) as H1.
    simpl nth in H0, H1. rewrite goertzel_bar_two_samples in H1.
    unfold SpectralNb.goertzel_bar in H0.
    change (Z.min (Z.of_nat 0 + 1) 2 <? 2) with true in H0. cbv iota zeta in H0.
    simpl in H0. now subst a b.
Qed.

(** C8 as stated fails on that run: the sample standard deviation of the
    window [3, 4] is [sqrt(1/2)], so the claimed trace at bar 1 is
    [5/sqrt(1/2)] (dividing by it) or [5*sqrt(1/2)] (multiplying by it); the
    kernel yields [5/2], which is neither. *)
Lemma goertzel_sample_stdev_counterexample :
  SpectralNb.goertzel_1d_nb SpectralNb.R_ops [3; 4]%R 2 4%R 1%R = Ok [0; 5 / 2]%R /\
  SpectralNb.goertzel_bar_claimed SpectralNb.R_ops Rdiv [3; 4]%R 2 4%R 1%R 1
    = (5 / sqrt (1 / 2))%R /\
  SpectralNb.goertzel_bar_claimed SpectralNb.R_ops Rmult [3; 4]%R 2 4%R 1%R 1
    = (5 * sqrt (1 / 2))%R /\
  (5 / 2 <> 5 / sqrt (1 / 2))%R /\
  (5 / 2 <> 5 * sqrt (1 / 2))%R.
Proof.
  assert (S0 : (0 < sqrt (1 / 2))%R) by (apply sqrt_lt_R0; lra).
  assert (S2 : (sqrt (1 / 2) * sqrt (1 / 2) = 1 / 2)%R) by (apply sqrt_sqrt; lra).
  split; [apply goertzel_two_samples_run|].
  split.
  { unfold SpectralNb.goertzel_bar_claimed. goertzel_two_samples.
    replace ((0 + (4 - (0 + 4 + 3) / 2) * (4 - (0 + 4 + 3) / 2) +
       (3 - (0 + 4 + 3) / 2) * (3 - (0 + 4 + 3) / 2)) / 1)%R
      with (1 / 2)%R by field.
    field. lra. }
  split.
  { unfold SpectralNb.goertzel_bar_claimed. goertzel_two_samples.
    replace ((0 + (4 - (0 + 4 + 3) / 2) * (4 - (0 + 4 + 3) / 2) +
       (3 - (0 + 4 + 3) / 2) * (3 - (0 + 4 + 3) / 2)) / 1)%R
      with (1 / 2)%R by field.
    field. }
  split.
  - intros H.
    assert (E : (5 / sqrt (1 / 2) * sqrt (1 / 2) = 5)%R) by (field; lra).
    rewrite <- H in E. nra.
  - intros H. nra.
Qed.

Lemma goertzel_population_stdev_trace_witness :
  exists out,
    SpectralNb.goertzel_1d_nb SpectralNb.R_ops [3; 4]%R 2 4%R 1%R = Ok out /\
    length out = length [3; 4]%R /\
    forall i, (i < length [3; 4]%R)%nat ->
      let l := Z.min (Z.of_nat i + 1) 2 in
      let w := SpectralNb.window_of SpectralNb.R_ops [3; 4]%R i (Z.to_nat l) in
      (l < 2 -> nth i out 0%R = 0%R) /\
      (2 <= l ->
       nth i out 0%R
       = (SpectralNb.goertzel_magnitude SpectralNb.R_ops w l 4
          * SpectralNb.population_stdev SpectralNb.R_ops w l / 1
          * sin (PI * 2 * IZR (Z.of_nat i) / 4))%R).
Proof.
  apply (goertzel_population_stdev_trace SpectralNb.R_ops [3; 4]%R 2 4%R 1%R).
  - apply R_lengths_nonzero.
  - apply R_is_zero_false. lra.
  - apply R_is_zero_false. lra.
Defined.

(* ===================================================================== *)
(** * Part III: further properties of the embedded code                   *)
(* ===================================================================== *)

(** ** The signal combiner: WEIGHTED mode *)

Lemma dict_get_app {V : Type} (d1 d2 : dict V) (k : string) :
  dict_get (d1 ++ d2)%list k =
    match dict_get d1 k with
    | Some v => Some v
    | None => dict_get d2 k
    end.
Proof.
  induction d1 as [|[k' v'] d1 IH]; simpl; [reflexivity|].
  destruct (String.eqb k' k); auto.
Qed.

Lemma dict_get_replace (wm : dict float) (key nm : string) (w : float) :
  dict_get (map (fun '(k, v) => if String.eqb k key then (k, w) else (k, v)) wm) nm =
    match dict_get wm nm with
    | Some v => Some (if String.eqb nm key then w else v)
    | None => None
    end.
Proof.
  induction wm as [|[k v] wm IH]; simpl; [reflexivity|].
  destruct (String.eqb_spec k key) as [Ek|Nk]; simpl.
  - destruct (String.eqb_spec k nm) as [En|Nn].
    + subst. now rewrite String.eqb_refl.
    + exact IH.
  - destruct (String.eqb_spec k nm) as [En|Nn].
    + subst. destruct (String.eqb_spec nm key); [congruence | reflexivity].
    + exact IH.
Qed.

Lemma dict_get_weight_map_step (wm : dict float) (c : IndicatorSignalConfig) (nm : string) :
  dict_get (weight_map_step wm c) nm =
    if String.eqb (name c) nm then Some (weight c) else dict_get wm nm.
Proof.
  unfold weight_map_step, dict_mem.
  destruct (dict_get wm (name c)) as [v|] eqn:Ec.
  - rewrite dict_get_replace.
    destruct (String.eqb_spec (name c) nm) as [E|N].
    + subst nm. rewrite Ec. now rewrite String.eqb_refl.
    + destruct (dict_get wm nm) as [v'|]; [|reflexivity].
      destruct (String.eqb_spec nm (name c)); [congruence | reflexivity].
  - rewrite dict_get_app. simpl.
    destruct (String.eqb_spec (name c) nm) as [E|N].
    + subst nm. now rewrite Ec.
    + now destruct (dict_get wm nm).
Qed.

Lemma find_app {A : Type} (p : A -> bool) (l1 l2 : list A) :
  find p (l1 ++ l2)%list = match find p l1 with Some x => Some x | None => find p l2 end.
Proof.
  induction l1 as [|x l1 IH]; simpl; [reflexivity|]. destruct (p x); auto.
Qed.

Lemma weight_map_fold (inds : list IndicatorSignalConfig) (wm : dict float) (nm : string) :
  dict_get (fold_left weight_map_step inds wm) nm =
    match find (fun c => String.eqb (name c) nm) (rev inds) with
    | Some c => Some (weight c)
    | None => dict_get wm nm
    end.
Proof.
  revert wm. induction inds as [|c inds IH]; intros wm; simpl; [reflexivity|].
  rewrite IH, find_app. simpl.
  destruct (find (fun c0 => String.eqb (name c0) nm) (rev inds)); [reflexivity|].
  rewrite dict_get_weight_map_step.
  now destruct (String.eqb (name c) nm).
Qed.

Lemma weight_map_of_get (inds : list IndicatorSignalConfig) (nm : string) :
  dict_get (weight_map_of inds) nm =
    option_map weight (find (fun c => String.eqb (name c) nm) (rev inds)).
Proof.
  unfold weight_map_of. fold weight_map_step.
  rewrite weight_map_fold.
  now destruct (find (fun c => String.eqb (name c) nm) (rev inds)).
Qed.

(** X1.  The lookup of a name in the weight map built by [_combine_weighted]
    gives the weight of the last configuration entry with that name, and
    nothing when no entry has the name: a later entry overwrites an earlier
    one, whatever the number of entries sharing the name. *)
Theorem weight_map_last_entry_wins (cfg : SignalCombinerConfig) (nm : string) :
  dict_get (weight_map_of (indicators cfg)) nm =
    option_map weight (find (fun c => String.eqb (name c) nm) (rev (indicators cfg))) /\
  (forall (front : list IndicatorSignalConfig) (c : IndicatorSignalConfig),
     indicators cfg = (front ++ [c])%list -> name c = nm ->
     dict_get (weight_map_of (indicators cfg)) nm = Some (weight c)) /\
  ((forall c, In c (indicators cfg) -> name c <> nm) ->
   dict_get (weight_map_of (indicators cfg)) nm = None).
Proof.
  split; [apply weight_map_of_get|]. split.
  - intros front c E Hn. rewrite weight_map_of_get, E, rev_app_distr. simpl.
    subst nm. now rewrite String.eqb_refl.
  - intros Hno. rewrite weight_map_of_get.
    destruct (find (fun c => String.eqb (name c) nm) (rev (indicators cfg))) as [c|] eqn:Ef;
      [|reflexivity].
    apply find_some in Ef. destruct Ef as [Hin He].
    apply in_rev in Hin. apply String.eqb_eq in He. now apply Hno in Hin.
Qed.

Lemma nth_map_lt {A B : Type} (f : A -> B) (l : list A) (d : A) (d' : B) (j : nat) :
  (j < length l)%nat -> nth j (map f l) d' = f (nth j l d).
Proof.
  revert j. induction l as [|x l IH]; intros [|j] H; simpl in *; try lia; auto.
  apply IH. lia.
Qed.

Lemma np_iadd_scaled_same_length (acc : list float) (arr : ndarray) (w : float) :
  length arr = length acc ->
  exists acc',
    np_iadd_scaled acc arr w = Ok acc' /\ length acc' = length acc /\
    forall j, (j < length acc)%nat ->
      nth j acc' 0%float
      = PrimFloat.add (nth j acc 0%float) (PrimFloat.mul (Z2f (nth j arr 0)) w).
Proof.
  intros HL. unfold np_iadd_scaled. rewrite length_map, HL, Nat.eqb_refl.
  eexists. split; [reflexivity|]. split.
  - rewrite length_map, length_combine, length_map. lia.
  - intros j Hj.
    rewrite (nth_map_lt _ _ (0%float, 0%float))
      by (rewrite length_combine, length_map; lia).
    rewrite combine_nth by (rewrite length_map; lia).
    f_equal. apply (nth_map_lt (fun x => PrimFloat.mul (Z2f x) w)). lia.
Qed.

Lemma weighted_fold (w : string -> float) (signals : dict ndarray) (n : nat)
    (ws : list float) (tw : float) :
  equal_length signals n -> length ws = n ->
  exists ws',
    fold_left
      (fun (st : result (list float * float)) '(nm, arr) =>
         '(ws, tw) <- st ;;
         ws' <- np_iadd_scaled ws arr (w nm) ;;
         Ok (ws', PrimFloat.add tw (w nm)))
      signals (Ok (ws, tw))
    = Ok (ws', fold_left (fun acc kv => PrimFloat.add acc (w (fst kv))) signals tw) /\
    length ws' = n /\
    forall j, (j < n)%nat ->
      nth j ws' 0%float
      = fold_left
          (fun acc kv => PrimFloat.add acc (PrimFloat.mul (Z2f (nth j (snd kv) 0)) (w (fst kv))))
          signals (nth j ws 0%float).
Proof.
  revert ws tw. induction signals as [|[nm arr] signals IH]; intros ws tw Hlen Hws.
  - exists ws. simpl. auto.
  - inversion Hlen as [|? ? Ha Hrest]; subst. simpl in Ha.
    destruct (np_iadd_scaled_same_length ws arr (w nm)) as [ws1 [E1 [L1 N1]]];
      [congruence|].
    destruct (IH ws1 (PrimFloat.add tw (w nm)) Hrest ltac:(congruence))
      as [ws' [E' [L' N']]].
    exists ws'. split; [|split].
    + simpl. rewrite E1. simpl. exact E'.
    + exact L'.
    + intros j Hj. rewrite (N' j Hj). simpl. rewrite N1 by lia. reflexivity.
Qed.

Lemma indicator_weight_lookup (cfg : SignalCombinerConfig) (nm : string) :
  match dict_get (weight_map_of (indicators cfg)) nm with
  | Some w => w
  | None => 1%float
  end = indicator_weight cfg nm.
Proof.
  rewrite weight_map_of_get. unfold indicator_weight.
  now destruct (find (fun c => String.eqb (name c) nm) (rev (indicators cfg))).
Qed.

Lemma nth_repeat_lt {A : Type} (d x : A) (n j : nat) :
  nth j (repeat x n) d = if (j <? n)%nat then x else d.
Proof.
  revert j. induction n as [|n IH]; intros [|j]; simpl; auto.
Qed.

Lemma combine_weighted_bars (cfg : SignalCombinerConfig) (signals : dict ndarray) (n : nat) :
  signals <> [] -> equal_length signals n ->
  exists res,
    _combine_weighted cfg signals = Ok res /\ length res = n /\
    forall j, (j < n)%nat ->
      nth j res 0 =
        if PrimFloat.leb (weighted_threshold cfg) (weighted_score cfg signals j) then 1
        else if PrimFloat.leb (weighted_score cfg signals j)
                              (PrimFloat.opp (weighted_threshold cfg)) then -1
        else 0.
Proof.
  intros Hne Hlen. unfold _combine_weighted.
  assert (Ev : exists first tl, values signals = first :: tl /\ length first = n).
  { destruct signals as [|[nm0 first] rest]; [congruence|].
    exists first, (values rest). split; [reflexivity|].
    inversion Hlen as [|? ? Ha _]. exact Ha. }
  destruct Ev as [first [tl [Ev Lf]]]. rewrite Ev, Lf.
  set (w := fun nm => match dict_get (weight_map_of (indicators cfg)) nm with
                      | Some w => w
                      | None => 1%float
                      end).
  destruct (weighted_fold w signals n (repeat 0%float n) 0%float Hlen (repeat_length _ _))
    as [ws [E [L N]]].
  change (fold_left _ signals (Ok (repeat 0%float n, 0%float)))
    with (fold_left
            (fun (st : result (list float * float)) '(nm, arr) =>
               '(ws, tw) <- st ;;
               ws' <- np_iadd_scaled ws arr (w nm) ;;
               Ok (ws', PrimFloat.add tw (w nm)))
            signals (Ok (repeat 0%float n, 0%float))).
  rewrite E. simpl bind.
  assert (Etw' : fold_left (fun acc kv => PrimFloat.add acc (w (fst kv))) signals 0%float
                 = total_weight cfg signals).
  { unfold total_weight. generalize 0%float. clear.
    induction signals as [|kv s IH]; intros a; simpl; [reflexivity|].
    rewrite IH. unfold w. now rewrite indicator_weight_lookup. }
  rewrite Etw'.
  assert (Ews : forall j, (j < n)%nat -> nth j ws 0%float = weighted_sum_bar cfg signals j).
  { intros j Hj. rewrite (N j Hj). unfold weighted_sum_bar.
    rewrite nth_repeat_lt. destruct (Nat.ltb_spec j n); [|lia].
    generalize 0%float. clear.
    induction signals as [|kv s IH]; intros a; simpl; [reflexivity|].
    rewrite IH. unfold w. now rewrite indicator_weight_lookup. }
  eexists. split; [reflexivity|]. split.
  - rewrite length_map. destruct (PrimFloat.ltb 0 (total_weight cfg signals));
      [rewrite length_map|]; exact L.
  - intros j Hj.
    set (cls := fun x : float =>
                  if PrimFloat.leb (weighted_threshold cfg) x then 1
                  else if PrimFloat.leb x (PrimFloat.opp (weighted_threshold cfg)) then -1
                  else 0).
    rewrite (nth_map_lt cls _ 0%float)
      by (destruct (PrimFloat.ltb 0 (total_weight cfg signals));
          [rewrite length_map|]; lia).
    unfold cls, weighted_score.
    destruct (PrimFloat.ltb 0 (total_weight cfg signals)).
    + rewrite (nth_map_lt _ _ 0%float) by lia.
      now rewrite Ews.
    + now rewrite Ews.
Qed.

Lemma is_signal_classified (thr score : float) :
  is_signal (if PrimFloat.leb thr score then 1
             else if PrimFloat.leb score (PrimFloat.opp thr) then -1 else 0).
Proof.
  unfold is_signal.
  destruct (PrimFloat.leb thr score); [lia|].
  destruct (PrimFloat.leb score (PrimFloat.opp thr)); lia.
Qed.

(** X2.  WEIGHTED mode, bar by bar.  On a non-empty mapping of arrays of one
    length [combine] returns an array of that length over [{-1,0,1}]: a bar is
    1 exactly when its score (the weighted sum of the inputs over the total
    weight, the weights being those of [indicator_weight]) reaches
    [weighted_threshold], and -1 exactly when it does not but the score is at
    most the negated threshold: the long test is made first. *)
Theorem combine_weighted_score_threshold (cfg : SignalCombinerConfig)
    (signals : dict ndarray) (n : nat) :
  mode cfg = WEIGHTED ->
  signals <> [] ->
  equal_length signals n ->
  exists res,
    combine cfg signals = Ok res /\ length res = n /\
    forall j, (j < n)%nat ->
      is_signal (nth j res 0) /\
      (nth j res 0 = 1 <->
         PrimFloat.leb (weighted_threshold cfg) (weighted_score cfg signals j) = true) /\
      (nth j res 0 = -1 <->
         PrimFloat.leb (weighted_threshold cfg) (weighted_score cfg signals j) = false /\
         PrimFloat.leb (weighted_score cfg signals j)
                       (PrimFloat.opp (weighted_threshold cfg)) = true).
Proof.
  intros Hmode Hne Hlen.
  rewrite (combine_validated cfg signals n Hne Hlen), Hmode.
  destruct (combine_weighted_bars cfg signals n Hne Hlen) as [res [E [L N]]].
  exists res. split; [exact E|]. split; [exact L|].
  intros j Hj. rewrite (N j Hj). split; [apply is_signal_classified|].
  destruct (PrimFloat.leb (weighted_threshold cfg) (weighted_score cfg signals j)).
  - split; split; try reflexivity; try discriminate. intros [H _]. discriminate.
  - destruct (PrimFloat.leb (weighted_score cfg signals j)
                            (PrimFloat.opp (weighted_threshold cfg))).
    + split; split; try discriminate; auto.
    + split; split; try discriminate. intros [_ H]. discriminate.
Qed.

Lemma combine_weighted_score_threshold_witness :
  exists res,
    combine (default_config WEIGHTED) [("a", [1; 0; -1]); ("b", [1; 1; -1])] = Ok res /\
    length res = 3%nat /\
    forall j, (j < 3)%nat ->
      is_signal (nth j res 0) /\
      (nth j res 0 = 1 <->
         PrimFloat.leb (weighted_threshold (default_config WEIGHTED))
           (weighted_score (default_config WEIGHTED)
              [("a", [1; 0; -1]); ("b", [1; 1; -1])] j) = true) /\
      (nth j res 0 = -1 <->
         PrimFloat.leb (weighted_threshold (default_config WEIGHTED))
           (weighted_score (default_config WEIGHTED)
              [("a", [1; 0; -1]); ("b", [1; 1; -1])] j) = false /\
         PrimFloat.leb
           (weighted_score (default_config WEIGHTED)
              [("a", [1; 0; -1]); ("b", [1; 1; -1])] j)
           (PrimFloat.opp (weighted_threshold (default_config WEIGHTED))) = true).
Proof.
  apply (combine_weighted_score_threshold (default_config WEIGHTED)
           [("a", [1; 0; -1]); ("b", [1; 1; -1])] 3).
  - reflexivity.
  - discriminate.
  - repeat constructor.
Defined.

Example weighted_scenario :
  combine (default_config WEIGHTED) [("a", [1; 0; -1]); ("b", [1; 1; -1])]
  = Ok [1; 1; -1].
Proof. reflexivity. Qed.

Lemma signal_at (arr : ndarray) (j : nat) :
  Forall is_signal arr -> (j < length arr)%nat -> is_signal (nth j arr 0).
Proof.
  intros H Hj. rewrite Forall_forall in H. apply H. now apply nth_In.
Qed.

(** X3.  With the default configuration (no per-indicator weight, threshold 0.5)
    WEIGHTED mode on one or two signal arrays returns exactly what OR mode
    returns: a single input passes through, two inputs give the common or
    the only direction and 0 on a conflict.  (With three inputs the modes
    differ: a single long among neutrals scores 1/3.) *)
Theorem weighted_default_is_or_up_to_two (signals : dict ndarray) (n : nat) :
  (length signals <= 2)%nat ->
  signals <> [] ->
  equal_length signals n ->
  signal_arrays signals ->
  combine (default_config WEIGHTED) signals = combine (default_config OR) signals.
Proof.
  intros H2 Hne Hlen Hsig.
  rewrite (combine_validated (default_config WEIGHTED) signals n Hne Hlen).
  rewrite (combine_validated (default_config OR) signals n Hne Hlen).
  simpl mode.
  destruct (combine_weighted_bars (default_config WEIGHTED) signals n Hne Hlen)
    as [rw [Ew [Lw Nw]]].
  destruct (combine_or_bars signals n Hne Hlen) as [ro [Eo [Lo No]]].
  rewrite Ew, Eo. f_equal. apply (nth_ext _ _ 0 0); [congruence|].
  intros j Hj. rewrite Lw in Hj. rewrite (Nw j Hj), (No j Hj).
  rewrite column_values.
  destruct signals as [|[a x] [|[b y] [|? ?]]]; simpl in H2; try lia; try congruence.
  - inversion Hlen as [|? ? Lx _]; subst. simpl in Lx.
    inversion Hsig as [|? ? Sx _]; subst. simpl in Sx.
    pose proof (signal_at x j Sx ltac:(lia)) as Hx.
    unfold weighted_score, total_weight, weighted_sum_bar, indicator_weight, values.
    simpl map. simpl fold_left. simpl existsb. unfold np_sum. simpl fold_left.
    destruct Hx as [E|[E|E]]; rewrite E; reflexivity.
  - inversion Hlen as [|? ? Lx Hl']; subst. simpl in Lx.
    inversion Hl' as [|? ? Ly _]; subst. simpl in Ly.
    inversion Hsig as [|? ? Sx Hs']; subst. simpl in Sx.
    inversion Hs' as [|? ? Sy _]; subst. simpl in Sy.
    pose proof (signal_at x j Sx ltac:(lia)) as Hx.
    pose proof (signal_at y j Sy ltac:(lia)) as Hy.
    unfold weighted_score, total_weight, weighted_sum_bar, indicator_weight, values.
    simpl map. simpl fold_left. simpl existsb. unfold np_sum. simpl fold_left.
    destruct Hx as [E|[E|E]]; rewrite E;
      destruct Hy as [F|[F|F]]; rewrite F; reflexivity.
Qed.

Lemma weighted_default_is_or_up_to_two_witness :
  combine (default_config WEIGHTED) [("a", [1; 0; -1; 1]); ("b", [0; 0; -1; -1])]
  = combine (default_config OR) [("a", [1; 0; -1; 1]); ("b", [0; 0; -1; -1])].
Proof.
  apply (weighted_default_is_or_up_to_two
           [("a", [1; 0; -1; 1]); ("b", [0; 0; -1; -1])] 4).
  - simpl. lia.
  - discriminate.
  - repeat constructor.
  - unfold signal_arrays, is_signal. repeat constructor; simpl; lia.
Defined.

Example weighted_three_inputs_differ_from_or :
  combine (default_config WEIGHTED) [("a", [1]); ("b", [0]); ("c", [0])] = Ok [0] /\
  combine (default_config OR) [("a", [1]); ("b", [0]); ("c", [0])] = Ok [1].
Proof. split; reflexivity. Qed.

(** ** The signal combiner: relations between the modes *)

(** X4.  CONFIRM mode never invents a signal, whatever [confirm_window] is (also
    a negative one): with a designated primary present in a non-empty mapping
    of arrays of one length, [combine] returns an array of that length whose
    every bar is either 0 or the primary's value at that bar; in particular a
    bar where the primary is neutral stays neutral. *)
Theorem combine_confirm_never_invents (cfg : SignalCombinerConfig)
    (signals : dict ndarray) (n : nat) (c : IndicatorSignalConfig) (primary : ndarray) :
  mode cfg = CONFIRM ->
  signals <> [] ->
  equal_length signals n ->
  primary_config cfg = Some c ->
  dict_get signals (name c) = Some primary ->
  exists res,
    combine cfg signals = Ok res /\ length res = n /\
    forall j, (j < n)%nat -> nth j res 0 = 0 \/ nth j res 0 = nth j primary 0.
Proof.
  intros Hmode Hne Hlen Hp Hg.
  rewrite (combine_validated cfg signals n Hne Hlen), Hmode.
  unfold _combine_confirm. fold (secondary_arrays cfg signals).
  pose proof (hd_filter_find (fun c => String.eqb (role c) "primary") name
                (indicators cfg)) as Hhd.
  fold (primary_config cfg) in Hhd. rewrite Hp in Hhd. simpl in Hhd.
  destruct (map name (filter (fun c0 => String.eqb (role c0) "primary") (indicators cfg)))
    as [|pn rest]; [discriminate|].
  simpl in Hhd. inversion Hhd; subst pn. rewrite Hg.
  assert (Lp : length primary = n).
  { apply dict_get_In in Hg. unfold equal_length in Hlen.
    rewrite Forall_forall in Hlen. exact (Hlen _ Hg). }
  pose proof (secondary_arrays_length cfg signals n Hlen) as Hsec.
  destruct (secondary_arrays cfg signals) as [|s0 srest] eqn:Es.
  - exists primary. split; [reflexivity|]. split; [exact Lp|]. intros; now right.
  - destruct (np_stack_equal_length (s0 :: srest) n ltac:(discriminate) Hsec) as [Est _].
    rewrite Est. simpl bind.
    destruct (confirm_loop primary (s0 :: srest) (confirm_window cfg))
      as [res [E [L Hbars]]].
    exists res. split; [exact E|]. split; [congruence|].
    intros j Hj. rewrite (Hbars j) by lia. unfold confirm_bar. cbv zeta.
    destruct (nth j primary 0 =? 0); [now left|].
    match goal with |- context [if ?b then _ else _] => destruct b end; auto.
Qed.

Lemma combine_confirm_never_invents_witness :
  exists res,
    combine (confirm_config (-2)) [("p", [1; 0; 0; -1]); ("s", [0; 0; 1; 0])] = Ok res /\
    length res = 4%nat /\
    forall j, (j < 4)%nat -> nth j res 0 = 0 \/ nth j res 0 = nth j [1; 0; 0; -1] 0.
Proof.
  apply (combine_confirm_never_invents (confirm_config (-2))
           [("p", [1; 0; 0; -1]); ("s", [0; 0; 1; 0])] 4
           {| name := "p"; weight := 1%float; role := "primary"; signal_source := "major" |}).
  - reflexivity.
  - discriminate.
  - repeat constructor.
  - reflexivity.
  - reflexivity.
Defined.

Lemma forallb_nonempty_existsb {A : Type} (p : A -> bool) (l : list A) :
  l <> [] -> forallb p l = true -> existsb p l = true.
Proof.
  destruct l as [|x l]; [congruence|]. simpl. intros _ H.
  apply andb_true_iff in H. destruct H as [H _]. now rewrite H.
Qed.

Lemma forallb_excludes (l : list (list Z)) (j : nat) (u v : Z) :
  u <> v -> forallb (fun r => nth j r 0 =? u) l = true ->
  existsb (fun r => nth j r 0 =? v) l = false.
Proof.
  intros Huv H. rewrite forallb_forall in H.
  destruct (existsb (fun r => nth j r 0 =? v) l) eqn:E; [|reflexivity].
  apply existsb_exists in E. destruct E as [r [Hin Hr]].
  apply H in Hin. apply Z.eqb_eq in Hin, Hr. congruence.
Qed.

(** X5.  Whenever AND mode signals a direction at a bar, OR mode signals the same
    direction at that bar: on a non-empty mapping of arrays of one length both
    modes return, and every non-zero bar of the AND result is repeated by the
    OR result. *)
Theorem combine_and_implies_or (cfg_and cfg_or : SignalCombinerConfig)
    (signals : dict ndarray) (n : nat) :
  mode cfg_and = AND ->
  mode cfg_or = OR ->
  signals <> [] ->
  equal_length signals n ->
  exists res_and res_or,
    combine cfg_and signals = Ok res_and /\
    combine cfg_or signals = Ok res_or /\
    length res_and = n /\ length res_or = n /\
    forall j, (j < n)%nat -> nth j res_and 0 <> 0 -> nth j res_or 0 = nth j res_and 0.
Proof.
  intros Ha Ho Hne Hlen.
  rewrite (combine_validated cfg_and signals n Hne Hlen), Ha.
  rewrite (combine_validated cfg_or signals n Hne Hlen), Ho.
  destruct (combine_and_bars signals n Hne Hlen) as [ra [Ea [La Na]]].
  destruct (combine_or_bars signals n Hne Hlen) as [ro [Eo [Lo No]]].
  exists ra, ro. repeat split; auto.
  intros j Hj. rewrite (Na j Hj), (No j Hj). cbv zeta.
  assert (Hv : values signals <> []) by (destruct signals; [congruence | discriminate]).
  destruct (forallb (fun r => nth j r 0 =? 1) (values signals)) eqn:F1.
  - intros _.
    pose proof (forallb_nonempty_existsb (A := list Z) _ _ Hv F1) as X1.
    pose proof (forallb_excludes (values signals) j 1 (-1) ltac:(lia) F1) as X2.
    simpl in X1, X2 |- *. now rewrite X1, X2.
  - destruct (forallb (fun r => nth j r 0 =? -1) (values signals)) eqn:F2; [|congruence].
    intros _.
    pose proof (forallb_nonempty_existsb (A := list Z) _ _ Hv F2) as X1.
    pose proof (forallb_excludes (values signals) j (-1) 1 ltac:(lia) F2) as X2.
    simpl in X1, X2 |- *. now rewrite X1, X2.
Qed.

Lemma combine_and_implies_or_witness :
  exists res_and res_or,
    combine (default_config AND) [("a", [1; 1; -1; 0]); ("b", [1; -1; -1; 1])] = Ok res_and /\
    combine (default_config OR) [("a", [1; 1; -1; 0]); ("b", [1; -1; -1; 1])] = Ok res_or /\
    length res_and = 4%nat /\ length res_or = 4%nat /\
    forall j, (j < 4)%nat -> nth j res_and 0 <> 0 -> nth j res_or 0 = nth j res_and 0.
Proof.
  apply (combine_and_implies_or (default_config AND) (default_config OR)
           [("a", [1; 1; -1; 0]); ("b", [1; -1; -1; 1])] 4).
  - reflexivity.
  - reflexivity.
  - discriminate.
  - repeat constructor.
Defined.

Lemma forallb_permutation {A : Type} (p : A -> bool) (l l' : list A) :
  Permutation l l' -> forallb p l = forallb p l'.
Proof.
  induction 1; simpl; auto.
  - now rewrite IHPermutation.
  - destruct (p x), (p y); reflexivity.
  - congruence.
Qed.

Lemma existsb_permutation {A : Type} (p : A -> bool) (l l' : list A) :
  Permutation l l' -> existsb p l = existsb p l'.
Proof.
  induction 1; simpl; auto.
  - now rewrite IHPermutation.
  - destruct (p x), (p y); reflexivity.
  - congruence.
Qed.

Lemma np_sum_permutation (l l' : list Z) : Permutation l l' -> np_sum l = np_sum l'.
Proof.
  unfold np_sum. generalize 0.
  intros a H. revert a. induction H; intros a; simpl; auto.
  - f_equal. lia.
  - now rewrite IHPermutation1.
Qed.

(** X6.  AND and OR mode do not depend on the order of the mapping: on a
    non-empty mapping of arrays of one length, [combine] returns the same
    array for every reordering of the entries. *)
Theorem combine_and_or_order_independent (cfg : SignalCombinerConfig)
    (signals signals' : dict ndarray) (n : nat) :
  mode cfg = AND \/ mode cfg = OR ->
  signals <> [] ->
  equal_length signals n ->
  Permutation signals signals' ->
  combine cfg signals' = combine cfg signals.
Proof.
  intros Hmode Hne Hlen Hperm.
  assert (Hne' : signals' <> []).
  { intros E. subst. apply Permutation_sym, Permutation_nil in Hperm. congruence. }
  assert (Hlen' : equal_length signals' n).
  { unfold equal_length in *. eapply Permutation_Forall; eauto. }
  assert (Hv : Permutation (values signals) (values signals'))
    by (unfold values; now apply Permutation_map).
  rewrite (combine_validated cfg signals n Hne Hlen).
  rewrite (combine_validated cfg signals' n Hne' Hlen').
  destruct Hmode as [Hm|Hm]; rewrite Hm.
  - destruct (combine_and_bars signals n Hne Hlen) as [r [E [L N]]].
    destruct (combine_and_bars signals' n Hne' Hlen') as [r' [E' [L' N']]].
    rewrite E, E'. f_equal. apply (nth_ext _ _ 0 0); [congruence|].
    intros j Hj. rewrite L' in Hj. rewrite (N j Hj), (N' j Hj).
    now rewrite !(forallb_permutation _ _ _ Hv).
  - destruct (combine_or_bars signals n Hne Hlen) as [r [E [L N]]].
    destruct (combine_or_bars signals' n Hne' Hlen') as [r' [E' [L' N']]].
    rewrite E, E'. f_equal. apply (nth_ext _ _ 0 0); [congruence|].
    intros j Hj. rewrite L' in Hj. rewrite (N j Hj), (N' j Hj). cbv zeta.
    rewrite !(existsb_permutation _ _ _ Hv).
    rewrite (np_sum_permutation (column 0 (values signals) j)
                                (column 0 (values signals') j))
      by (unfold column; now apply Permutation_map).
    reflexivity.
Qed.

Lemma combine_and_or_order_independent_witness :
  combine (default_config OR) [("b", [1; -1; 0]); ("c", [1; -1; 1]); ("a", [-1; 1; 0])]
  = combine (default_config OR) [("a", [-1; 1; 0]); ("b", [1; -1; 0]); ("c", [1; -1; 1])].
Proof.
  apply (combine_and_or_order_independent (default_config OR)
           [("a", [-1; 1; 0]); ("b", [1; -1; 0]); ("c", [1; -1; 1])]
           [("b", [1; -1; 0]); ("c", [1; -1; 1]); ("a", [-1; 1; 0])] 3).
  - now right.
  - discriminate.
  - repeat constructor.
  - apply (Permutation_cons_append [("b", [1; -1; 0]); ("c", [1; -1; 1])] ("a", [-1; 1; 0])).
Defined.

(** ** The signal combiner: construction and conversion of indicator output *)

Lemma is_nan_Prim2SF (x : float) :
  PrimFloat.is_nan x = true -> Prim2SF x = S754_nan.
Proof.
  unfold PrimFloat.is_nan. rewrite eqb_spec.
  destruct (Prim2SF x) as [s| s| |s m e]; try reflexivity; intros H; exfalso.
  - destruct s; discriminate.
  - destruct s; discriminate.
  - unfold SFeqb, SFcompare in H.
    destruct s; rewrite Z.compare_refl in H.
    + rewrite Pos.compare_cont_refl in H. discriminate.
    + rewrite Pos.compare_cont_refl in H. discriminate.
Qed.

(** no order comparison holds of a NaN *)
Lemma nan_unordered (x y : float) :
  PrimFloat.is_nan x = true ->
  PrimFloat.ltb x y = false /\ PrimFloat.ltb y x = false /\
  PrimFloat.leb x y = false /\ PrimFloat.leb y x = false /\
  PrimFloat.eqb x y = false.
Proof.
  intros H. apply is_nan_Prim2SF in H.
  rewrite !ltb_spec, !leb_spec, eqb_spec, H.
  unfold SFltb, SFleb, SFeqb, SFcompare.
  destruct (Prim2SF y) as [s| s| |s m e]; try destruct s; repeat split; reflexivity.
Qed.

Lemma np_broadcast2_same_length {A B C : Type} (f : A -> B -> C) (a : list A) (b : list B)
    (da : A) (db : B) (dc : C) :
  length a = length b ->
  exists res,
    np_broadcast2 f a b = Ok res /\ length res = length a /\
    forall j, (j < length a)%nat -> nth j res dc = f (nth j a da) (nth j b db).
Proof.
  intros HL. unfold np_broadcast2. rewrite HL, Nat.eqb_refl.
  eexists. split; [reflexivity|]. split.
  - rewrite length_map, length_combine. lia.
  - intros j Hj.
    rewrite (nth_map_lt (fun '(x, y) => f x y) _ (da, db)) by (rewrite length_combine; lia).
    now rewrite combine_nth.
Qed.

(** X7.  The conversion of buy and sell markers.  For the sources "major" and
    "minor", on marker series of one length, [convert_indicator_output]
    returns an array of that length over [{-1,0,1}]: a bar is 1 exactly when
    its buy marker is not NaN, -1 exactly when its buy marker is NaN and its
    sell marker is not (a buy marker hides a sell marker of the same bar),
    and 0 exactly when both are NaN. *)
Theorem convert_indicator_output_markers (r : IndicatorResult) (signal_source : string) :
  signal_source = "major" \/ signal_source = "minor" ->
  length (buy_markers r signal_source) = length (sell_markers r signal_source) ->
  exists res,
    convert_indicator_output r signal_source = Ok res /\
    length res = length (buy_markers r signal_source) /\
    forall j, (j < length res)%nat ->
      let buy := nth j (buy_markers r signal_source) nan in
      let sell := nth j (sell_markers r signal_source) nan in
      is_signal (nth j res 0) /\
      (nth j res 0 = 1 <-> PrimFloat.is_nan buy = false) /\
      (nth j res 0 = -1 <-> PrimFloat.is_nan buy = true /\ PrimFloat.is_nan sell = false) /\
      (nth j res 0 = 0 <-> PrimFloat.is_nan buy = true /\ PrimFloat.is_nan sell = true).
Proof.
  intros Hsrc HL.
  assert (E : convert_indicator_output r signal_source
              = np_where_b (np_notnan (buy_markers r signal_source)) 1
                  (np_where_scalar (np_notnan (sell_markers r signal_source)) (-1) 0)).
  { destruct Hsrc; subst signal_source; reflexivity. }
  rewrite E. clear E.
  set (buy := buy_markers r signal_source) in *.
  set (sell := sell_markers r signal_source) in *.
  destruct (np_broadcast2_same_length (fun (b : bool) v => if b then 1 else v)
              (np_notnan buy) (np_where_scalar (np_notnan sell) (-1) 0) false 0 0)
    as [res [Er [Lr Nr]]].
  { unfold np_where_scalar, np_notnan. rewrite !length_map. exact HL. }
  unfold np_notnan in Lr at 1. rewrite length_map in Lr.
  exists res. split; [exact Er|]. split; [exact Lr|].
  intros j Hj. cbv zeta. rewrite Nr by (unfold np_notnan; rewrite length_map; lia).
  unfold np_where_scalar, np_notnan.
  rewrite (nth_map_lt (fun x => negb (PrimFloat.is_nan x)) buy nan) by lia.
  rewrite (nth_map_lt (fun b : bool => if b then -1 else 0) _ false)
    by (rewrite length_map; lia).
  rewrite (nth_map_lt (fun x => negb (PrimFloat.is_nan x)) sell nan) by lia.
  unfold is_signal.
  destruct (PrimFloat.is_nan (nth j buy nan)), (PrimFloat.is_nan (nth j sell nan));
    simpl; repeat split; intros; try lia; try discriminate; auto;
    try (destruct H; discriminate).
Qed.

Lemma convert_indicator_output_markers_witness :
  exists res,
    convert_indicator_output marker_result "major" = Ok res /\
    length res = length (buy_markers marker_result "major") /\
    forall j, (j < length res)%nat ->
      let buy := nth j (buy_markers marker_result "major") nan in
      let sell := nth j (sell_markers marker_result "major") nan in
      is_signal (nth j res 0) /\
      (nth j res 0 = 1 <-> PrimFloat.is_nan buy = false) /\
      (nth j res 0 = -1 <-> PrimFloat.is_nan buy = true /\ PrimFloat.is_nan sell = false) /\
      (nth j res 0 = 0 <-> PrimFloat.is_nan buy = true /\ PrimFloat.is_nan sell = true).
Proof.
  apply (convert_indicator_output_markers marker_result "major").
  - now left.
  - reflexivity.
Defined.

Example convert_markers_run :
  convert_indicator_output marker_result "major" = Ok [1; 1; -1].
Proof. reflexivity. Qed.

(** X8.  The conversion of a composite series, and the unknown source.  For the
    source "composite" the result has the length of the series and a bar is
    1 exactly when the composite is greater than 0, -1 exactly when it is
    less than 0, and 0 otherwise, in particular where it is NaN.  Every
    source name other than "major", "minor" and "composite" raises the
    ValueError that names it. *)
Theorem convert_indicator_output_composite (r : IndicatorResult) :
  (exists res,
     convert_indicator_output r "composite" = Ok res /\
     length res = length (composite r) /\
     forall j, (j < length res)%nat ->
       let x := nth j (composite r) nan in
       is_signal (nth j res 0) /\
       (nth j res 0 = 1 <-> PrimFloat.ltb 0%float x = true) /\
       (nth j res 0 = -1 <-> PrimFloat.ltb 0%float x = false /\ PrimFloat.ltb x 0%float = true) /\
       (PrimFloat.is_nan x = true -> nth j res 0 = 0)) /\
  (forall signal_source,
     signal_source <> "major" -> signal_source <> "minor" ->
     signal_source <> "composite" ->
     convert_indicator_output r signal_source
     = Raise (ValueError [Lit "Unknown signal_source: "; Lit signal_source])).
Proof.
  split.
  - unfold convert_indicator_output. simpl String.eqb. cbv iota zeta.
    set (c := composite r).
    destruct (np_broadcast2_same_length (fun (b : bool) v => if b then 1 else v)
                (map (fun x => PrimFloat.ltb 0%float x) c)
                (np_where_scalar (map (fun x => PrimFloat.ltb x 0%float) c) (-1) 0)
                false 0 0)
      as [res [Er [Lr Nr]]].
    { unfold np_where_scalar. now rewrite !length_map. }
    rewrite length_map in Lr.
    exists res. split; [exact Er|]. split; [exact Lr|].
    intros j Hj. cbv zeta. rewrite Nr by (rewrite length_map; lia).
    unfold np_where_scalar.
    rewrite (nth_map_lt (fun x => PrimFloat.ltb 0%float x) c nan) by lia.
    rewrite (nth_map_lt (fun b : bool => if b then -1 else 0) _ false)
      by (rewrite length_map; lia).
    rewrite (nth_map_lt (fun x => PrimFloat.ltb x 0%float) c nan) by lia.
    unfold is_signal.
    split; [|split; [|split]].
    + destruct (PrimFloat.ltb 0 (nth j c nan)); [lia|].
      destruct (PrimFloat.ltb (nth j c nan) 0); lia.
    + destruct (PrimFloat.ltb 0 (nth j c nan)); [tauto|].
      destruct (PrimFloat.ltb (nth j c nan) 0); split; intros; try lia; discriminate.
    + destruct (PrimFloat.ltb 0 (nth j c nan)), (PrimFloat.ltb (nth j c nan) 0);
        split; intros H; try lia; try (destruct H; discriminate); auto.
    + intros Hnan. destruct (nan_unordered (nth j c nan) 0%float Hnan) as [H1 [H2 _]].
      now rewrite H1, H2.
  - intros s N1 N2 N3. unfold convert_indicator_output.
    destruct (String.eqb_spec s "major"); [congruence|].
    destruct (String.eqb_spec s "minor"); [congruence|].
    destruct (String.eqb_spec s "composite"); [congruence|].
    reflexivity.
Qed.

(** X9.  The constructor of the combiner.  A configuration, when given, is kept
    as it is and the mode string is not even validated; without one, the
    value string of each of the four modes selects the default configuration
    of that mode (the lookup inverts [CombineMode_value]) and every other
    string, for instance a value in capitals, raises ValueError. *)
Theorem combiner_init_mode_lookup :
  (forall cfg s, __init__ (Some cfg) s = Ok cfg) /\
  (forall m, __init__ None (CombineMode_value m) = Ok (default_config m)) /\
  (forall s m, CombineMode_of_value s = Ok m -> s = CombineMode_value m) /\
  (forall s, (forall m, s <> CombineMode_value m) ->
     __init__ None s = Raise (ValueError [Lit "'"; Lit s; Lit "' is not a valid CombineMode"])) /\
  (exists msg, __init__ None "AND" = Raise (ValueError msg)).
Proof.
  split; [reflexivity|]. split; [intros []; reflexivity|]. split; [|split].
  - intros s m. unfold CombineMode_of_value.
    destruct (String.eqb_spec s "and"); [intros E; inversion E; subst; reflexivity|].
    destruct (String.eqb_spec s "or"); [intros E; inversion E; subst; reflexivity|].
    destruct (String.eqb_spec s "weighted"); [intros E; inversion E; subst; reflexivity|].
    destruct (String.eqb_spec s "confirm"); [intros E; inversion E; subst; reflexivity|].
    discriminate.
  - intros s H. unfold __init__, CombineMode_of_value.
    destruct (String.eqb_spec s "and") as [E|_]; [exfalso; exact (H AND E)|].
    destruct (String.eqb_spec s "or") as [E|_]; [exfalso; exact (H OR E)|].
    destruct (String.eqb_spec s "weighted") as [E|_]; [exfalso; exact (H WEIGHTED E)|].
    destruct (String.eqb_spec s "confirm") as [E|_]; [exfalso; exact (H CONFIRM E)|].
    reflexivity.
  - eexists. reflexivity.
Qed.

(** ** Further moving-average kernels *)

(** reading and writing inside the array *)
Ltac in_range :=
  unfold len in *; rewrite ?list_set_length, ?np_empty_length, ?repeat_length in *; lia.

Ltac get_ok a i :=
  rewrite (getitem_in_range 0%float a i) by in_range; simpl bind.

Ltac set_ok :=
  rewrite setitem_in_range by in_range; simpl bind.

Lemma fdiv_defined (x y : float) :
  PrimFloat.eqb y 0 = false -> fdiv x y = Ok (PrimFloat.div x y).
Proof. intros H. unfold fdiv. now rewrite H. Qed.

Lemma fdiv_literal_2 (x : float) : fdiv x 2 = Ok (PrimFloat.div x 2).
Proof. reflexivity. Qed.

(** 64-bit arithmetic does not wrap inside its range *)
Lemma wrap64_small (z : Z) : - 2 ^ 63 <= z < 2 ^ 63 -> wrap64 z = z.
Proof. intros H. unfold wrap64. rewrite Z.mod_small by lia. lia. Qed.

Lemma nb_range_for_range {S : Type} (lo hi : Z) (body : Z -> S -> result S) (s : S) :
  - 2 ^ 63 <= hi - lo < 2 ^ 63 -> nb_range lo hi body s = for_range lo hi body s.
Proof. intros H. unfold nb_range, for_range. now rewrite wrap64_small. Qed.



(** a loop that stores [g i] into cell [i] at step [i] fills the array with
    [g] *)
Lemma for_range_fill (g : nat -> float) (body : Z -> list float -> result (list float))
    (n : nat) (init : list float) :
  length init = n ->
  (forall i o, 0 <= i < Z.of_nat n -> length o = n ->
     body i o = Ok (list_set o (Z.to_nat i) (g (Z.to_nat i)))) ->
  exists out,
    for_range 0 (Z.of_nat n) body init = Ok out /\
    length out = n /\
    forall i, (i < n)%nat -> nth i out 0%float = g i.
Proof.
  intros Hinit Hbody.
  set (P := fun (i : Z) (o : list float) =>
              length o = n /\ forall k, Z.of_nat k < i -> nth k o 0%float = g k).
  destruct (for_range_invariant P body 0 (Z.of_nat n) init) as [out [E [L H]]].
  - lia.
  - unfold P. split; [exact Hinit | intros; lia].
  - intros i o Hi [HL Hdone]. rewrite (Hbody i o Hi HL).
    eexists. split; [reflexivity|]. unfold P.
    split; [now rewrite list_set_length|].
    intros k Hk. destruct (Z.eq_dec (Z.of_nat k) i) as [Ek|Nk].
    + replace (Z.to_nat i) with k by lia. apply nth_list_set_eq. lia.
    + rewrite nth_list_set_neq by lia. apply Hdone. lia.
  - exists out. split; [exact E|]. split; [exact L|].
    intros i Hi. apply H. lia.
Qed.



(** a loop that folds a function of the index *)
Lemma for_loop_fold_seq {S : Type} (f : S -> nat -> S) (body : Z -> S -> result S)
    (count k0 : nat) (s : S) :
  (forall k st, (k0 <= k < k0 + count)%nat -> body (Z.of_nat k) st = Ok (f st k)) ->
  for_loop count (Z.of_nat k0) body s = Ok (fold_left f (seq k0 count) s).
Proof.
  revert k0 s. induction count as [|c IH]; intros k0 s H; [reflexivity|].
  simpl. rewrite (H k0 s) by lia. simpl.
  replace (Z.of_nat k0 + 1) with (Z.of_nat (Datatypes.S k0)) by lia.
  apply IH. intros k st Hk. apply H. lia.
Qed.

Lemma for_range_fold_seq {S : Type} (f : S -> nat -> S) (body : Z -> S -> result S)
    (l : Z) (s : S) :
  (forall k st, Z.of_nat k < l -> body (Z.of_nat k) st = Ok (f st k)) ->
  for_range 0 l body s = Ok (fold_left f (seq 0 (Z.to_nat l)) s).
Proof.
  intros H. unfold for_range. rewrite Z.sub_0_r.
  apply (for_loop_fold_seq f body (Z.to_nat l) 0 s).
  intros k st Hk. apply H. lia.
Qed.

(** The SMA kernel returns for every window from 1 on, whatever the length
    of the series, with NaN in the warm-up positions. *)
Lemma sma_1d_nb_returns (src : list float) (window : Z) :
  1 <= window < 2 ^ 63 ->
  exists out,
    sma_1d_nb src window = Ok out /\ length out = length src /\
    forall k, (k < length src)%nat -> Z.of_nat k < window - 1 ->
      PrimFloat.is_nan (nth k out 0%float) = true.
Proof.
  intros Hw. unfold sma_1d_nb.
  assert (Hz : PrimFloat.eqb (Z2f window) 0 = false) by (apply Z2f_nonzero; lia).
  set (P := fun (i : Z) (st : list float * float) =>
              length (fst st) = length src /\
              forall k, Z.of_nat k < i -> Z.of_nat k < window - 1 ->
                PrimFloat.is_nan (nth k (fst st) 0%float) = true).
  match goal with
  | |- context [for_range 0 (len src) ?body ?init] =>
      destruct (for_range_invariant P body 0 (len src) init) as [[out c] [E [L H]]]
  end.
  - unfold len. lia.
  - unfold P. simpl. split; [apply np_empty_length | intros; lia].
  - intros i [o c] Hi [HL Hdone]. simpl in HL, Hdone.
    get_ok src i.
    assert (Ec : exists c',
               (if window <=? i
                then y <- getitem src (i - window) ;; Ok (c + nth (Z.to_nat i) src 0 - y)%float
                else Ok (c + nth (Z.to_nat i) src 0)%float) = Ok c').
    { destruct (Z.leb_spec window i).
      - get_ok src (i - window). eexists; reflexivity.
      - eexists; reflexivity. }
    destruct Ec as [c' Ec]. rewrite Ec. simpl bind.
    destruct (Z.ltb_spec i (window - 1)).
    + set_ok. eexists. split; [reflexivity|]. unfold P. simpl.
      split; [now rewrite list_set_length|].
      intros k Hk Hkw. destruct (Z.eq_dec (Z.of_nat k) i) as [Ek|Nk].
      * replace (Z.to_nat i) with k by lia.
        rewrite nth_list_set_eq by in_range. reflexivity.
      * rewrite nth_list_set_neq by lia. apply Hdone; lia.
    + rewrite fdiv_defined by exact Hz. simpl bind. set_ok.
      eexists. split; [reflexivity|]. unfold P. simpl.
      split; [now rewrite list_set_length|].
      intros k Hk Hkw. rewrite nth_list_set_neq by lia. apply Hdone; lia.
  - rewrite E. simpl bind. exists out. simpl in L. split; [reflexivity|].
    split; [exact L|]. intros k Hk Hkw. apply H; unfold len; lia.
Qed.

(** *** RMA *)

Lemma prefix_sum_succ (src : list float) (k : nat) :
  (k < length src)%nat ->
  prefix_sum src (S k) = PrimFloat.add (prefix_sum src k) (nth k src 0%float).
Proof.
  intros Hk. unfold prefix_sum.
  rewrite (firstn_snoc_nth_error src k (nth k src 0%float)).
  - now rewrite fold_left_app.
  - now apply nth_error_nth'.
Qed.

Lemma rma_seed_loop (src : list float) (window : Z) :
  0 <= window ->
  exists out,
    for_range 0 (Z.min window (len src))
      (fun i '(out, s) =>
         x <- getitem src i ;;
         out <- setitem out i nan ;;
         Ok (out, PrimFloat.add s x))
      (np_empty (length src), 0%float)
    = Ok (out, prefix_sum src (Z.to_nat (Z.min window (len src)))) /\
    length out = length src /\
    forall k, Z.of_nat k < Z.min window (len src) ->
      PrimFloat.is_nan (nth k out 0%float) = true.
Proof.
  intros Hw.
  set (P := fun (i : Z) (st : list float * float) =>
              length (fst st) = length src /\
              snd st = prefix_sum src (Z.to_nat i) /\
              forall k, Z.of_nat k < i ->
                PrimFloat.is_nan (nth k (fst st) 0%float) = true).
  match goal with
  | |- context [for_range 0 ?hi ?body ?init] =>
      destruct (for_range_invariant P body 0 hi init) as [[out c] [E [L [Hs H]]]]
  end.
  - unfold len. lia.
  - unfold P. simpl. split; [apply np_empty_length|]. split; [reflexivity | intros; lia].
  - intros i [o c] Hi [HL [Hc Hdone]]. simpl in HL, Hc, Hdone.
    get_ok src i. set_ok.
    eexists. split; [reflexivity|]. unfold P. simpl.
    split; [now rewrite list_set_length|]. split.
    + replace (Z.to_nat (i + 1)) with (S (Z.to_nat i)) by lia.
      rewrite prefix_sum_succ by in_range. now rewrite Hc.
    + intros k Hk. destruct (Z.eq_dec (Z.of_nat k) i) as [Ek|Nk].
      * replace (Z.to_nat i) with k by lia.
        rewrite nth_list_set_eq by in_range. reflexivity.
      * rewrite nth_list_set_neq by lia. apply Hdone; lia.
  - simpl in L, Hs. exists out. subst c. auto.
Qed.

(** X10.  The RMA (Wilder) kernel for a window from 1 on.  It returns an array of
    the length of the series, NaN before index [window - 1]; when the window
    exceeds the series every position is NaN; otherwise position
    [window - 1] holds the sum of the first [window] samples over [window]
    and each later position is [(out[i-1] * (window - 1) + src[i]) / window]. *)
Theorem rma_1d_nb_wilder (src : list float) (window : Z) :
  1 <= window < 2 ^ 63 ->
  exists out,
    rma_1d_nb src window = Ok out /\
    length out = length src /\
    (forall k, (k < length src)%nat -> Z.of_nat k < window - 1 ->
       PrimFloat.is_nan (nth k out 0%float) = true) /\
    (len src < window -> out = repeat nan (length src)) /\
    (window <= len src ->
       nth (Z.to_nat (window - 1)) out 0%float
       = PrimFloat.div (prefix_sum src (Z.to_nat window)) (Z2f window) /\
       forall i, (Z.to_nat window <= i < length src)%nat ->
         nth i out 0%float
         = PrimFloat.div
             (PrimFloat.add (PrimFloat.mul (nth (i - 1) out 0%float) (Z2f (window - 1)))
                            (nth i src 0%float))
             (Z2f window)).
Proof.
  intros Hw. unfold rma_1d_nb. cbv zeta.
  assert (Hz : PrimFloat.eqb (Z2f window) 0 = false) by (apply Z2f_nonzero; lia).
  destruct (rma_seed_loop src window ltac:(lia)) as [out0 [E0 [L0 N0]]].
  rewrite E0. simpl bind.
  destruct (Z.leb_spec window (len src)) as [Hle|Hgt].
  - rewrite fdiv_defined by exact Hz. simpl bind. set_ok.
    replace (Z.min window (len src)) with window in * by lia.
    set (seed := PrimFloat.div (prefix_sum src (Z.to_nat window)) (Z2f window)).
    set (out1 := list_set out0 (Z.to_nat (window - 1)) seed).
    set (P := fun (i : Z) (o : list float) =>
                length o = length src /\
                (forall k, Z.of_nat k < window - 1 ->
                   PrimFloat.is_nan (nth k o 0%float) = true) /\
                nth (Z.to_nat (window - 1)) o 0%float = seed /\
                forall k, window <= Z.of_nat k < i ->
                  nth k o 0%float
                  = PrimFloat.div
                      (PrimFloat.add
                         (PrimFloat.mul (nth (k - 1) o 0%float) (Z2f (window - 1)))
                         (nth k src 0%float))
                      (Z2f window)).
    match goal with
    | |- context [for_range window (len src) ?body out1] =>
        destruct (for_range_invariant P body window (len src) out1) as [out [E [L [Hn [Hs H]]]]]
    end.
    + exact Hle.
    + unfold P, out1. split; [now rewrite list_set_length|]. split; [|split].
      * intros k Hk. rewrite nth_list_set_neq by lia. apply N0. lia.
      * rewrite nth_list_set_eq by in_range. reflexivity.
      * intros; lia.
    + intros i o Hi [HL [Hnan [Hseed Hrec]]].
      get_ok o (i - 1). get_ok src i.
      rewrite fdiv_defined by exact Hz. simpl bind. set_ok.
      eexists. split; [reflexivity|]. unfold P.
      split; [now rewrite list_set_length|]. split; [|split].
      * intros k Hk. rewrite nth_list_set_neq by lia. now apply Hnan.
      * rewrite nth_list_set_neq by lia. exact Hseed.
      * intros k Hk. destruct (Z.eq_dec (Z.of_nat k) i) as [Ek|Nk].
        -- replace (Z.to_nat i) with k by lia.
           rewrite nth_list_set_eq by in_range.
           rewrite nth_list_set_neq by lia.
           replace (Z.to_nat (i - 1)) with (k - 1)%nat by lia. reflexivity.
        -- rewrite !nth_list_set_neq by lia. apply Hrec. lia.
    + exists out. split; [exact E|]. split; [exact L|]. split; [|split].
      * intros k _ Hk. now apply Hn.
      * intros; lia.
      * intros _. split; [exact Hs|]. intros i Hi. apply H. unfold len. lia.
  - replace (Z.min window (len src)) with (len src) in * by lia.
    exists out0. split; [reflexivity|]. split; [exact L0|]. split; [|split].
    + intros k Hk _. apply N0. unfold len. lia.
    + intros _. rewrite <- L0. apply (list_all_nth 0%float).
      intros k Hk.
      assert (Hnan : PrimFloat.is_nan (nth k out0 0%float) = true)
        by (apply N0; unfold len; lia).
      apply is_nan_Prim2SF in Hnan.
      rewrite <- (SF2Prim_Prim2SF (nth k out0 0%float)), Hnan. reflexivity.
    + intros; lia.
Qed.

Lemma rma_1d_nb_wilder_witness :
  exists out,
    rma_1d_nb [1; 2; 3; 4]%float 2 = Ok out /\
    length out = length [1; 2; 3; 4]%float /\
    (forall k, (k < length [1; 2; 3; 4]%float)%nat -> Z.of_nat k < 2 - 1 ->
       PrimFloat.is_nan (nth k out 0%float) = true) /\
    (len [1; 2; 3; 4]%float < 2 -> out = repeat nan (length [1; 2; 3; 4]%float)) /\
    (2 <= len [1; 2; 3; 4]%float ->
       nth (Z.to_nat (2 - 1)) out 0%float
       = PrimFloat.div (prefix_sum [1; 2; 3; 4]%float (Z.to_nat 2)) (Z2f 2) /\
       forall i, (Z.to_nat 2 <= i < length [1; 2; 3; 4]%float)%nat ->
         nth i out 0%float
         = PrimFloat.div
             (PrimFloat.add (PrimFloat.mul (nth (i - 1) out 0%float) (Z2f (2 - 1)))
                            (nth i [1; 2; 3; 4]%float 0%float))
             (Z2f 2)).
Proof.
  apply (rma_1d_nb_wilder [1; 2; 3; 4]%float 2). lia.
Defined.

Example rma_runs :
  rma_1d_nb [1; 2; 3; 4]%float 2 = Ok [nan; 1.5; 2.25; 3.125]%float /\
  rma_1d_nb [1; 2]%float 3 = Ok [nan; nan]%float /\
  rma_1d_nb [1; 2]%float 0 = Raise ZeroDivisionError.
Proof. repeat split; reflexivity. Qed.

(** *** TEMA, XEMA and the dispatcher *)

(** X11.  The TEMA kernel chains three runs of the EMA kernel.  For every window
    from 0 on and every non-empty series the three runs return [e1] on the
    series, [e2] on [e1] and [e3] on [e2], the kernel returns an array of the
    length of the series, and at every index it holds the float
    [3*e1[i] - 3*e2[i] + e3[i]]. *)
Theorem tema_chain_identity (src : list float) (window : Z) :
  0 <= window ->
  src <> [] ->
  exists e1 e2 e3 out,
    ema_1d_nb src window = Ok e1 /\
    ema_1d_nb e1 window = Ok e2 /\
    ema_1d_nb e2 window = Ok e3 /\
    tema_1d_nb src window = Ok out /\
    length out = length src /\
    forall i, (i < length src)%nat ->
      nth i out 0%float = (3 * nth i e1 0 - 3 * nth i e2 0 + nth i e3 0)%float.
Proof.
  intros Hw Hne.
  assert (Ha : PrimFloat.eqb (PrimFloat.add (Z2f window) 1) 0 = false)
    by (apply window_plus_one_nonzero; lia).
  assert (Hnonempty : forall a b : list float, length a = length b -> b <> [] -> a <> []).
  { intros a b HL Hb E. subst a. destruct b; [congruence | discriminate]. }
  destruct (ema_1d_nb_returns src window Hne Ha) as [e1 [E1 [L1 _]]].
  destruct (ema_1d_nb_returns e1 window (Hnonempty _ _ L1 Hne) Ha) as [e2 [E2 [L2 _]]].
  assert (Hne2 : e2 <> []) by (apply (Hnonempty _ src); [congruence | exact Hne]).
  destruct (ema_1d_nb_returns e2 window Hne2 Ha) as [e3 [E3 [L3 _]]].
  exists e1, e2, e3. unfold tema_1d_nb. rewrite E1. simpl bind.
  rewrite E2. simpl bind. rewrite E3. simpl bind. cbv zeta.
  set (P := fun (i : Z) (o : list float) =>
              length o = length src /\
              forall k, Z.of_nat k < i ->
                nth k o 0%float = (3 * nth k e1 0 - 3 * nth k e2 0 + nth k e3 0)%float).
  match goal with
  | |- context [for_range 0 (len src) ?body ?init] =>
      destruct (for_range_invariant P body 0 (len src) init) as [out [E [L H]]]
  end.
  - unfold len. lia.
  - unfold P. split; [apply np_empty_length | intros; lia].
  - intros i o Hi [HL Hdone].
    get_ok e1 i. get_ok e2 i. get_ok e3 i. set_ok.
    eexists. split; [reflexivity|]. unfold P.
    split; [now rewrite list_set_length|].
    intros k Hk. destruct (Z.eq_dec (Z.of_nat k) i) as [Ek|Nk].
    + replace (Z.to_nat i) with k by lia.
      rewrite nth_list_set_eq by in_range. reflexivity.
    + rewrite nth_list_set_neq by lia. apply Hdone. lia.
  - exists out. repeat split; auto. intros i Hi. apply H. unfold len. lia.
Qed.

Lemma tema_chain_identity_witness :
  exists e1 e2 e3 out,
    ema_1d_nb [1; 2; 4]%float 3 = Ok e1 /\
    ema_1d_nb e1 3 = Ok e2 /\
    ema_1d_nb e2 3 = Ok e3 /\
    tema_1d_nb [1; 2; 4]%float 3 = Ok out /\
    length out = length [1; 2; 4]%float /\
    forall i, (i < length [1; 2; 4]%float)%nat ->
      nth i out 0%float = (3 * nth i e1 0 - 3 * nth i e2 0 + nth i e3 0)%float.
Proof.
  apply (tema_chain_identity [1; 2; 4]%float 3).
  - lia.
  - discriminate.
Defined.

Example tema_run :
  tema_1d_nb [1; 2; 4]%float 3 = Ok [1; 1.875; 3.8125]%float.
Proof. reflexivity. Qed.

Lemma ma_type_names_codes :
  Forall (fun kv : string * Z => 0 <= snd kv <= 33) MA_TYPE_NAMES.
Proof. unfold MA_TYPE_NAMES. repeat constructor; simpl; discriminate. Qed.

(** X12.  The resolution of an MA type name.  A name of [MA_TYPE_NAMES] resolves
    to its code, between 0 and 33, in the Sniper / VZO wrapper and in the
    UniversalMA wrapper alike; an unknown name silently becomes the Jurik
    code in the first and raises ValueError in the second; an integer is
    passed through unvalidated by both.  What the Sniper controller hands
    over always resolves to the SMA code, whatever name is configured. *)
Theorem ma_type_resolution :
  (forall name code,
     dict_get MA_TYPE_NAMES name = Some code ->
     Sniper._resolve_ma (SniperController.PyStr name) = code /\
     MaLibrary._resolve_ma_type (SniperController.PyStr name) = Ok code /\
     0 <= code <= 33) /\
  (forall name,
     dict_get MA_TYPE_NAMES name = None ->
     Sniper._resolve_ma (SniperController.PyStr name) = MA_JURIK /\
     MaLibrary._resolve_ma_type (SniperController.PyStr name)
     = Raise (ValueError [Lit "Unknown MA type: "; Lit name])) /\
  (forall z,
     Sniper._resolve_ma (SniperController.PyInt z) = z /\
     MaLibrary._resolve_ma_type (SniperController.PyInt z) = Ok z) /\
  (forall name,
     Sniper._resolve_ma (SniperController.resolve_ma_type_idx name) = MA_SMA) /\
  Sniper._resolve_ma (SniperController.PyStr "Jurik Moving Average") = MA_JURIK.
Proof.
  split; [|split; [|split; [|split]]].
  - intros name code Hg. unfold Sniper._resolve_ma, MaLibrary._resolve_ma_type,
      MaLibrary._ma_type_map, dict_mem. rewrite Hg.
    split; [reflexivity|]. split; [reflexivity|].
    apply dict_get_In in Hg.
    pose proof ma_type_names_codes as F. rewrite Forall_forall in F.
    exact (F _ Hg).
  - intros name Hg. unfold Sniper._resolve_ma, MaLibrary._resolve_ma_type,
      MaLibrary._ma_type_map, dict_mem. rewrite Hg. split; reflexivity.
  - intros z. split; reflexivity.
  - intros name. unfold SniperController.resolve_ma_type_idx.
    rewrite resolve_loop_never_matches. reflexivity.
  - reflexivity.
Qed.

(** X13.  The dispatcher on the codes it has no branch for.  The VWMA code 32,
    which [MA_TYPE_NAMES] gives a name, and every code outside 0..33 run the
    SMA kernel; the XEMA code runs the same computation as the EMA code; and
    the code the Sniper controller resolves, whatever name it is configured
    with, runs the SMA kernel. *)
Theorem universal_ma_fallbacks (k : OtherKernels) (src : list float) (window : Z)
    (phase power : float) :
  (forall ma_type,
     ma_type < 0 \/ 33 < ma_type \/ ma_type = MA_VWMA ->
     universal_ma_1d_nb k src window ma_type phase power = sma_1d_nb src window) /\
  dict_get MA_TYPE_NAMES "Volume Weighted Moving Average" = Some MA_VWMA /\
  universal_ma_1d_nb k src window MA_XEMA phase power
  = universal_ma_1d_nb k src window MA_EMA phase power /\
  (forall name,
     universal_ma_1d_nb k src window
       (Sniper._resolve_ma (SniperController.resolve_ma_type_idx name)) phase power
     = sma_1d_nb src window).
Proof.
  split; [|split; [|split]].
  - intros ma_type H. unfold universal_ma_1d_nb.
    repeat match goal with
           | |- context [Z.eqb ma_type ?c] =>
               destruct (Z.eqb_spec ma_type c) as [?E|_];
               [ try reflexivity; exfalso; subst ma_type;
                 destruct H as [H|[H|H]]; try discriminate H; vm_compute in H;
                 try discriminate H; destruct H; discriminate
               |]
           end.
    reflexivity.
  - reflexivity.
  - reflexivity.
  - intros name. unfold SniperController.resolve_ma_type_idx.
    rewrite resolve_loop_never_matches. reflexivity.
Qed.

(** *** Kernels that guard their divisions *)

(** a loop whose body returns at every index of its range returns *)
Lemma for_range_total {S : Type} (body : Z -> S -> result S) (lo hi : Z) (s : S) :
  (forall i st, lo <= i < hi -> exists st', body i st = Ok st') ->
  exists s', for_range lo hi body s = Ok s'.
Proof.
  intros H. destruct (Z_le_gt_dec lo hi) as [Hle|Hgt].
  - destruct (for_range_invariant (fun _ _ => True) body lo hi s Hle I) as [s' [E _]].
    + intros i st Hi _. destruct (H i st Hi) as [st' E]. exists st'. auto.
    + exists s'. exact E.
  - exists s. apply for_range_empty. lia.
Qed.

(** X14.  The KAMA kernel guards its only non-constant division.  For every
    window from 0 on, every pair of smoothing ends and every non-empty series
    it returns an array of the length of the series, seeded with [src[0]],
    whose every later value is the previous one moved towards the sample by
    some factor: [out[i] = out[i-1] + sc * (src[i] - out[i-1])].  No index
    leaves the array and the division by the noise is never a division by
    zero. *)
Theorem kama_1d_nb_returns (src : list float) (window : Z) (fast_end slow_end : float) :
  0 <= window ->
  src <> [] ->
  exists out,
    kama_1d_nb src window fast_end slow_end = Ok out /\
    length out = length src /\
    nth 0 out 0%float = nth 0 src 0%float /\
    forall i, (1 <= i < length src)%nat ->
      exists sc,
        nth i out 0%float
        = (nth (i - 1) out 0 + sc * (nth i src 0 - nth (i - 1) out 0))%float.
Proof.
  intros Hw Hne. unfold kama_1d_nb. cbv zeta.
  assert (Hn : 0 < len src).
  { unfold len. destruct src; [congruence | simpl; lia]. }
  get_ok src 0. set_ok. change (Z.to_nat 0) with 0%nat.
  set (out0 := list_set (np_empty (length src)) 0 (nth 0 src 0%float)).
  set (P := fun (i : Z) (o : list float) =>
              length o = length src /\
              nth 0 o 0%float = nth 0 src 0%float /\
              forall k, (1 <= k)%nat -> Z.of_nat k < i ->
                exists sc,
                  nth k o 0%float
                  = (nth (k - 1) o 0 + sc * (nth k src 0 - nth (k - 1) o 0))%float).
  match goal with
  | |- context [for_range 1 (len src) ?body out0] =>
      destruct (for_range_invariant P body 1 (len src) out0) as [out [E [L [H0 H]]]]
  end.
  - lia.
  - unfold P, out0. split; [now rewrite list_set_length, np_empty_length|].
    split; [rewrite nth_list_set_eq by in_range; reflexivity | intros; lia].
  - intros i o Hi [HL [Hseed Hrec]].
    get_ok src i. get_ok src (Z.max 0 (i - window)).
    match goal with
    | |- context [for_range 0 (Z.min i window) ?b ?s0] =>
        destruct (for_range_total b 0 (Z.min i window) s0) as [noise En]
    end.
    { intros j st Hj. destruct (Z.leb_spec 0 (i - j - 1)); [|lia].
      get_ok src (i - j). get_ok src (i - j - 1). eexists; reflexivity. }
    rewrite En. simpl bind.
    assert (Eer : exists er,
               (if negb (PrimFloat.eqb noise 0)
                then fdiv (abs (nth (Z.to_nat i) src 0 -
                                nth (Z.to_nat (Z.max 0 (i - window))) src 0))%float noise
                else Ok 1%float) = Ok er).
    { destruct (PrimFloat.eqb noise 0) eqn:Ez; simpl.
      - eexists; reflexivity.
      - rewrite fdiv_defined by exact Ez. eexists; reflexivity. }
    destruct Eer as [er Eer]. rewrite Eer. simpl bind.
    get_ok o (i - 1). set_ok.
    eexists. split; [reflexivity|]. unfold P.
    split; [now rewrite list_set_length|]. split.
    + rewrite nth_list_set_neq by lia. exact Hseed.
    + intros k Hk1 Hk. destruct (Z.eq_dec (Z.of_nat k) i) as [Ek|Nk].
      * replace (Z.to_nat i) with k by lia.
        rewrite nth_list_set_eq by in_range.
        rewrite nth_list_set_neq by lia.
        replace (Z.to_nat (Z.of_nat k - 1)) with (k - 1)%nat by lia.
        rewrite <- Ek. replace (Z.to_nat (Z.of_nat k - 1)) with (k - 1)%nat by lia.
        eexists. reflexivity.
      * destruct (Hrec k Hk1 ltac:(lia)) as [sc Esc]. exists sc.
        rewrite !nth_list_set_neq by lia. exact Esc.
  - exists out. split; [exact E|]. split; [exact L|]. split; [exact H0|].
    intros i Hi. apply H; unfold len; lia.
Qed.

Lemma kama_1d_nb_returns_witness :
  exists out,
    kama_1d_nb [1; 1; 2]%float 2 0x1.54fdf3b645a1dp-1 0x1.083126e978d5p-4 = Ok out /\
    length out = length [1; 1; 2]%float /\
    nth 0 out 0%float = nth 0 [1; 1; 2]%float 0%float /\
    forall i, (1 <= i < length [1; 1; 2]%float)%nat ->
      exists sc,
        nth i out 0%float
        = (nth (i - 1) out 0 + sc * (nth i [1; 1; 2]%float 0 - nth (i - 1) out 0))%float.
Proof.
  apply (kama_1d_nb_returns [1; 1; 2]%float 2).
  - lia.
  - discriminate.
Defined.

(** a flat stretch has no noise: the guard takes the efficiency ratio 1.0
    and the kernel returns, where an unguarded quotient would divide by zero *)
Example kama_flat_series :
  exists out,
    kama_1d_nb [1; 1; 1]%float 2 0x1.54fdf3b645a1dp-1 0x1.083126e978d5p-4 = Ok out /\
    out = [1; 1; 1]%float.
Proof. eexists. split; reflexivity. Qed.

(** *** Donchian *)

Lemma donchian_scan (src : list float) (window : Z) (i : Z) (s : float * float) :
  - 2 ^ 63 < window -> len src < 2 ^ 63 ->
  0 <= i < len src ->
  nb_range 1 (Z.min (i + 1) window)
    (fun j '(hi, lo) =>
       v <- getitem src (i - j) ;;
       Ok (if PrimFloat.ltb hi v then v else hi, if PrimFloat.ltb v lo then v else lo))
    s
  = Ok (fold_left
          (fun '(hi, lo) v =>
             (if PrimFloat.ltb hi v then v else hi, if PrimFloat.ltb v lo then v else lo))
          (donchian_older src window (Z.to_nat i)) s).
Proof.
  intros Hw Hn Hi. rewrite nb_range_for_range by lia.
  unfold for_range, donchian_older. cbv zeta.
  rewrite Z2Nat.id by lia.
  set (count := Z.to_nat (Z.min (i + 1) window - 1)).
  rewrite (for_loop_fold_backward src
             (fun '(hi, lo) v =>
                (if PrimFloat.ltb hi v then v else hi, if PrimFloat.ltb v lo then v else lo))
             _ i).
  - replace (Z.to_nat (i - 1 - Z.of_nat count + 1)) with (Z.to_nat i - count)%nat
      by (subst count; lia).
    reflexivity.
  - intros j [hi lo]. reflexivity.
  - lia.
  - subst count. lia.
Qed.

(** one bar of the kernel: the scan of the window and the store *)
Lemma donchian_bar_computed (src : list float) (window i : Z) (o : list float) :
  - 2 ^ 63 < window -> len src < 2 ^ 63 ->
  0 <= i < len src -> length o = length src ->
  (hi <- getitem src i ;;
   lo <- getitem src i ;;
   '(hi, lo) <-
     nb_range 1 (Z.min (i + 1) window)
       (fun j '(hi, lo) =>
          v <- getitem src (i - j) ;;
          Ok (if PrimFloat.ltb hi v then v else hi, if PrimFloat.ltb v lo then v else lo))
       (hi, lo) ;;
   q <- fdiv (PrimFloat.add hi lo) 2%float ;;
   setitem o i q)
  = Ok (list_set o (Z.to_nat i) (donchian_bar src window (Z.to_nat i))).
Proof.
  intros Hw Hn Hi HL.
  get_ok src i.
  rewrite (donchian_scan src window i _ Hw Hn Hi). simpl bind.
  unfold donchian_bar, running_extremes.
  destruct (fold_left _ (donchian_older src window (Z.to_nat i))
              (nth (Z.to_nat i) src 0%float, nth (Z.to_nat i) src 0%float))
    as [hi lo].
  set_ok. reflexivity.
Qed.

(** X15.  The Donchian kernel has no warm-up.  For every 64-bit window but the
    least one (also zero, negative or larger than the series) it returns an
    array of the length of the series whose bar [i] is the mean of the
    highest and the lowest of the last [min(i+1, window)] samples, a partial
    window at the start of the series.  The least window [-2^63], where the
    trip count of the inner loop wraps, is excluded. *)
Theorem donchian_1d_nb_partial_window (src : list float) (window : Z) :
  - 2 ^ 63 < window < 2 ^ 63 ->
  len src < 2 ^ 63 ->
  exists out,
    donchian_1d_nb src window = Ok out /\
    length out = length src /\
    forall i, (i < length src)%nat -> nth i out 0%float = donchian_bar src window i.
Proof.
  intros [Hw _] Hn. unfold donchian_1d_nb, len. cbv zeta.
  apply (for_range_fill (donchian_bar src window)).
  - apply np_empty_length.
  - intros i o Hi HL. apply donchian_bar_computed; auto.
Qed.

Lemma donchian_1d_nb_partial_window_witness :
  exists out,
    donchian_1d_nb [1; 5; 3; 2]%float 3 = Ok out /\
    length out = length [1; 5; 3; 2]%float /\
    forall i, (i < length [1; 5; 3; 2]%float)%nat ->
      nth i out 0%float = donchian_bar [1; 5; 3; 2]%float 3 i.
Proof.
  apply (donchian_1d_nb_partial_window [1; 5; 3; 2]%float 3).
  - lia.
  - unfold len. simpl. lia.
Defined.

Example donchian_run :
  donchian_1d_nb [1; 5; 3; 2]%float 3 = Ok [1; 3; 3; 3.5]%float /\
  donchian_1d_nb [1; 5]%float 10 = Ok [1; 3]%float /\
  donchian_1d_nb [1; 5]%float (-1) = Ok [1; 5]%float.
Proof. repeat split; reflexivity. Qed.

(** *** VWMA *)

Lemma nth_error_combine_bind {A B : Type} (a : list A) (b : list B) (j : nat) :
  length a = length b ->
  match nth_error (List.combine a b) j with
  | Some p => Ok p
  | None => Raise IndexError
  end
  = (x <- match nth_error a j with Some x => Ok x | None => Raise IndexError end ;;
     y <- match nth_error b j with Some y => Ok y | None => Raise IndexError end ;;
     Ok (x, y)).
Proof.
  revert b j. induction a as [|x a IH]; intros [|y b] [|j] HL; simpl in *;
    try discriminate; try reflexivity.
  apply IH. lia.
Qed.

Lemma getitem_combine {A B : Type} (a : list A) (b : list B) (k : Z) :
  length a = length b ->
  getitem (List.combine a b) k = (x <- getitem a k ;; y <- getitem b k ;; Ok (x, y)).
Proof.
  intros HL. unfold getitem, norm_index, len.
  rewrite length_combine, <- HL, Nat.min_id.
  destruct ((0 <=? (if k <? 0 then k + Z.of_nat (length a) else k)) &&
            ((if k <? 0 then k + Z.of_nat (length a) else k) <? Z.of_nat (length a)));
    [|reflexivity].
  now apply nth_error_combine_bind.
Qed.

Lemma vwma_sums_split (w : list (float * float)) (s t : float) :
  fold_left
    (fun '(sv, tv) '(x, v) => (PrimFloat.add sv (PrimFloat.mul x v), PrimFloat.add tv v))
    w (s, t)
  = (fold_left (fun acc '(x, v) => PrimFloat.add acc (PrimFloat.mul x v)) w s,
     fold_left (fun acc '(x, v) => PrimFloat.add acc v) w t).
Proof.
  revert s t. induction w as [|[x v] w IH]; intros s t; simpl; [reflexivity | apply IH].
Qed.

(** where every bar is in the warm-up the kernel stores NaN everywhere; it
    reads neither the prices nor the volume *)
Lemma vwma_all_nan (src volume : list float) (window : Z) :
  len src <= wrap64 (window - 1) ->
  vwma_1d_nb src volume window = Ok (repeat nan (length src)).
Proof.
  intros Hw. unfold vwma_1d_nb. cbv zeta. unfold len at 1.
  match goal with
  | |- for_range 0 _ ?body ?init = _ =>
      destruct (for_range_fill (fun _ => nan) body (length src) init) as [out [E [L H]]]
  end.
  - apply np_empty_length.
  - intros i o Hi HL.
    destruct (Z.ltb_spec i (wrap64 (window - 1))); [|unfold len in Hw; lia].
    apply setitem_in_range. unfold len. lia.
  - rewrite E. f_equal. rewrite <- L. apply (list_all_nth 0%float).
    intros k Hk. apply H. lia.
Qed.

(** the kernel at a window whose predecessor does not wrap *)
Lemma vwma_1d_nb_bars (src volume : list float) (window : Z) :
  length volume = length src ->
  - 2 ^ 63 < window < 2 ^ 63 ->
  exists out,
    vwma_1d_nb src volume window = Ok out /\
    length out = length src /\
    (forall i, (i < length src)%nat -> nth i out 0%float = vwma_bar src volume window i) /\
    (window <= 0 -> out = src).
Proof.
  intros HL Hrange. unfold vwma_1d_nb. cbv zeta.
  rewrite (wrap64_small (window - 1)) by lia.
  set (P := fun (i : Z) (o : list float) =>
              length o = length src /\
              forall k, Z.of_nat k < i -> nth k o 0%float = vwma_bar src volume window k).
  match goal with
  | |- context [for_range 0 (len src) ?body ?init] =>
      destruct (for_range_invariant P body 0 (len src) init) as [out [E [L H]]]
  end.
  - unfold len. lia.
  - unfold P. split; [apply np_empty_length | intros; lia].
  - intros i o Hi [HLo Hdone].
    assert (Hbar : vwma_bar src volume window (Z.to_nat i)
                   = if i <? window - 1 then nan
                     else
                       let w := vwma_window src volume window (Z.to_nat i) in
                       let sv := fold_left
                                   (fun acc '(x, v) => PrimFloat.add acc (PrimFloat.mul x v))
                                   w 0%float in
                       let tv := fold_left (fun acc '(x, v) => PrimFloat.add acc v) w 0%float in
                       if PrimFloat.eqb tv 0 then nth (Z.to_nat i) src 0%float
                       else PrimFloat.div sv tv).
    { unfold vwma_bar. rewrite Z2Nat.id by lia. reflexivity. }
    assert (Estep : forall v,
               v = vwma_bar src volume window (Z.to_nat i) ->
               exists st', setitem o i v = Ok st' /\ P (i + 1) st').
    { intros v Ev. set_ok. eexists. split; [reflexivity|]. unfold P.
      split; [now rewrite list_set_length|].
      intros k Hk. destruct (Z.eq_dec (Z.of_nat k) i) as [Ek|Nk].
      - replace (Z.to_nat i) with k in * by lia.
        rewrite nth_list_set_eq by in_range. exact Ev.
      - rewrite nth_list_set_neq by lia. apply Hdone. lia. }
    destruct (Z.ltb_spec i (window - 1)) as [Hwarm|Hfull].
    + apply Estep. now rewrite Hbar.
    + assert (Eloop :
        for_range 0 window
          (fun j '(sv, tv) =>
             x <- getitem src (i - j) ;;
             v <- getitem volume (i - j) ;;
             v' <- getitem volume (i - j) ;;
             Ok (PrimFloat.add sv (PrimFloat.mul x v), PrimFloat.add tv v'))
          (0%float, 0%float)
        = Ok (fold_left
                (fun '(sv, tv) '(x, v) =>
                   (PrimFloat.add sv (PrimFloat.mul x v), PrimFloat.add tv v))
                (vwma_window src volume window (Z.to_nat i)) (0%float, 0%float))).
      { destruct (Z_le_gt_dec window 0) as [Hw0|Hw1].
        - rewrite for_range_empty by lia. unfold vwma_window.
          replace (Z.to_nat window) with 0%nat by lia. reflexivity.
        - unfold vwma_window.
          rewrite (for_range_fold_backward (List.combine src volume)
                     (fun '(sv, tv) '(x, v) =>
                        (PrimFloat.add sv (PrimFloat.mul x v), PrimFloat.add tv v))
                     _ i window).
          + replace (Z.to_nat (i - window + 1)) with (Z.to_nat i + 1 - Z.to_nat window)%nat
              by lia.
            reflexivity.
          + intros j [sv tv]. rewrite getitem_combine by congruence.
            destruct (getitem src (i - j)) as [x|e]; [|reflexivity]. simpl bind.
            destruct (getitem volume (i - j)) as [v|e]; reflexivity.
          + lia.
          + unfold len in *. rewrite length_combine. lia.
          + lia. }
      rewrite Eloop. simpl bind.
      rewrite vwma_sums_split.
      cbv beta iota zeta in Hbar.
      destruct (PrimFloat.eqb
                  (fold_left (fun acc '(x, v) => PrimFloat.add acc v)
                     (vwma_window src volume window (Z.to_nat i)) 0%float) 0) eqn:Ez.
      * simpl negb. cbv iota. get_ok src i. apply Estep. exact (eq_sym Hbar).
      * simpl negb. cbv iota. rewrite fdiv_defined by exact Ez. simpl bind.
        apply Estep. exact (eq_sym Hbar).
  - exists out. split; [exact E|]. split; [exact L|]. split.
    + intros i Hi. apply H. unfold len. lia.
    + intros Hw. apply (nth_ext _ _ 0%float 0%float); [exact L|].
      intros i Hi. rewrite H by (unfold len; lia).
      unfold vwma_bar, vwma_window.
      destruct (Z.ltb_spec (Z.of_nat i) (window - 1)); [lia|].
      replace (Z.to_nat window) with 0%nat by lia. reflexivity.
Qed.

(** X16.  The VWMA kernel guards its division by the total volume.  On a volume
    series of the length of the price series it returns for every 64-bit
    window.  For a window above the least one, a bar before [window - 1] is
    NaN, a later bar is the volume-weighted sum of the window over its total
    volume, and the price itself where the total volume is zero; with such a
    window of zero or less it returns the prices unchanged.  At the least
    window [-2^63] the difference [window - 1] wraps to [2^63 - 1] and every
    bar is NaN. *)
Theorem vwma_1d_nb_guarded (src volume : list float) (window : Z) :
  length volume = length src ->
  - 2 ^ 63 <= window < 2 ^ 63 ->
  len src < 2 ^ 63 ->
  exists out,
    vwma_1d_nb src volume window = Ok out /\
    length out = length src /\
    (- 2 ^ 63 < window ->
     forall i, (i < length src)%nat -> nth i out 0%float = vwma_bar src volume window i) /\
    (- 2 ^ 63 < window <= 0 -> out = src) /\
    (window = - 2 ^ 63 -> out = repeat nan (length src)).
Proof.
  intros HL Hw Hn. destruct (Z.eq_dec window (- 2 ^ 63)) as [Emin|Nmin].
  - exists (repeat nan (length src)). split; [|split; [|split; [|split]]].
    + apply vwma_all_nan. subst window.
      change (wrap64 (- 2 ^ 63 - 1)) with (2 ^ 63 - 1). lia.
    + apply repeat_length.
    + intros; lia.
    + intros; lia.
    + reflexivity.
  - destruct (vwma_1d_nb_bars src volume window HL ltac:(lia)) as [out [E [L [Hb Hs]]]].
    exists out. split; [exact E|]. split; [exact L|]. split; [|split].
    + intros _. exact Hb.
    + intros [_ H0]. exact (Hs H0).
    + intros; lia.
Qed.

Lemma vwma_1d_nb_guarded_witness :
  exists out,
    vwma_1d_nb [1; 2; 3]%float [0; 0; 4]%float 2 = Ok out /\
    length out = length [1; 2; 3]%float /\
    (- 2 ^ 63 < 2 ->
     forall i, (i < length [1; 2; 3]%float)%nat ->
       nth i out 0%float = vwma_bar [1; 2; 3]%float [0; 0; 4]%float 2 i) /\
    (- 2 ^ 63 < 2 <= 0 -> out = [1; 2; 3]%float) /\
    (2 = - 2 ^ 63 -> out = repeat nan (length [1; 2; 3]%float)).
Proof.
  apply (vwma_1d_nb_guarded [1; 2; 3]%float [0; 0; 4]%float 2).
  - reflexivity.
  - lia.
  - unfold len. simpl. lia.
Defined.

Example vwma_run :
  vwma_1d_nb [1; 2; 3]%float [0; 0; 4]%float 2 = Ok [nan; 2; 3]%float /\
  vwma_1d_nb [1; 2; 3]%float [0; 0; 4]%float 0 = Ok [1; 2; 3]%float /\
  vwma_1d_nb [1; 2; 3]%float [0; 0; 4]%float (- 2 ^ 63) = Ok [nan; nan; nan]%float.
Proof. repeat split; reflexivity. Qed.

(** *** Linear regression, Alexander, ILRS *)

Lemma copy_loop_invariant (src o : list float) (i : Z) (keep : nat -> Prop) (v : float) :
  0 <= i < len src ->
  length o = length src ->
  (forall k, Z.of_nat k < i -> keep k -> nth k o 0%float = nth k src 0%float) ->
  (keep (Z.to_nat i) -> v = nth (Z.to_nat i) src 0%float) ->
  exists st',
    setitem o i v = Ok st' /\
    length st' = length src /\
    forall k, Z.of_nat k < i + 1 -> keep k -> nth k st' 0%float = nth k src 0%float.
Proof.
  intros Hi HL Hdone Hv. set_ok. eexists. split; [reflexivity|].
  split; [now rewrite list_set_length|].
  intros k Hk Hkeep. destruct (Z.eq_dec (Z.of_nat k) i) as [Ek|Nk].
  - replace (Z.to_nat i) with k in * by lia.
    rewrite nth_list_set_eq by in_range. now apply Hv.
  - rewrite nth_list_set_neq by lia. apply Hdone; [lia | exact Hkeep].
Qed.

(** X17.  The linear-regression kernel returns for every window on every series
    whose length fits a 64-bit integer: no index leaves the array, the
    division by the regression denominator is guarded and the window lengths
    it divides by are at least 2.  A bar whose window [min(i+1, window)] has
    fewer than two samples is the sample itself, so a window of 1 or less
    returns the series unchanged. *)
Theorem linreg_1d_nb_returns (src : list float) (window : Z) :
  len src < 2 ^ 63 ->
  exists out,
    linreg_1d_nb src window = Ok out /\
    length out = length src /\
    (forall i, (i < length src)%nat -> Z.min (Z.of_nat i + 1) window < 2 ->
       nth i out 0%float = nth i src 0%float) /\
    (window <= 1 -> out = src).
Proof.
  intros Hn. unfold linreg_1d_nb. cbv zeta.
  set (keep := fun k : nat => Z.min (Z.of_nat k + 1) window < 2).
  set (P := fun (i : Z) (o : list float) =>
              length o = length src /\
              forall k, Z.of_nat k < i -> keep k -> nth k o 0%float = nth k src 0%float).
  match goal with
  | |- context [for_range 0 (len src) ?body ?init] =>
      destruct (for_range_invariant P body 0 (len src) init) as [out [E [L H]]]
  end.
  - unfold len. lia.
  - unfold P. split; [apply np_empty_length | intros; lia].
  - intros i o Hi [HL Hdone].
    destruct (Z.ltb_spec (Z.min (i + 1) window) 2) as [Hshort|Hlong].
    + get_ok src i.
      apply (copy_loop_invariant src o i keep); auto.
    + match goal with
      | |- context [for_range 0 (Z.min (i + 1) window) ?b ?s0] =>
          destruct (for_range_total b 0 (Z.min (i + 1) window) s0) as [[[[sx sy] sxx] sxy] Es]
      end.
      { intros j [[[a b] c] d] Hj. get_ok src (i - Z.min (i + 1) window + 1 + j).
        eexists; reflexivity. }
      rewrite Es. simpl bind.
      assert (Hz : PrimFloat.eqb (Z2f (Z.min (i + 1) window)) 0 = false)
        by (apply Z2f_nonzero; lia).
      match goal with
      | |- context [negb (PrimFloat.eqb ?d 0)] => destruct (PrimFloat.eqb d 0) eqn:Ed
      end; simpl negb; cbv iota.
      * rewrite fdiv_defined by exact Hz. simpl bind.
        apply (copy_loop_invariant src o i keep); auto.
        unfold keep. rewrite Z2Nat.id by lia. lia.
      * rewrite fdiv_defined by exact Ed. simpl bind.
        rewrite fdiv_defined by exact Hz. simpl bind.
        apply (copy_loop_invariant src o i keep); auto.
        unfold keep. rewrite Z2Nat.id by lia. lia.
  - exists out. split; [exact E|]. split; [exact L|]. split.
    + intros i Hi Hk. apply H; [unfold len; lia | exact Hk].
    + intros Hw. apply (nth_ext _ _ 0%float 0%float); [exact L|].
      intros i Hi. apply H; [unfold len; lia | unfold keep; lia].
Qed.

Lemma linreg_1d_nb_returns_witness :
  exists out,
    linreg_1d_nb [1; 2; 4]%float 3 = Ok out /\
    length out = length [1; 2; 4]%float /\
    (forall i, (i < length [1; 2; 4]%float)%nat -> Z.min (Z.of_nat i + 1) 3 < 2 ->
       nth i out 0%float = nth i [1; 2; 4]%float 0%float) /\
    (3 <= 1 -> out = [1; 2; 4]%float).
Proof.
  apply (linreg_1d_nb_returns [1; 2; 4]%float 3). unfold len. simpl. lia.
Defined.

Example linreg_run :
  exists out, linreg_1d_nb [1; 2; 4]%float 2 = Ok out /\ out = [1; 2; 4]%float.
Proof. eexists. split; reflexivity. Qed.


Example alexander_run :
  alexander_1d_nb [1; 2; 4]%float 3 = Ok [1; 2; 4]%float /\
  exists out, alexander_1d_nb [1; 2; 4]%float 4 = Ok out /\ length out = 3%nat.
Proof. split; [reflexivity|]. eexists. split; reflexivity. Qed.

(** the kernel, once its SMA run has returned *)
Lemma ilrs_1d_nb_bars (src sma_vals : list float) (window : Z) :
  sma_1d_nb src window = Ok sma_vals ->
  length sma_vals = length src ->
  exists out,
    ilrs_1d_nb src window = Ok out /\
    length out = length src /\
    forall i, (i < length src)%nat -> nth i out 0%float = ilrs_bar src sma_vals window i.
Proof.
  intros Es Ls. unfold ilrs_1d_nb. cbv zeta. rewrite Es. cbn [bind]. unfold len at 1.
  apply (for_range_fill (ilrs_bar src sma_vals window)).
  - apply np_empty_length.
  - intros i o Hi HL. unfold ilrs_bar. rewrite Z2Nat.id by lia.
    destruct (Z.ltb_spec (Z.min (i + 1) window) 2) as [Hshort|Hlong].
    + rewrite (getitem_in_range 0%float src i) by in_range. cbn [bind].
      rewrite setitem_in_range by in_range. reflexivity.
    + rewrite (for_range_fold_seq
                 (fun '(sum1, sumy) j =>
                    (sum1 + Z2f (Z.of_nat j) * nth (Z.to_nat i - j) src 0,
                     sumy + nth (Z.to_nat i - j) src 0)%float)).
      2:{ intros k [a b] Hk. get_ok src (i - Z.of_nat k).
          replace (Z.to_nat (i - Z.of_nat k)) with (Z.to_nat i - k)%nat by lia.
          reflexivity. }
      cbn [bind]. unfold ilrs_slope, ilrs_sums. rewrite Z2Nat.id by lia.
      destruct (fold_left _ (seq 0 (Z.to_nat (Z.min (i + 1) window))) (0%float, 0%float))
        as [sum1 sumy].
      try match goal with
          | |- context [fdiv ?x 6%float] =>
              change (fdiv x 6%float) with (Ok (PrimFloat.div x 6)); cbn [bind]
          end.
      match goal with
      | |- context [negb (PrimFloat.eqb ?d 0)] => destruct (PrimFloat.eqb d 0) eqn:Ed
      end; cbn [negb bind].
      * rewrite (getitem_in_range 0%float sma_vals i) by in_range. cbn [bind].
        rewrite (getitem_in_range 0%float src i) by in_range. cbn [bind].
        rewrite setitem_in_range by in_range. reflexivity.
      * rewrite fdiv_defined by exact Ed. cbn [bind].
        rewrite (getitem_in_range 0%float sma_vals i) by in_range. cbn [bind].
        rewrite (getitem_in_range 0%float src i) by in_range. cbn [bind].
        rewrite setitem_in_range by in_range. reflexivity.
Qed.

(** X19.  The ILRS kernel adds the regression slope to the SMA.  For every window
    from 1 on it returns an array of the length of the series (the SMA run
    it starts with returns); a bar whose window has fewer than two samples is
    the sample itself, every other bar is the regression slope of its window
    added to [sma[i]], and while the SMA is still in its NaN warm-up the
    sample takes the place of the SMA: the output has no NaN warm-up of its
    own. *)
Theorem ilrs_1d_nb_returns (src : list float) (window : Z) :
  1 <= window < 2 ^ 63 ->
  exists sma_vals out,
    sma_1d_nb src window = Ok sma_vals /\
    ilrs_1d_nb src window = Ok out /\
    length out = length src /\
    (forall i, (i < length src)%nat -> Z.min (Z.of_nat i + 1) window < 2 ->
       nth i out 0%float = nth i src 0%float) /\
    (forall i, (i < length src)%nat -> 2 <= Z.min (Z.of_nat i + 1) window ->
       nth i out 0%float
       = PrimFloat.add (ilrs_slope src window i)
           (_nz (nth i sma_vals 0%float) (nth i src 0%float))) /\
    (forall i, (i < length src)%nat -> 2 <= Z.min (Z.of_nat i + 1) window ->
       Z.of_nat i < window - 1 ->
       nth i out 0%float = PrimFloat.add (ilrs_slope src window i) (nth i src 0%float)).
Proof.
  intros Hw.
  destruct (sma_1d_nb_returns src window Hw) as [sma_vals [Es [Ls Hnan]]].
  destruct (ilrs_1d_nb_bars src sma_vals window Es Ls) as [out [E [L H]]].
  exists sma_vals, out. split; [exact Es|]. split; [exact E|]. split; [exact L|].
  split; [|split].
  - intros i Hi Hk. rewrite (H i Hi). unfold ilrs_bar.
    destruct (Z.ltb_spec (Z.min (Z.of_nat i + 1) window) 2); [reflexivity | lia].
  - intros i Hi Hk. rewrite (H i Hi). unfold ilrs_bar.
    destruct (Z.ltb_spec (Z.min (Z.of_nat i + 1) window) 2); [lia | reflexivity].
  - intros i Hi Hk Hwarm. rewrite (H i Hi). unfold ilrs_bar.
    destruct (Z.ltb_spec (Z.min (Z.of_nat i + 1) window) 2); [lia|].
    unfold _nz. now rewrite (Hnan i Hi Hwarm).
Qed.

Lemma ilrs_1d_nb_returns_witness :
  exists sma_vals out,
    sma_1d_nb [1; 2; 4; 8]%float 3 = Ok sma_vals /\
    ilrs_1d_nb [1; 2; 4; 8]%float 3 = Ok out /\
    length out = length [1; 2; 4; 8]%float /\
    (forall i, (i < length [1; 2; 4; 8]%float)%nat -> Z.min (Z.of_nat i + 1) 3 < 2 ->
       nth i out 0%float = nth i [1; 2; 4; 8]%float 0%float) /\
    (forall i, (i < length [1; 2; 4; 8]%float)%nat -> 2 <= Z.min (Z.of_nat i + 1) 3 ->
       nth i out 0%float
       = PrimFloat.add (ilrs_slope [1; 2; 4; 8]%float 3 i)
           (_nz (nth i sma_vals 0%float) (nth i [1; 2; 4; 8]%float 0%float))) /\
    (forall i, (i < length [1; 2; 4; 8]%float)%nat -> 2 <= Z.min (Z.of_nat i + 1) 3 ->
       Z.of_nat i < 3 - 1 ->
       nth i out 0%float
       = PrimFloat.add (ilrs_slope [1; 2; 4; 8]%float 3 i) (nth i [1; 2; 4; 8]%float 0%float)).
Proof.
  apply (ilrs_1d_nb_returns [1; 2; 4; 8]%float 3). lia.
Defined.

Example ilrs_run :
  sma_1d_nb [1; 2; 4; 8]%float 3 = Ok [nan; nan; 0x1.2aaaaaaaaaaabp+1; 0x1.2aaaaaaaaaaabp+2]%float /\
  exists out,
    ilrs_1d_nb [1; 2; 4; 8]%float 3 = Ok out /\
    PrimFloat.is_nan (nth 1 out 0%float) = false /\
    ilrs_1d_nb [1; 2; 4; 8]%float 0 = Raise ZeroDivisionError.
Proof. split; [reflexivity|]. eexists. repeat split; reflexivity. Qed.

(** *** SMA: the running sum *)

Lemma Prim2SF_is_nan (x : float) : Prim2SF x = S754_nan -> PrimFloat.is_nan x = true.
Proof. intros H. unfold PrimFloat.is_nan. rewrite eqb_spec, H. reflexivity. Qed.

Lemma nan_add_l (a b : float) :
  PrimFloat.is_nan a = true -> PrimFloat.is_nan (PrimFloat.add a b) = true.
Proof.
  intros H. apply is_nan_Prim2SF in H. apply Prim2SF_is_nan.
  rewrite add_spec, H. reflexivity.
Qed.

Lemma nan_add_r (a b : float) :
  PrimFloat.is_nan b = true -> PrimFloat.is_nan (PrimFloat.add a b) = true.
Proof.
  intros H. apply is_nan_Prim2SF in H. apply Prim2SF_is_nan.
  rewrite add_spec, H. unfold SF64add, SFadd. now destruct (Prim2SF a) as [[|]|[|]| |].
Qed.

Lemma nan_sub_l (a b : float) :
  PrimFloat.is_nan a = true -> PrimFloat.is_nan (PrimFloat.sub a b) = true.
Proof.
  intros H. apply is_nan_Prim2SF in H. apply Prim2SF_is_nan.
  rewrite sub_spec, H. reflexivity.
Qed.

Lemma nan_div_l (a b : float) :
  PrimFloat.is_nan a = true -> PrimFloat.is_nan (PrimFloat.div a b) = true.
Proof.
  intros H. apply is_nan_Prim2SF in H. apply Prim2SF_is_nan.
  rewrite div_spec, H. reflexivity.
Qed.

(** X20.  The SMA kernel keeps a running sum, so a NaN sample is never forgotten.
    For every window from 1 on the kernel returns an array of the length of
    the series with NaN before index [window - 1]; and if a sample is NaN,
    every output from that bar on is NaN, also after the sample has left the
    window. *)
Theorem sma_1d_nb_nan_is_sticky (src : list float) (window : Z) :
  1 <= window < 2 ^ 63 ->
  exists out,
    sma_1d_nb src window = Ok out /\
    length out = length src /\
    (forall i, (i < length src)%nat -> Z.of_nat i < window - 1 ->
       PrimFloat.is_nan (nth i out 0%float) = true) /\
    (forall k i, (k <= i < length src)%nat ->
       PrimFloat.is_nan (nth k src 0%float) = true ->
       PrimFloat.is_nan (nth i out 0%float) = true).
Proof.
  intros Hw. unfold sma_1d_nb. cbv zeta.
  assert (Hz : PrimFloat.eqb (Z2f window) 0 = false) by (apply Z2f_nonzero; lia).
  set (poisoned := fun i : Z =>
                     exists k, Z.of_nat k < i /\ PrimFloat.is_nan (nth k src 0%float) = true).
  set (P := fun (i : Z) (st : list float * float) =>
              length (fst st) = length src /\
              (forall j, Z.of_nat j < i -> Z.of_nat j < window - 1 ->
                 PrimFloat.is_nan (nth j (fst st) 0%float) = true) /\
              (forall j, Z.of_nat j < i -> poisoned (Z.of_nat j + 1) ->
                 PrimFloat.is_nan (nth j (fst st) 0%float) = true) /\
              (poisoned i -> PrimFloat.is_nan (snd st) = true)).
  match goal with
  | |- context [for_range 0 (len src) ?body ?init] =>
      destruct (for_range_invariant P body 0 (len src) init) as [[out c] [E [L [Hwm [Hp _]]]]]
  end.
  - unfold len. lia.
  - unfold P, poisoned. simpl. split; [apply np_empty_length|].
    split; [intros; lia|]. split; [intros; lia|]. intros [k [Hk _]]. lia.
  - intros i [o c] Hi [HL [Hwarm [Hpo Hc]]]. simpl in HL, Hwarm, Hpo, Hc.
    get_ok src i.
    set (x := nth (Z.to_nat i) src 0%float).
    assert (Hc1 : poisoned (i + 1) -> PrimFloat.is_nan (PrimFloat.add c x) = true).
    { intros [k [Hk Hnan]]. destruct (Z.eq_dec (Z.of_nat k) i) as [Ek|Nk].
      - apply nan_add_r. unfold x. now replace (Z.to_nat i) with k by lia.
      - apply nan_add_l. apply Hc. exists k. split; [lia | exact Hnan]. }
    assert (Ec : exists c',
               (if window <=? i
                then y <- getitem src (i - window) ;; Ok (PrimFloat.sub (PrimFloat.add c x) y)
                else Ok (PrimFloat.add c x)) = Ok c' /\
               (poisoned (i + 1) -> PrimFloat.is_nan c' = true)).
    { destruct (Z.leb_spec window i).
      - get_ok src (i - window). eexists. split; [reflexivity|].
        intros Hpz. apply nan_sub_l. now apply Hc1.
      - eexists. split; [reflexivity | exact Hc1]. }
    destruct Ec as [c' [Ec Hc']]. rewrite Ec. simpl bind.
    destruct (Z.ltb_spec i (window - 1)).
    + set_ok. eexists. split; [reflexivity|]. unfold P. simpl.
      split; [now rewrite list_set_length|]. split; [|split].
      * intros j Hj Hjw. destruct (Z.eq_dec (Z.of_nat j) i) as [Ej|Nj].
        -- replace (Z.to_nat i) with j by lia.
           rewrite nth_list_set_eq by in_range. reflexivity.
        -- rewrite nth_list_set_neq by lia. apply Hwarm; lia.
      * intros j Hj Hpj. destruct (Z.eq_dec (Z.of_nat j) i) as [Ej|Nj].
        -- replace (Z.to_nat i) with j by lia.
           rewrite nth_list_set_eq by in_range. reflexivity.
        -- rewrite nth_list_set_neq by lia. apply Hpo; [lia | exact Hpj].
      * exact Hc'.
    + rewrite fdiv_defined by exact Hz. simpl bind. set_ok.
      eexists. split; [reflexivity|]. unfold P. simpl.
      split; [now rewrite list_set_length|]. split; [|split].
      * intros j Hj Hjw. rewrite nth_list_set_neq by lia. apply Hwarm; lia.
      * intros j Hj Hpj. destruct (Z.eq_dec (Z.of_nat j) i) as [Ej|Nj].
        -- replace (Z.to_nat i) with j by lia.
           rewrite nth_list_set_eq by in_range.
           apply nan_div_l. apply Hc'. now rewrite <- Ej.
        -- rewrite nth_list_set_neq by lia. apply Hpo; [lia | exact Hpj].
      * exact Hc'.
  - rewrite E. simpl bind. simpl in L, Hwm, Hp.
    exists out. split; [reflexivity|]. split; [exact L|]. split.
    + intros i Hi Hiw. apply Hwm; [unfold len; lia | exact Hiw].
    + intros k i Hki Hnan. apply Hp; [unfold len; lia|].
      exists k. split; [lia | exact Hnan].
Qed.

Lemma sma_1d_nb_nan_is_sticky_witness :
  exists out,
    sma_1d_nb [1; nan; 3; 4; 5]%float 2 = Ok out /\
    length out = length [1; nan; 3; 4; 5]%float /\
    (forall i, (i < length [1; nan; 3; 4; 5]%float)%nat -> Z.of_nat i < 2 - 1 ->
       PrimFloat.is_nan (nth i out 0%float) = true) /\
    (forall k i, (k <= i < length [1; nan; 3; 4; 5]%float)%nat ->
       PrimFloat.is_nan (nth k [1; nan; 3; 4; 5]%float 0%float) = true ->
       PrimFloat.is_nan (nth i out 0%float) = true).
Proof.
  apply (sma_1d_nb_nan_is_sticky [1; nan; 3; 4; 5]%float 2). lia.
Defined.

Example sma_nan_run :
  sma_1d_nb [1; nan; 3; 4; 5]%float 2 = Ok [nan; nan; nan; nan; nan]%float /\
  sma_1d_nb [1; 2]%float 0 = Raise ZeroDivisionError /\
  sma_1d_nb [] 0 = Ok [].
Proof. repeat split; reflexivity. Qed.

(** ** The Hurst bandpass kernel *)

(** an unchecked store inside the array is the store; it keeps the length
    wherever it falls *)
Lemma setitem_unchecked_in_range {A : Type} (a : list A) (i : Z) (x : A) :
  0 <= i < len a -> setitem_unchecked a i x = list_set a (Z.to_nat i) x.
Proof. intros H. unfold setitem_unchecked. now rewrite (norm_index_in_range a i H). Qed.

Lemma setitem_unchecked_length {A : Type} (a : list A) (i : Z) (x : A) :
  length (setitem_unchecked a i x) = length a.
Proof.
  unfold setitem_unchecked. destruct (norm_index a i); [apply list_set_length | reflexivity].
Qed.

Section BandpassFacts.

Variables (np_cos : float -> float) (np_pi : float).

(** X21.  The bandpass kernel on a series of fewer than two samples.  It
    stores [out[0]] and [out[1]] before its loop, whatever the length
    ([0.0 if n > 1 else 0.0] guards the value, not the store); the compiled
    stores are not bounds-checked, so nothing is raised, the loop does not
    run, and the kernel returns the zeros it stored inside the array: the
    empty array on the empty series and [[0.0]] on one sample.  A zero
    period, or a zero cosine of the bandwidth angle, raises
    [ZeroDivisionError] before the stores. *)
Theorem bandpass_1d_nb_short_series (src : list float) (period bandwidth : float) :
  (length src <= 1)%nat ->
  (PrimFloat.eqb period 0 = false ->
   PrimFloat.eqb (np_cos (bandpass_gamma_angle np_pi period bandwidth)) 0 = false ->
   SpectralNb.bandpass_1d_nb np_cos np_pi src period bandwidth
   = Ok (repeat 0%float (length src))) /\
  (PrimFloat.eqb period 0 = true ->
   SpectralNb.bandpass_1d_nb np_cos np_pi src period bandwidth = Raise ZeroDivisionError) /\
  (PrimFloat.eqb period 0 = false ->
   PrimFloat.eqb (np_cos (bandpass_gamma_angle np_pi period bandwidth)) 0 = true ->
   SpectralNb.bandpass_1d_nb np_cos np_pi src period bandwidth = Raise ZeroDivisionError).
Proof.
  intros Hn. split; [|split].
  - intros Hp Hc. unfold SpectralNb.bandpass_1d_nb, fdiv. rewrite Hp. simpl bind.
    unfold bandpass_gamma_angle in Hc. rewrite Hc. simpl bind.
    destruct src as [|x [|y src]]; [reflexivity | reflexivity | simpl in Hn; lia].
  - intros Hp. unfold SpectralNb.bandpass_1d_nb, fdiv. rewrite Hp. reflexivity.
  - intros Hp Hc. unfold SpectralNb.bandpass_1d_nb, fdiv. rewrite Hp. simpl bind.
    unfold bandpass_gamma_angle in Hc. rewrite Hc. reflexivity.
Qed.

(** X22.  On a series of at least two samples, with a non-zero period and a
    non-zero cosine of the bandwidth angle, the bandpass kernel returns an
    array of the length of the series that starts with two zeros and follows
    the second-order recurrence
    [0.5*(1-alpha)*(src[i]-src[i-2]) + beta*(1+alpha)*out[i-1] - alpha*out[i-2]],
    with [gamma = 1/cos(...)], [alpha = gamma - sqrt(gamma^2 - 1)] and
    [beta = cos(...)]. *)
Theorem bandpass_1d_nb_recurrence (src : list float) (period bandwidth : float) :
  (2 <= length src)%nat ->
  PrimFloat.eqb period 0 = false ->
  PrimFloat.eqb (np_cos (bandpass_gamma_angle np_pi period bandwidth)) 0 = false ->
  exists out,
    SpectralNb.bandpass_1d_nb np_cos np_pi src period bandwidth = Ok out /\
    length out = length src /\
    nth 0 out 0%float = 0%float /\ nth 1 out 0%float = 0%float /\
    forall i, (2 <= i < length src)%nat ->
      let beta := np_cos (bandpass_beta_angle np_pi period) in
      let gamma :=
        PrimFloat.div 1 (np_cos (bandpass_gamma_angle np_pi period bandwidth)) in
      let alpha := PrimFloat.sub gamma (PrimFloat.sqrt (gamma * gamma - 1)%float) in
      nth i out 0%float
      = (0.5 * (1 - alpha) * (nth i src 0 - nth (i - 2) src 0)
         + beta * (1 + alpha) * nth (i - 1) out 0 - alpha * nth (i - 2) out 0)%float.
Proof.
  intros Hn Hp Hc. unfold SpectralNb.bandpass_1d_nb, fdiv. rewrite Hp. simpl bind.
  unfold bandpass_gamma_angle in Hc |- *. rewrite Hc. simpl bind. cbv zeta.
  set (beta := np_cos (bandpass_beta_angle np_pi period)).
  set (gamma := PrimFloat.div 1
                  (np_cos (PrimFloat.div
                             (PrimFloat.mul np_pi
                                (PrimFloat.div (PrimFloat.mul 720 bandwidth) period)) 180))).
  set (alpha := PrimFloat.sub gamma (PrimFloat.sqrt (gamma * gamma - 1)%float)).
  replace (if 1 <? len src then 0%float else 0%float) with 0%float
    by (destruct (1 <? len src); reflexivity).
  rewrite (setitem_unchecked_in_range (np_empty (length src)) 0) by in_range.
  rewrite setitem_unchecked_in_range by in_range.
  change (Z.to_nat 0) with 0%nat. change (Z.to_nat 1) with 1%nat.
  set (out1 := list_set (list_set (np_empty (length src)) 0 0%float) 1 0%float).
  set (P := fun (i : Z) (o : list float) =>
              length o = length src /\
              nth 0 o 0%float = 0%float /\ nth 1 o 0%float = 0%float /\
              forall k, (2 <= k)%nat -> Z.of_nat k < i ->
                nth k o 0%float
                = (0.5 * (1 - alpha) * (nth k src 0 - nth (k - 2) src 0)
                   + beta * (1 + alpha) * nth (k - 1) o 0 - alpha * nth (k - 2) o 0)%float).
  match goal with
  | |- context [for_range 2 (len src) ?body out1] =>
      destruct (for_range_invariant P body 2 (len src) out1)
        as [out [E [L [H0 [H1 H]]]]]
  end.
  - unfold len. lia.
  - unfold P, out1. split; [now rewrite !list_set_length, np_empty_length|].
    split; [rewrite nth_list_set_neq by lia; rewrite nth_list_set_eq by in_range;
            reflexivity|].
    split; [rewrite nth_list_set_eq by in_range; reflexivity | intros; lia].
  - intros i o Hi [HL [Hz0 [Hz1 Hrec]]].
    get_ok src i. get_ok src (i - 2). get_ok o (i - 1). get_ok o (i - 2). set_ok.
    eexists. split; [reflexivity|]. unfold P.
    split; [now rewrite list_set_length|].
    split; [rewrite nth_list_set_neq by lia; exact Hz0|].
    split; [rewrite nth_list_set_neq by lia; exact Hz1|].
    intros k Hk2 Hk. destruct (Z.eq_dec (Z.of_nat k) i) as [Ek|Nk].
    + replace (Z.to_nat i) with k by lia.
      rewrite nth_list_set_eq by in_range.
      rewrite !nth_list_set_neq by lia.
      replace (Z.to_nat (i - 2)) with (k - 2)%nat by lia.
      replace (Z.to_nat (i - 1)) with (k - 1)%nat by lia.
      reflexivity.
    + rewrite !nth_list_set_neq by lia. apply Hrec; lia.
  - exists out. split; [exact E|]. split; [exact L|]. split; [exact H0|].
    split; [exact H1|]. intros i Hi. apply H; unfold len; lia.
Qed.

End BandpassFacts.

Lemma bandpass_1d_nb_short_series_witness :
  (PrimFloat.eqb 20 0 = false ->
   PrimFloat.eqb (half_cos (bandpass_gamma_angle 3 20 0.25)) 0 = false ->
   SpectralNb.bandpass_1d_nb half_cos 3%float [7]%float 20 0.25
   = Ok (repeat 0%float (length [7]%float))) /\
  (PrimFloat.eqb 20 0 = true ->
   SpectralNb.bandpass_1d_nb half_cos 3%float [7]%float 20 0.25 = Raise ZeroDivisionError) /\
  (PrimFloat.eqb 20 0 = false ->
   PrimFloat.eqb (half_cos (bandpass_gamma_angle 3 20 0.25)) 0 = true ->
   SpectralNb.bandpass_1d_nb half_cos 3%float [7]%float 20 0.25 = Raise ZeroDivisionError).
Proof.
  apply (bandpass_1d_nb_short_series half_cos 3%float [7]%float 20%float 0.25%float).
  simpl. lia.
Defined.

(** the runs on one sample and on the empty series *)
Example bandpass_short_runs :
  SpectralNb.bandpass_1d_nb half_cos 3%float [7]%float 20 0.25 = Ok [0]%float /\
  SpectralNb.bandpass_1d_nb half_cos 3%float [] 20 0.25 = Ok [] /\
  SpectralNb.bandpass_1d_nb half_cos 3%float [7]%float 0 0.25 = Raise ZeroDivisionError.
Proof. repeat split; reflexivity. Qed.

Lemma bandpass_1d_nb_recurrence_witness :
  exists out,
    SpectralNb.bandpass_1d_nb half_cos 3%float [1; 2; 4]%float 20 0.25 = Ok out /\
    length out = length [1; 2; 4]%float /\
    nth 0 out 0%float = 0%float /\ nth 1 out 0%float = 0%float /\
    forall i, (2 <= i < length [1; 2; 4]%float)%nat ->
      let beta := half_cos (bandpass_beta_angle 3 20) in
      let gamma := PrimFloat.div 1 (half_cos (bandpass_gamma_angle 3 20 0.25)) in
      let alpha := PrimFloat.sub gamma (PrimFloat.sqrt (gamma * gamma - 1)%float) in
      nth i out 0%float
      = (0.5 * (1 - alpha) * (nth i [1; 2; 4]%float 0 - nth (i - 2) [1; 2; 4]%float 0)
         + beta * (1 + alpha) * nth (i - 1) out 0 - alpha * nth (i - 2) out 0)%float.
Proof.
  apply (bandpass_1d_nb_recurrence half_cos 3%float [1; 2; 4]%float 20%float 0.25%float).
  - simpl. lia.
  - reflexivity.
  - reflexivity.
Defined.

(** ** The stochastic kernel of SniperProX *)

Lemma stoch_scan (high low : list float) (length i : Z) (s : float * float) :
  - 2 ^ 63 < length -> len high < 2 ^ 63 ->
  List.length low = List.length high ->
  0 <= i < len high ->
  nb_range 1 (Z.min (i + 1) length)
    (fun j '(hh, ll) =>
       h <- getitem high (i - j) ;;
       hh <- (if PrimFloat.ltb hh h then getitem high (i - j) else Ok hh) ;;
       l <- getitem low (i - j) ;;
       ll <- (if PrimFloat.ltb l ll then getitem low (i - j) else Ok ll) ;;
       Ok (hh, ll))
    s
  = Ok (fold_left
          (fun '(hh, ll) '(h, l) =>
             (if PrimFloat.ltb hh h then h else hh, if PrimFloat.ltb l ll then l else ll))
          (stoch_older high low length (Z.to_nat i)) s).
Proof.
  intros Hlen Hn HL Hi. rewrite nb_range_for_range by lia.
  unfold for_range, stoch_older. cbv zeta.
  rewrite Z2Nat.id by lia.
  set (count := Z.to_nat (Z.min (i + 1) length - 1)).
  rewrite (for_loop_fold_backward (List.combine high low)
             (fun '(hh, ll) '(h, l) =>
                (if PrimFloat.ltb hh h then h else hh, if PrimFloat.ltb l ll then l else ll))
             _ i).
  - replace (Z.to_nat (i - 1 - Z.of_nat count + 1)) with (Z.to_nat i - count)%nat
      by (subst count; lia).
    reflexivity.
  - intros j [hh ll]. rewrite getitem_combine by congruence.
    destruct (getitem high (i - j)) as [h|e]; [|reflexivity]. simpl bind.
    destruct (getitem low (i - j)) as [l|e]; simpl bind.
    + destruct (PrimFloat.ltb hh h); simpl bind; destruct (PrimFloat.ltb l ll); reflexivity.
    + destruct (PrimFloat.ltb hh h); reflexivity.
  - unfold len in *. rewrite length_combine. lia.
  - subst count. lia.
Qed.

(** X23.  The stochastic kernel guards its division by the range.  On high and
    low series of the length of the close series it returns for every 64-bit
    lookback length but the least one (also zero, negative or larger than
    the series) an array of the length of the series; bar [i] is
    [100 * (close[i] - ll) / (hh - ll)] for the highest high [hh] and the
    lowest low [ll] of the last [min(i+1, length)] bars, and exactly 50 where
    that range is zero.  The least length [-2^63], where the trip count of
    the inner loop wraps, is excluded. *)
Theorem stoch_1d_guarded (close high low : list float) (length : Z) :
  List.length high = List.length close ->
  List.length low = List.length close ->
  - 2 ^ 63 < length < 2 ^ 63 ->
  len close < 2 ^ 63 ->
  exists out,
    SniperNb._stoch_1d close high low length = Ok out /\
    List.length out = List.length close /\
    forall i, (i < List.length close)%nat ->
      nth i out 0%float = stoch_bar close high low length i /\
      (PrimFloat.eqb
         (PrimFloat.sub (fst (stoch_extremes high low length i))
                        (snd (stoch_extremes high low length i))) 0 = true ->
       nth i out 0%float = 50%float).
Proof.
  intros LH LL Hlen Hn. unfold SniperNb._stoch_1d. cbv zeta.
  set (P := fun (i : Z) (o : list float) =>
              List.length o = List.length close /\
              forall k, Z.of_nat k < i -> nth k o 0%float = stoch_bar close high low length k).
  match goal with
  | |- context [for_range 0 (len close) ?body ?init] =>
      destruct (for_range_invariant P body 0 (len close) init) as [out [E [L H]]]
  end.
  - unfold len. lia.
  - unfold P. split; [apply np_empty_length | intros; lia].
  - intros i o Hi [HLo Hdone].
    get_ok high i. get_ok low i.
    rewrite (stoch_scan high low length i) by (unfold len in *; lia || congruence).
    simpl bind.
    assert (Estep : forall v,
               v = stoch_bar close high low length (Z.to_nat i) ->
               exists st', setitem o i v = Ok st' /\ P (i + 1) st').
    { intros v Ev. set_ok. eexists. split; [reflexivity|]. unfold P.
      split; [now rewrite list_set_length|].
      intros k Hk. destruct (Z.eq_dec (Z.of_nat k) i) as [Ek|Nk].
      - replace (Z.to_nat i) with k in * by lia.
        rewrite nth_list_set_eq by in_range. exact Ev.
      - rewrite nth_list_set_neq by lia. apply Hdone. lia. }
    unfold stoch_bar, stoch_extremes in Estep.
    destruct (fold_left _ (stoch_older high low length (Z.to_nat i))
                (nth (Z.to_nat i) high 0%float, nth (Z.to_nat i) low 0%float))
      as [hh ll].
    destruct (PrimFloat.eqb (PrimFloat.sub hh ll) 0) eqn:Ez; simpl negb; cbv iota.
    + simpl bind. apply Estep. reflexivity.
    + get_ok close i. rewrite fdiv_defined by exact Ez. simpl bind.
      apply Estep. reflexivity.
  - exists out. split; [exact E|]. split; [exact L|].
    intros i Hi. split; [apply H; unfold len; lia|].
    intros Hz. rewrite H by (unfold len; lia). unfold stoch_bar.
    destruct (stoch_extremes high low length i) as [hh ll]. simpl in Hz.
    now rewrite Hz.
Qed.

Lemma stoch_1d_guarded_witness :
  exists out,
    SniperNb._stoch_1d [2; 2; 3]%float [2; 2; 4]%float [2; 2; 1]%float 2 = Ok out /\
    List.length out = List.length [2; 2; 3]%float /\
    forall i, (i < List.length [2; 2; 3]%float)%nat ->
      nth i out 0%float
      = stoch_bar [2; 2; 3]%float [2; 2; 4]%float [2; 2; 1]%float 2 i /\
      (PrimFloat.eqb
         (PrimFloat.sub (fst (stoch_extremes [2; 2; 4]%float [2; 2; 1]%float 2 i))
                        (snd (stoch_extremes [2; 2; 4]%float [2; 2; 1]%float 2 i))) 0 = true ->
       nth i out 0%float = 50%float).
Proof.
  apply (stoch_1d_guarded [2; 2; 3]%float [2; 2; 4]%float [2; 2; 1]%float 2).
  - reflexivity.
  - reflexivity.
  - lia.
  - unfold len. simpl. lia.
Defined.

Example stoch_run :
  SniperNb._stoch_1d [2; 2; 3]%float [2; 2; 4]%float [2; 2; 1]%float 2
  = Ok [50; 50; 0x1.0aaaaaaaaaaabp+6]%float.
Proof. reflexivity. Qed.

(** ** The controllers *)

Lemma ohlcv_column_missing (df : SniperController.DataFrame) (lower upper : string) :
  dict_get df lower = None -> dict_get df upper = None ->
  SniperController.ohlcv_column df lower upper = Raise (KeyError upper).
Proof.
  intros H1 H2. unfold SniperController.ohlcv_column, dict_mem. now rewrite H1, H2.
Qed.

Lemma ohlcv_column_lower (df : SniperController.DataFrame) (lower upper : string)
    (col : list float) :
  dict_get df lower = Some col ->
  SniperController.ohlcv_column df lower upper = Ok col.
Proof.
  intros H. unfold SniperController.ohlcv_column, dict_mem. now rewrite H, H.
Qed.

Lemma getitem_last (arr : list float) (x : float) :
  latest arr = Some x -> getitem arr (-1) = Ok x /\ 0 < len arr.
Proof.
  intros H. pose proof (latest_defined_non_missing arr) as D.
  unfold SniperController.latest_defined, non_missing in D. rewrite H in D.
  destruct (Z.ltb_spec 0 (len arr)) as [Hl|Hl].
  - split; [|exact Hl].
    unfold latest in H. unfold getitem, norm_index.
    change (-1 <? 0) with true. cbv iota.
    destruct (Z.leb_spec 0 (-1 + len arr)); [|lia].
    destruct (Z.ltb_spec (-1 + len arr) (len arr)); [|lia].
    simpl andb. cbv iota.
    replace (Z.to_nat (-1 + len arr)) with (length arr - 1)%nat by (unfold len; lia).
    rewrite (nth_error_last arr), H; [reflexivity|].
    intros E. subst arr. discriminate.
  - exfalso. destruct arr; [discriminate | unfold len in Hl; simpl in Hl; lia].
Qed.

Section VzoFacts.

Variable run :
  list float -> list float -> VzoController.VZOParams -> result VzoController.VZOResult.

(** X24.  The VZO controller.  Whatever the indicator returns on the frame, the
    signal is 1 if the latest [major_buy] is not NaN, otherwise -1 if the
    latest [major_sell] is not NaN, otherwise 0, the buy check first; the
    configured [ma_type] name reaches the indicator unchanged; an exception
    of the indicator is passed on, and a frame without a close (or volume)
    column in either spelling raises KeyError with the capitalised name
    before the indicator runs.  Every signal returned is in [{-1,0,1}]. *)
Theorem vzo_signal_derivation (cfg : VzoController.VZOControllerConfig)
    (df : SniperController.DataFrame) :
  VzoController.compute_signal run cfg df
  = (res <- vzo_outputs run cfg df ;;
     Ok (derived_signal (VzoController.major_buy res) (VzoController.major_sell res))) /\
  (forall s, VzoController.compute_signal run cfg df = Ok s -> is_signal s) /\
  (dict_get df "close" = None -> dict_get df "Close" = None ->
   VzoController.compute_signal run cfg df = Raise (KeyError "Close")) /\
  (forall close, dict_get df "close" = Some close ->
   dict_get df "volume" = None -> dict_get df "Volume" = None ->
   VzoController.compute_signal run cfg df = Raise (KeyError "Volume")).
Proof.
  assert (D : VzoController.compute_signal run cfg df
              = (res <- vzo_outputs run cfg df ;;
                 Ok (derived_signal (VzoController.major_buy res)
                                    (VzoController.major_sell res)))).
  { unfold VzoController.compute_signal, vzo_outputs.
    destruct (SniperController.ohlcv_column df "close" "Close"); [|reflexivity].
    destruct (SniperController.ohlcv_column df "volume" "Volume"); [|reflexivity].
    simpl bind.
    match goal with |- context [run ?a ?b ?p] => destruct (run a b p) as [res|e] end;
      [|reflexivity].
    simpl bind. rewrite !latest_defined_non_missing. simpl bind.
    unfold derived_signal.
    destruct (non_missing (VzoController.major_buy res)); [reflexivity|].
    simpl bind. destruct (non_missing (VzoController.major_sell res)); reflexivity. }
  split; [exact D|]. split; [|split].
  - intros s E. rewrite D in E. apply bind_Ok_inv in E.
    destruct E as [res [_ E]]. inversion E; subst. apply derived_signal_range.
  - intros H1 H2. unfold VzoController.compute_signal.
    now rewrite (ohlcv_column_missing df "close" "Close" H1 H2).
  - intros close Hc H1 H2. unfold VzoController.compute_signal.
    rewrite (ohlcv_column_lower df "close" "Close" close Hc). simpl bind.
    now rewrite (ohlcv_column_missing df "volume" "Volume" H1 H2).
Qed.

End VzoFacts.

Section CycleFacts.

Variable run : list float -> CycleController.SpectralParams -> result (list float).

Lemma cycle_threshold (cfg : CycleController.CycleControllerConfig)
    (composite : list float) :
  (neutral <- (if len composite =? 0 then Ok true
               else x <- getitem composite (-1) ;; Ok (PrimFloat.is_nan x)) ;;
   if neutral : bool then Ok 0
   else
     latest <- getitem composite (-1) ;;
     if PrimFloat.ltb (CycleController.composite_threshold cfg) latest then Ok 1
     else if PrimFloat.ltb latest (CycleController.composite_threshold cfg) then Ok (-1)
     else Ok 0)
  = Ok (threshold_signal (CycleController.composite_threshold cfg) composite).
Proof.
  unfold threshold_signal.
  destruct (latest composite) as [x|] eqn:El.
  - destruct (getitem_last composite x El) as [Eg Hl].
    destruct (Z.eqb_spec (len composite) 0); [lia|].
    rewrite Eg. simpl bind.
    destruct (PrimFloat.is_nan x); [reflexivity|]. simpl bind.
    destruct (PrimFloat.ltb (CycleController.composite_threshold cfg) x); [reflexivity|].
    destruct (PrimFloat.ltb x (CycleController.composite_threshold cfg)); reflexivity.
  - assert (composite = []).
    { unfold latest in El. destruct (rev composite) eqn:Er; [|discriminate].
      apply (f_equal (@rev float)) in Er. now rewrite rev_involutive in Er. }
    subst composite. reflexivity.
Qed.

Lemma threshold_signal_range (thr : float) (composite : list float) :
  is_signal (threshold_signal thr composite).
Proof.
  unfold threshold_signal, is_signal.
  destruct (latest composite) as [x|]; [|lia].
  destruct (PrimFloat.is_nan x); [lia|].
  destruct (PrimFloat.ltb thr x); [lia|].
  destruct (PrimFloat.ltb x thr); lia.
Qed.

(** X25.  The Cycle controller on a frame with lower-case close, high and low
    columns of one length: the source handed to the spectral indicator is
    hl2, the bar-by-bar mean of high and low, and the signal compares the
    latest composite value with [composite_threshold]: 1 above, -1 below, 0
    on the threshold, on a NaN and on an empty composite.  An exception of
    the indicator is passed on. *)
Theorem cycle_signal_derivation (cfg : CycleController.CycleControllerConfig)
    (df : SniperController.DataFrame) (close high low : list float) :
  dict_get df "close" = Some close ->
  dict_get df "high" = Some high ->
  dict_get df "low" = Some low ->
  length high = length low ->
  CycleController.compute_signal run cfg df
  = (composite <- run (hl2 high low) (cycle_params cfg) ;;
     Ok (threshold_signal (CycleController.composite_threshold cfg) composite)).
Proof.
  intros Hc Hh Hl HL. unfold CycleController.compute_signal, CycleController.column_values,
    dict_mem.
  rewrite Hc, Hh, Hl. simpl bind. simpl andb. cbv iota.
  unfold np_add, np_broadcast2. rewrite HL, Nat.eqb_refl. simpl bind.
  rewrite map_map.
  replace (map (fun x : float * float => PrimFloat.div (let '(x0, y) := x in PrimFloat.add x0 y) 2)
             (List.combine high low)) with (hl2 high low).
  2:{ unfold hl2. apply map_ext. intros [h l]. reflexivity. }
  fold (cycle_params cfg).
  destruct (run (hl2 high low) (cycle_params cfg)) as [composite|e]; [|reflexivity].
  simpl bind. apply cycle_threshold.
Qed.

(** X26.  The Cycle controller at its edges.  Every signal it returns is in
    [{-1,0,1}]; a frame without a close column in either spelling raises
    KeyError "Close" although the source may be computed from high and low
    alone; and a frame whose high and low are spelled differently (one
    lower-case, one capitalised) falls back to the close series as source. *)
Theorem cycle_signal_edges (cfg : CycleController.CycleControllerConfig)
    (df : SniperController.DataFrame) :
  (forall s, CycleController.compute_signal run cfg df = Ok s -> is_signal s) /\
  (dict_get df "close" = None -> dict_get df "Close" = None ->
   CycleController.compute_signal run cfg df = Raise (KeyError "Close")) /\
  (forall close,
     dict_get df "close" = Some close ->
     dict_get df "low" = None -> dict_get df "High" = None ->
     CycleController.compute_signal run cfg df
     = (composite <- run close (cycle_params cfg) ;;
        Ok (threshold_signal (CycleController.composite_threshold cfg) composite))).
Proof.
  split; [|split].
  - intros s E. unfold CycleController.compute_signal in E.
    apply bind_Ok_inv in E. destruct E as [close [_ E]].
    apply bind_Ok_inv in E. destruct E as [source [_ E]].
    apply bind_Ok_inv in E. destruct E as [composite [_ E]].
    rewrite cycle_threshold in E. inversion E; subst. apply threshold_signal_range.
  - intros H1 H2. unfold CycleController.compute_signal, CycleController.column_values,
      dict_mem. now rewrite H1, H2.
  - intros close Hc Hl HH. unfold CycleController.compute_signal,
      CycleController.column_values, dict_mem.
    rewrite Hc, Hl, HH. simpl bind. rewrite andb_false_r. simpl andb. cbv iota.
    simpl bind. fold (cycle_params cfg).
    destruct (run close (cycle_params cfg)) as [composite|e]; [|reflexivity].
    simpl bind. apply cycle_threshold.
Qed.

End CycleFacts.

Lemma cycle_signal_derivation_witness :
  CycleController.compute_signal echo_spectral (cycle_config 1.5) sample_frame
  = (composite <- echo_spectral (hl2 [2; 3]%float [1; 1]%float)
                    (cycle_params (cycle_config 1.5)) ;;
     Ok (threshold_signal
           (CycleController.composite_threshold (cycle_config 1.5)) composite)).
Proof.
  apply (cycle_signal_derivation echo_spectral (cycle_config 1.5) sample_frame
           [2; 2]%float [2; 3]%float [1; 1]%float); reflexivity.
Defined.

Example cycle_signal_runs :
  CycleController.compute_signal echo_spectral (cycle_config 1.5) sample_frame = Ok 1 /\
  CycleController.compute_signal echo_spectral (cycle_config 2) sample_frame = Ok 0 /\
  CycleController.compute_signal echo_spectral (cycle_config 2.5) sample_frame = Ok (-1) /\
  CycleController.compute_signal echo_spectral (cycle_config nan) sample_frame = Ok 0 /\
  CycleController.compute_signal echo_spectral (cycle_config 0)
    [("high", [2; 3]%float); ("low", [1; 1]%float)] = Raise (KeyError "Close").
Proof. repeat split; reflexivity. Qed.

Section SniperEdges.

Variable run :
  list float -> list float -> list float -> list float ->
  SniperController.SniperParams -> result SniperController.SniperResult.

(** X27.  A missing column resets the signal.  On a non-empty frame that lacks one
    of close, high, low and volume in both spellings, [compute_signal] raises
    KeyError with a capitalised column name and the indicator is not run;
    [update_processed_data] turns this, like every exception of
    [compute_signal], into the neutral signal 0, whatever the previous signal
    was, while an empty frame leaves the previous signal in place. *)
Theorem sniper_missing_column_resets_signal
    (cfg : SniperController.SniperControllerConfig)
    (df : SniperController.DataFrame) (current : Z) (lower upper : string) :
  In (lower, upper) sniper_columns ->
  dict_get df lower = None ->
  dict_get df upper = None ->
  (exists key,
     In key (map snd sniper_columns) /\
     SniperController.compute_signal run cfg df = Raise (KeyError key)) /\
  (SniperController.df_empty df = false ->
   SniperController.update_processed_data run cfg current df = 0) /\
  (SniperController.df_empty df = true ->
   SniperController.update_processed_data run cfg current df = current).
Proof.
  intros Hin Hl Hu.
  assert (Hraise : exists key,
             In key (map snd sniper_columns) /\
             SniperController.compute_signal run cfg df = Raise (KeyError key)).
  { unfold SniperController.compute_signal.
    assert (Hmiss : SniperController.ohlcv_column df lower upper = Raise (KeyError upper))
      by (apply ohlcv_column_missing; assumption).
    simpl in Hin.
    destruct (SniperController.ohlcv_column df "close" "Close") as [c|e] eqn:Ec.
    2:{ unfold SniperController.ohlcv_column, dict_mem in Ec.
        destruct (dict_get df "close") eqn:E1; [rewrite E1 in Ec; discriminate|].
        destruct (dict_get df "Close") eqn:E2; [discriminate|].
        inversion Ec; subst. exists "Close". split; [simpl; auto | reflexivity]. }
    simpl bind.
    destruct (SniperController.ohlcv_column df "high" "High") as [h|e] eqn:Eh.
    2:{ unfold SniperController.ohlcv_column, dict_mem in Eh.
        destruct (dict_get df "high") eqn:E1; [rewrite E1 in Eh; discriminate|].
        destruct (dict_get df "High") eqn:E2; [discriminate|].
        inversion Eh; subst. exists "High". split; [simpl; auto | reflexivity]. }
    simpl bind.
    destruct (SniperController.ohlcv_column df "low" "Low") as [l|e] eqn:Elo.
    2:{ unfold SniperController.ohlcv_column, dict_mem in Elo.
        destruct (dict_get df "low") eqn:E1; [rewrite E1 in Elo; discriminate|].
        destruct (dict_get df "Low") eqn:E2; [discriminate|].
        inversion Elo; subst. exists "Low". split; [simpl; auto | reflexivity]. }
    simpl bind.
    destruct (SniperController.ohlcv_column df "volume" "Volume") as [v|e] eqn:Ev.
    2:{ unfold SniperController.ohlcv_column, dict_mem in Ev.
        destruct (dict_get df "volume") eqn:E1; [rewrite E1 in Ev; discriminate|].
        destruct (dict_get df "Volume") eqn:E2; [discriminate|].
        inversion Ev; subst. exists "Volume". split; [simpl; auto 6 | reflexivity]. }
    exfalso.
    destruct Hin as [E|[E|[E|[E|[]]]]]; inversion E; subst lower upper; congruence. }
  split; [exact Hraise|]. split.
  - intros He. unfold SniperController.update_processed_data. rewrite He. simpl.
    destruct Hraise as [key [_ E]]. now rewrite E.
  - intros He. unfold SniperController.update_processed_data. now rewrite He.
Qed.

(** X28.  The controller and the combiner agree on the major markers.  Whenever
    the indicator returns marker series of one non-zero length, the signal
    the Sniper controller computes is the last bar of the array that
    [convert_indicator_output] makes of the same markers for the source
    "major". *)
Theorem controller_signal_is_last_converted_bar
    (cfg : SniperController.SniperControllerConfig)
    (df : SniperController.DataFrame) (res : SniperController.SniperResult) :
  indicator_outputs run cfg df = Ok res ->
  SniperController.major_buy res <> [] ->
  length (SniperController.major_buy res) = length (SniperController.major_sell res) ->
  exists arr,
    convert_indicator_output (major_markers res) "major" = Ok arr /\
    length arr = length (SniperController.major_buy res) /\
    SniperController.compute_signal run cfg df = getitem arr (-1).
Proof.
  intros Ho Hne HL.
  set (mb := SniperController.major_buy res) in *.
  set (ms := SniperController.major_sell res) in *.
  rewrite compute_signal_derivation, Ho. simpl bind. fold mb ms.
  unfold convert_indicator_output. simpl String.eqb. cbv iota zeta.
  simpl major_buy. simpl major_sell. fold mb ms.
  destruct (np_broadcast2_same_length (fun (b : bool) v => if b then 1 else v)
              (np_notnan mb) (np_where_scalar (np_notnan ms) (-1) 0) false 0 0)
    as [arr [Ea [La Na]]].
  { unfold np_where_scalar, np_notnan. rewrite !length_map. exact HL. }
  unfold np_notnan in La at 1. rewrite length_map in La.
  exists arr. split; [exact Ea|]. split; [exact La|].
  assert (Hn : (0 < length mb)%nat) by (destruct mb; [congruence | simpl; lia]).
  unfold getitem, norm_index. change (-1 <? 0) with true. cbv iota.
  destruct (Z.leb_spec 0 (-1 + len arr)); [|unfold len in *; lia].
  destruct (Z.ltb_spec (-1 + len arr) (len arr)); [|lia].
  simpl andb. cbv iota.
  replace (Z.to_nat (-1 + len arr)) with (length mb - 1)%nat by (unfold len; lia).
  rewrite (nth_error_nth' arr 0) by lia. f_equal.
  rewrite Na by (unfold np_notnan; rewrite length_map; lia).
  unfold np_where_scalar, np_notnan.
  rewrite (nth_map_lt (fun x => negb (PrimFloat.is_nan x)) mb nan) by lia.
  rewrite (nth_map_lt (fun b : bool => if b then -1 else 0) _ false)
    by (rewrite length_map; lia).
  rewrite (nth_map_lt (fun x => negb (PrimFloat.is_nan x)) ms nan) by lia.
  assert (Hlast : forall a : list float, a <> [] -> latest a = Some (nth (length a - 1) a nan)).
  { intros a Ha. unfold latest. rewrite <- (nth_error_last a Ha).
    apply nth_error_nth'. destruct a; [congruence | simpl; lia]. }
  assert (Hms : ms <> []) by (intros E; rewrite E in HL; simpl in HL; lia).
  unfold derived_signal, non_missing.
  rewrite (Hlast mb Hne), (Hlast ms Hms). rewrite <- HL.
  destruct (PrimFloat.is_nan (nth (length mb - 1) mb nan)); simpl; [|reflexivity].
  destruct (PrimFloat.is_nan (nth (length mb - 1) ms nan)); reflexivity.
Qed.

End SniperEdges.

Lemma sniper_missing_column_resets_signal_witness :
  (exists key,
     In key (map snd sniper_columns) /\
     SniperController.compute_signal probe_pipeline (sniper_config "Hull Moving Average")
       [("close", [2; 2]%float); ("high", [2; 3]%float)] = Raise (KeyError key)) /\
  (SniperController.df_empty [("close", [2; 2]%float); ("high", [2; 3]%float)] = false ->
   SniperController.update_processed_data probe_pipeline
     (sniper_config "Hull Moving Average") 1
     [("close", [2; 2]%float); ("high", [2; 3]%float)] = 0) /\
  (SniperController.df_empty [("close", [2; 2]%float); ("high", [2; 3]%float)] = true ->
   SniperController.update_processed_data probe_pipeline
     (sniper_config "Hull Moving Average") 1
     [("close", [2; 2]%float); ("high", [2; 3]%float)] = 1).
Proof.
  apply (sniper_missing_column_resets_signal probe_pipeline
           (sniper_config "Hull Moving Average")
           [("close", [2; 2]%float); ("high", [2; 3]%float)] 1 "low" "Low").
  - simpl. auto.
  - reflexivity.
  - reflexivity.
Defined.

Lemma controller_signal_is_last_converted_bar_witness :
  exists arr,
    convert_indicator_output
      (major_markers {| SniperController.major_buy := [2; 2]%float;
                        SniperController.major_sell := [nan; nan]%float |}) "major"
    = Ok arr /\
    length arr = length (SniperController.major_buy
                           {| SniperController.major_buy := [2; 2]%float;
                              SniperController.major_sell := [nan; nan]%float |}) /\
    SniperController.compute_signal probe_pipeline (sniper_config "Hull Moving Average")
      sample_frame = getitem arr (-1).
Proof.
  apply (controller_signal_is_last_converted_bar probe_pipeline
           (sniper_config "Hull Moving Average") sample_frame
           {| SniperController.major_buy := [2; 2]%float;
              SniperController.major_sell := [nan; nan]%float |}).
  - reflexivity.
  - discriminate.
  - reflexivity.
Defined.

(** ** Entry and exit signals *)

Section SignalsFacts.

Variable sniper_run :
  list float -> list float -> list float -> list float ->
  Z -> string -> float -> result SniperController.SniperResult.
Variable vzo_run :
  list float -> list float -> Z -> string -> float -> float ->
  result VzoController.VZOResult.

Variables (close high low volume : list float).
Variables (sniper_length : Z) (sniper_ma_type : string) (sniper_ob_os : float).
Variables (vzo_length : Z) (vzo_ma_type : string) (vzo_minor_buy vzo_minor_sell : float).

(** X29.  "and" restricts entries only.  With both indicators in use and marker
    series of one length, the entries of mode "and" are the bars where both
    indicators mark a major buy, those of every other mode string are the
    bars where either does, and the exits are in every mode the bars where
    either indicator marks a major sell: the exits of "and" and "or" are the
    same array, and an entry of "and" is an entry of "or". *)
Theorem generate_signals_modes (sn : SniperController.SniperResult)
    (vz : VzoController.VZOResult) (n : nat) :
  sniper_run close high low volume sniper_length sniper_ma_type sniper_ob_os = Ok sn ->
  vzo_run close volume vzo_length vzo_ma_type vzo_minor_buy vzo_minor_sell = Ok vz ->
  length (SniperController.major_buy sn) = n ->
  length (SniperController.major_sell sn) = n ->
  length (VzoController.major_buy vz) = n ->
  length (VzoController.major_sell vz) = n ->
  exists entries_and entries_or exits,
    Signals.generate_signals sniper_run vzo_run close high low volume
      sniper_length sniper_ma_type sniper_ob_os
      vzo_length vzo_ma_type vzo_minor_buy vzo_minor_sell true true "and"
    = Ok (entries_and, exits) /\
    (forall combine_mode, combine_mode <> "and" ->
       Signals.generate_signals sniper_run vzo_run close high low volume
         sniper_length sniper_ma_type sniper_ob_os
         vzo_length vzo_ma_type vzo_minor_buy vzo_minor_sell true true combine_mode
       = Ok (entries_or, exits)) /\
    length entries_and = n /\ length entries_or = n /\ length exits = n /\
    forall j, (j < n)%nat ->
      let buy_s := negb (PrimFloat.is_nan (nth j (SniperController.major_buy sn) nan)) in
      let buy_v := negb (PrimFloat.is_nan (nth j (VzoController.major_buy vz) nan)) in
      let sell_s := negb (PrimFloat.is_nan (nth j (SniperController.major_sell sn) nan)) in
      let sell_v := negb (PrimFloat.is_nan (nth j (VzoController.major_sell vz) nan)) in
      nth j entries_and false = buy_s && buy_v /\
      nth j entries_or false = buy_s || buy_v /\
      nth j exits false = sell_s || sell_v /\
      (nth j entries_and false = true -> nth j entries_or false = true).
Proof.
  intros Es Ev L1 L2 L3 L4.
  destruct (np_broadcast2_same_length andb
              (np_notnan (SniperController.major_buy sn))
              (np_notnan (VzoController.major_buy vz)) false false false)
    as [ea [Eea [Lea Nea]]].
  { unfold np_notnan. rewrite !length_map. congruence. }
  destruct (np_broadcast2_same_length orb
              (np_notnan (SniperController.major_buy sn))
              (np_notnan (VzoController.major_buy vz)) false false false)
    as [eo [Eeo [Leo Neo]]].
  { unfold np_notnan. rewrite !length_map. congruence. }
  destruct (np_broadcast2_same_length orb
              (np_notnan (SniperController.major_sell sn))
              (np_notnan (VzoController.major_sell vz)) false false false)
    as [ex [Eex [Lex Nex]]].
  { unfold np_notnan. rewrite !length_map. congruence. }
  unfold np_notnan in Lea at 1, Leo at 1, Lex at 1. rewrite length_map in Lea, Leo, Lex.
  exists ea, eo, ex. split; [|split].
  - unfold Signals.generate_signals. rewrite Es, Ev. simpl bind. simpl String.eqb.
    cbv iota. simpl andb. cbv iota.
    unfold np_bitand, np_bitor. rewrite Eea. simpl bind. rewrite Eex. reflexivity.
  - intros mode Hm. unfold Signals.generate_signals. rewrite Es, Ev. simpl bind.
    destruct (String.eqb_spec mode "and"); [congruence|].
    unfold np_bitor. rewrite Eeo. simpl bind. rewrite Eex. reflexivity.
  - split; [congruence|]. split; [congruence|]. split; [congruence|].
    intros j Hj. cbv zeta.
    rewrite Nea, Neo, Nex by (unfold np_notnan; rewrite length_map; lia).
    unfold np_notnan.
    rewrite !(nth_map_lt (fun x => negb (PrimFloat.is_nan x)) _ nan) by lia.
    split; [reflexivity|]. split; [reflexivity|]. split; [reflexivity|].
    destruct (negb (PrimFloat.is_nan (nth j (SniperController.major_buy sn) nan)));
      simpl; auto; discriminate.
Qed.

End SignalsFacts.

Lemma generate_signals_modes_witness :
  exists entries_and entries_or exits,
    Signals.generate_signals sniper_stub vzo_stub [1; 2; 3]%float [] [] []
      28 "Jurik Moving Average" 1 14 "Jurik Moving Average" (-40) 40 true true "and"
    = Ok (entries_and, exits) /\
    (forall combine_mode, combine_mode <> "and" ->
       Signals.generate_signals sniper_stub vzo_stub [1; 2; 3]%float [] [] []
         28 "Jurik Moving Average" 1 14 "Jurik Moving Average" (-40) 40 true true combine_mode
       = Ok (entries_or, exits)) /\
    length entries_and = 3%nat /\ length entries_or = 3%nat /\ length exits = 3%nat /\
    forall j, (j < 3)%nat ->
      let buy_s := negb (PrimFloat.is_nan (nth j [nan; 2; 3]%float nan)) in
      let buy_v := negb (PrimFloat.is_nan (nth j [nan; nan; 3]%float nan)) in
      let sell_s := negb (PrimFloat.is_nan (nth j [1; 2; 3]%float nan)) in
      let sell_v := negb (PrimFloat.is_nan (nth j [nan; nan; nan]%float nan)) in
      nth j entries_and false = buy_s && buy_v /\
      nth j entries_or false = buy_s || buy_v /\
      nth j exits false = sell_s || sell_v /\
      (nth j entries_and false = true -> nth j entries_or false = true).
Proof.
  apply (generate_signals_modes sniper_stub vzo_stub [1; 2; 3]%float [] [] []
           28 "Jurik Moving Average" 1%float 14 "Jurik Moving Average" (-40)%float 40%float
           {| SniperController.major_buy := [nan; 2; 3]%float;
              SniperController.major_sell := [1; 2; 3]%float |}
           {| VzoController.major_buy := [nan; nan; 3]%float;
              VzoController.major_sell := [nan; nan; nan]%float |} 3);
    reflexivity.
Defined.

Example generate_signals_run :
  Signals.generate_signals sniper_stub vzo_stub [1; 2; 3]%float [] [] []
    28 "Jurik Moving Average" 1 14 "Jurik Moving Average" (-40) 40 true true "and"
  = Ok ([false; false; true], [true; true; true]) /\
  Signals.generate_signals sniper_stub vzo_stub [1; 2; 3]%float [] [] []
    28 "Jurik Moving Average" 1 14 "Jurik Moving Average" (-40) 40 true true "AND"
  = Ok ([false; true; true], [true; true; true]) /\
  Signals.generate_signals sniper_stub vzo_stub [1; 2; 3]%float [] [] []
    28 "Jurik Moving Average" 1 14 "Jurik Moving Average" (-40) 40 false false "and"
  = Ok ([false; false; false], [false; false; false]).
Proof. repeat split; reflexivity. Qed.

(** ** The spectral analysis kernel *)

Ltac peel_binds H :=
  repeat (apply bind_Ok_inv in H; let x := fresh "x" in destruct H as [x [_ H]];
          try match type of H with
              | (let '(_, _) := ?p in _) = _ => destruct p
              end).

(** whenever a kernel returns, its output has the length of the series *)
Lemma bandpass_1d_nb_length (np_cos : float -> float) (np_pi : float)
    (src : list float) (period bandwidth : float) (out : list float) :
  SpectralNb.bandpass_1d_nb np_cos np_pi src period bandwidth = Ok out ->
  length out = length src.
Proof.
  unfold SpectralNb.bandpass_1d_nb. intros H. cbv zeta in H.
  do 5 (apply bind_Ok_inv in H; destruct H as [? [_ H]]).
  destruct (Z_le_gt_dec 2 (len src)) as [Hle|Hgt].
  - refine (for_range_returns (fun _ o => length o = length src) _ _ _ _ _ Hle _ _ H).
    + now rewrite !setitem_unchecked_length, np_empty_length.
    + intros i st st' _ HL Hb. peel_binds Hb.
      apply setitem_length in Hb. congruence.
  - rewrite for_range_empty in H by lia. inversion H; subst.
    now rewrite !setitem_unchecked_length, np_empty_length.
Qed.

Lemma goertzel_1d_nb_length (ops : SpectralNb.FloatOps) (src : list (SpectralNb.F ops))
    (window_size : Z) (cycle_len scale_factor : SpectralNb.F ops)
    (out : list (SpectralNb.F ops)) :
  SpectralNb.goertzel_1d_nb ops src window_size cycle_len scale_factor = Ok out ->
  length out = length src.
Proof.
  unfold SpectralNb.goertzel_1d_nb. intros H. cbv zeta in H.
  refine (for_range_returns (fun _ o => length o = length src) _ _ _ _ _ _ _ _ H);
    [unfold len; lia | apply repeat_length |].
  intros i st st' _ HL Hb.
  destruct (Z.min (i + 1) window_size <? 2).
  - apply setitem_length in Hb. congruence.
  - peel_binds Hb. apply setitem_length in Hb. congruence.
Qed.

Lemma cycle_kernel_length (np_sin np_cos : float -> float) (np_pi : float)
    (src : list float) (bandwidth : float) (method window_size : Z)
    (scale_factor p : float) (col : list float) :
  cycle_kernel np_sin np_cos np_pi src bandwidth method window_size scale_factor p = Ok col ->
  length col = length src.
Proof.
  unfold cycle_kernel. destruct (method =? 0).
  - apply bandpass_1d_nb_length.
  - apply (goertzel_1d_nb_length (SpectralNb.float64_ops np_sin np_cos np_pi)).
Qed.

Lemma Forall2_nth_pair {A B : Type} (R : A -> B -> Prop) (a : list A) (b : list B)
    (da : A) (db : B) :
  Forall2 R a b ->
  length a = length b /\ forall k, (k < length a)%nat -> R (nth k a da) (nth k b db).
Proof.
  induction 1 as [|x y a b Hxy _ [IHl IHn]]; simpl.
  - split; [reflexivity | intros; lia].
  - split; [now rewrite IHl|]. intros [|k] Hk; [exact Hxy | apply IHn; lia].
Qed.

Lemma nth_error_combine_nth {A B : Type} (a : list A) (b : list B) (da : A) (db : B)
    (k : nat) :
  (k < length a)%nat -> (k < length b)%nat ->
  nth_error (List.combine a b) k = Some (nth k a da, nth k b db).
Proof.
  revert b k. induction a as [|x a IH]; intros [|y b] [|k]; simpl; intros Ha Hb;
    try lia; [reflexivity | apply IH; lia].
Qed.

(** one pass of the inner loop adds a column to the composite *)
Lemma composite_add_column (cycles : list (list float)) (c : Z) (n : nat)
    (comp : list float) :
  0 <= c < len cycles ->
  length (nth (Z.to_nat c) cycles []) = n ->
  length comp = n ->
  exists comp',
    for_range 0 (Z.of_nat n)
      (fun i composite =>
         a <- getitem composite i ;;
         col <- getitem cycles c ;;
         v <- getitem col i ;;
         setitem composite i (PrimFloat.add a v))
      comp = Ok comp' /\
    length comp' = n /\
    forall i, (i < n)%nat ->
      nth i comp' 0%float
      = PrimFloat.add (nth i comp 0%float) (nth i (nth (Z.to_nat c) cycles []) 0%float).
Proof.
  intros Hc Hcol Hcomp.
  set (col := nth (Z.to_nat c) cycles []) in *.
  set (P := fun (i : Z) (o : list float) =>
              length o = n /\
              forall k, (k < n)%nat ->
                nth k o 0%float
                = if Z.of_nat k <? i
                  then PrimFloat.add (nth k comp 0%float) (nth k col 0%float)
                  else nth k comp 0%float).
  match goal with
  | |- context [for_range 0 ?hi ?body comp] =>
      destruct (for_range_invariant P body 0 hi comp) as [comp' [E [L H]]]
  end.
  - lia.
  - unfold P. split; [exact Hcomp|]. intros k Hk.
    destruct (Z.ltb_spec (Z.of_nat k) 0); [lia | reflexivity].
  - intros i o Hi [HL Hdone].
    rewrite (getitem_in_range 0%float o i) by (unfold len; lia). simpl bind.
    rewrite (getitem_in_range [] cycles c) by exact Hc. simpl bind. fold col.
    rewrite (getitem_in_range 0%float col i) by (unfold len; lia). simpl bind.
    rewrite setitem_in_range by (unfold len; lia).
    eexists. split; [reflexivity|]. unfold P.
    split; [now rewrite list_set_length|].
    intros k Hk. destruct (Z.eq_dec (Z.of_nat k) i) as [Ek|Nk].
    + replace (Z.to_nat i) with k by lia.
      rewrite nth_list_set_eq by lia.
      destruct (Z.ltb_spec (Z.of_nat k) (i + 1)); [|lia].
      rewrite (Hdone k Hk). destruct (Z.ltb_spec (Z.of_nat k) i); [lia | reflexivity].
    + rewrite nth_list_set_neq by lia. rewrite (Hdone k Hk).
      destruct (Z.ltb_spec (Z.of_nat k) i), (Z.ltb_spec (Z.of_nat k) (i + 1));
        try lia; reflexivity.
  - exists comp'. split; [exact E|]. split; [exact L|].
    intros i Hi. rewrite (H i Hi).
    destruct (Z.ltb_spec (Z.of_nat i) (Z.of_nat n)); [reflexivity | lia].
Qed.

Section SpectralAnalysisFacts.

Variables (np_sin np_cos : float -> float) (np_pi : float).

(** X30.  Whenever the kernel of every period returns a column, the analysis
    returns exactly these columns, each of the length of the series, and a
    composite of that length whose bar [i] is the sum, in column order and
    starting from 0.0, of the columns whose mask entry is true; mask entries
    beyond the number of periods are ignored. *)
Theorem spectral_analysis_composite (src periods : list float)
    (composite_mask : list bool) (bandwidth : float) (method window_size : Z)
    (scale_factor : float) (cols : list (list float)) :
  Forall2
    (fun p col =>
       cycle_kernel np_sin np_cos np_pi src bandwidth method window_size scale_factor p
       = Ok col)
    periods cols ->
  (length periods <= length composite_mask)%nat ->
  exists composite,
    SpectralNb.spectral_analysis_1d_nb np_sin np_cos np_pi src periods composite_mask
      bandwidth method window_size scale_factor = Ok (cols, composite) /\
    Forall (fun col => length col = length src) cols /\
    length composite = length src /\
    forall i, (i < length src)%nat ->
      nth i composite 0%float = composite_bar composite_mask cols i.
Proof.
  intros HF Hmask.
  destruct (Forall2_nth_pair _ _ _ 0%float [] HF) as [HLc Hcol].
  assert (Hlen : forall k, (k < length periods)%nat -> length (nth k cols []) = length src).
  { intros k Hk. eapply cycle_kernel_length. apply (Hcol k Hk). }
  unfold SpectralNb.spectral_analysis_1d_nb. cbv zeta.
  (* the columns *)
  set (P := fun (c : Z) (cyc : list (list float)) =>
              length cyc = length periods /\
              (forall k, (k < length periods)%nat -> length (nth k cyc []) = length src) /\
              forall k, Z.of_nat k < c -> nth k cyc [] = nth k cols []).
  match goal with
  | |- context [bind (for_range 0 (len periods) ?body ?init) _] =>
      destruct (for_range_invariant P body 0 (len periods) init) as [cyc [E [L [_ H]]]]
  end.
  - unfold len. lia.
  - unfold P. split; [apply repeat_length|]. split; [|intros; lia].
    intros k Hk. rewrite nth_repeat_lt.
    destruct (Nat.ltb_spec k (length periods)); [apply np_empty_length | lia].
  - intros c cyc Hc [HL [Hlens Hdone]]. unfold len in Hc.
    rewrite (getitem_in_range 0%float periods c) by (unfold len; lia). simpl bind.
    pose proof (Hcol (Z.to_nat c) ltac:(lia)) as Hk. unfold cycle_kernel in Hk.
    rewrite Hk. simpl bind. unfold SpectralNb.set_column.
    rewrite (getitem_in_range [] cyc c) by (unfold len; lia). simpl bind.
    rewrite Hlen, Hlens by lia. rewrite Nat.eqb_refl.
    rewrite setitem_in_range by (unfold len; lia).
    eexists. split; [reflexivity|]. unfold P.
    split; [now rewrite list_set_length|]. split.
    + intros k Hk'. destruct (Nat.eq_dec (Z.to_nat c) k) as [Ek|Nk].
      * subst k. rewrite nth_list_set_eq by lia. apply Hlen. lia.
      * rewrite nth_list_set_neq by exact Nk. apply Hlens. exact Hk'.
    + intros k Hk'. destruct (Nat.eq_dec (Z.to_nat c) k) as [Ek|Nk].
      * subst k. rewrite nth_list_set_eq by lia. reflexivity.
      * rewrite nth_list_set_neq by exact Nk. apply Hdone. lia.
  - rewrite E. simpl bind.
    assert (cyc = cols) as ->.
    { apply (nth_ext _ _ [] []); [congruence|].
      intros k Hk. apply H. unfold len. lia. }
    clear E L H P.
    (* the composite *)
    set (f := fun (acc : float) (mc : bool * list float) (i : nat) =>
                if fst mc then PrimFloat.add acc (nth i (snd mc) 0%float) else acc).
    set (Q := fun (c : Z) (comp : list float) =>
                length comp = length src /\
                forall i, (i < length src)%nat ->
                  nth i comp 0%float
                  = fold_left (fun acc mc => f acc mc i)
                      (firstn (Z.to_nat c) (List.combine composite_mask cols)) 0%float).
    match goal with
    | |- context [bind (for_range 0 (len periods) ?body ?init) _] =>
        destruct (for_range_invariant Q body 0 (len periods) init) as [comp [E [L H]]]
    end.
    + unfold len. lia.
    + unfold Q. split; [apply repeat_length|].
      intros i Hi. simpl. rewrite nth_repeat_lt.
      destruct (Nat.ltb_spec i (length src)); [reflexivity | lia].
    + intros c comp Hc [HL Hdone]. unfold len in Hc.
      rewrite (getitem_in_range false composite_mask c) by (unfold len; lia). simpl bind.
      assert (Hsnoc : firstn (Z.to_nat (c + 1)) (List.combine composite_mask cols)
                      = (firstn (Z.to_nat c) (List.combine composite_mask cols)
                         ++ [(nth (Z.to_nat c) composite_mask false,
                              nth (Z.to_nat c) cols [])])%list).
      { replace (Z.to_nat (c + 1)) with (Datatypes.S (Z.to_nat c)) by lia.
        apply firstn_snoc_nth_error. apply nth_error_combine_nth; lia. }
      destruct (nth (Z.to_nat c) composite_mask false) eqn:Em.
      * destruct (composite_add_column cols c (length src) comp) as [comp' [E' [L' H']]].
        -- unfold len. lia.
        -- apply Hlen. lia.
        -- exact HL.
        -- unfold len. rewrite E'. exists comp'. split; [reflexivity|].
           unfold Q. split; [exact L'|]. intros i Hi.
           rewrite Hsnoc, fold_left_app. simpl. unfold f at 1. simpl.
           rewrite (H' i Hi), (Hdone i Hi). reflexivity.
      * exists comp. split; [reflexivity|]. unfold Q. split; [exact HL|].
        intros i Hi. rewrite Hsnoc, fold_left_app. simpl. unfold f at 1. simpl.
        apply Hdone. exact Hi.
    + rewrite E. simpl bind. exists comp. split; [reflexivity|].
      split; [|split; [exact L|]].
      * apply Forall_forall. intros col Hin.
        destruct (In_nth _ _ [] Hin) as [k [Hk Ek]]. subst col. apply Hlen. lia.
      * intros i Hi. rewrite (H i Hi). unfold composite_bar, f.
        rewrite firstn_all2; [reflexivity|].
        rewrite length_combine. unfold len. lia.
Qed.

End SpectralAnalysisFacts.

Lemma spectral_analysis_composite_witness :
  let src := [1; 2; 4; 8]%float in
  let cols :=
    [[0; 0; 0x1.191b85c8472ffp+0; 0x1.72370b908e5fep+1];
     [0; 0; 0x1.191b85c8472ffp+0; 0x1.72370b908e5fep+1];
     [0; 0; 0x1.191b85c8472ffp+0; 0x1.72370b908e5fep+1]]%float in
  exists composite,
    SpectralNb.spectral_analysis_1d_nb half_cos half_cos 3%float src [20; 10; 5]%float
      [true; false; true] 0.25%float 0 10 1%float = Ok (cols, composite) /\
    Forall (fun col => length col = length src) cols /\
    length composite = length src /\
    forall i, (i < length src)%nat ->
      nth i composite 0%float = composite_bar [true; false; true] cols i.
Proof.
  apply (spectral_analysis_composite half_cos half_cos 3%float [1; 2; 4; 8]%float
           [20; 10; 5]%float [true; false; true] 0.25%float 0 10 1%float).
  - repeat constructor.
  - simpl. lia.
Defined.

(** a run of the Hurst method: the second column is masked out, so the
    composite is the first column added to the third *)
Example spectral_analysis_run :
  SpectralNb.spectral_analysis_1d_nb half_cos half_cos 3%float [1; 2; 4; 8]%float
    [20; 10; 5]%float [true; false; true] 0.25%float 0 10 1%float
  = Ok ([[0; 0; 0x1.191b85c8472ffp+0; 0x1.72370b908e5fep+1];
         [0; 0; 0x1.191b85c8472ffp+0; 0x1.72370b908e5fep+1];
         [0; 0; 0x1.191b85c8472ffp+0; 0x1.72370b908e5fep+1]],
        [0; 0; 0x1.191b85c8472ffp+1; 0x1.72370b908e5fep+2])%float.
Proof. vm_compute. reflexivity. Qed.

(** ** The moving-average kernels with a window longer than the series *)

(** *** The kernels with a NaN warm-up *)



(** *** The recursions seeded with the first sample *)









(** *** The kernels that shrink the window to the history *)










(** the kernels on three samples with the window 5 *)
Example window_exceeds_runs :
  sma_1d_nb [1; 5; 3]%float 5 = Ok [nan; nan; nan]%float /\
  rma_1d_nb [1; 5; 3]%float 5 = Ok [nan; nan; nan]%float /\
  vwma_1d_nb [1; 5; 3]%float [2; 2; 2]%float 5 = Ok [nan; nan; nan]%float /\
  donchian_1d_nb [1; 5; 3]%float 5 = Ok [1; 3; 3]%float /\
  linreg_1d_nb [1; 5; 3]%float 5 = Ok [1; 5; 4]%float /\
  ilrs_1d_nb [1; 5; 3]%float 5 = Ok [1; 9; 4]%float /\
  ilrs_slope [1; 5; 3]%float 2 1 = 4%float /\
  ilrs_slope [1; 5; 3]%float 3 2 = 1%float /\
  mcginley_1d_nb [1; 0]%float 10 = Raise ZeroDivisionError.
Proof. repeat split; reflexivity. Qed.
